(** * Alberta multi-sensor patch extraction: a shallow embedding

    The definitions below follow [extract_patches_alldatasets.py] and the two
    band-stacking scripts function by function.  Rasters and NumPy arrays are
    lists of rows of integers, Python dictionaries are [gmap]s, Python floats
    are binary64 primitive floats, and the effects of the raster library
    (reading a window, writing a block, the file system) are explicit state. *)

From Stdlib Require Import ZArith Lia Bool.
From Stdlib Require Import Floats.PrimFloat Floats.FloatOps Floats.SpecFloat.
From Stdlib Require Import Numbers.Cyclic.Int63.Uint63.
From stdpp Require Import gmap strings list list_numbers fin_maps sorting pretty.

Open Scope Z_scope.

#[local] Set Warnings "-inexact-float".

(** ** Python numbers *)

Module PyNum.

(** [float(n)] for a Python integer of magnitude below [2^63]. *)
Definition float_of_Z (n : Z) : float :=
  if n <? 0 then PrimFloat.opp (PrimFloat.of_uint63 (Uint63.of_Z (- n)))
  else PrimFloat.of_uint63 (Uint63.of_Z n).

(** [int(x)]: truncation toward zero of a finite float (0 on nan and
    infinities, where Python raises). *)
Definition py_int (x : float) : Z :=
  match Prim2SF x with
  | S754_finite s m e =>
      let mag := if 0 <=? e then Z.pos m * 2 ^ e
                 else Z.shiftr (Z.pos m) (- e) in
      if s then - mag else mag
  | _ => 0
  end.

(** [math.ceil(x)] of a finite float (0 on nan and infinities). *)
Definition py_ceil (x : float) : Z :=
  match Prim2SF x with
  | S754_finite s m e =>
      if 0 <=? e then (if s then - (Z.pos m * 2 ^ e) else Z.pos m * 2 ^ e)
      else if s then - (Z.pos m `div` 2 ^ (- e))
           else - ((- Z.pos m) `div` 2 ^ (- e))
  | _ => 0
  end.

(** [math.ceil(a / b)] for two raster sizes: true division of two integers
    below [2^53] is correctly rounded, so the ceiling of the float quotient
    is the integer ceiling. *)
Definition ceil_div (a b : Z) : Z := - ((- a) `div` b).

(** [range(a, b)]. *)
Definition range (a b : Z) : list Z := seqZ a (b - a).

(** The signed 16-bit value a NumPy [int16] cell holds after storing [v]. *)
Definition to_int16 (v : Z) : Z := (v + 32768) `mod` 65536 - 32768.

End PyNum.
Export PyNum.

(** ** Two-dimensional arrays *)

Module NdArray.

Abbreviation array2 := (list (list Z)).

Definition nrows (a : array2) : Z := Z.of_nat (length a).

Definition ncols (a : array2) : Z :=
  match a with
  | [] => 0
  | r :: _ => Z.of_nat (length r)
  end.

(** Every row has the length of the first one: the shape invariant of a
    NumPy array. *)
Definition rect (a : array2) : Prop :=
  Forall (λ r : list Z, Z.of_nat (length r) = ncols a) a.

(** [a[i, j]] for indices inside the array. *)
Definition get (a : array2) (i j : Z) : Z :=
  default 0 (a !! Z.to_nat i ≫= λ r : list Z, r !! Z.to_nat j).

(** [np.full((rows, cols), v)] and [np.zeros((rows, cols))]. *)
Definition full (rows cols v : Z) : array2 :=
  replicate (Z.to_nat rows) (replicate (Z.to_nat cols) v).

Definition zeros (rows cols : Z) : array2 := full rows cols 0.

(** [a[y0:y1, x0:x1]] for non-negative bounds (NumPy clips at the shape). *)
Definition slice2 (a : array2) (y0 y1 x0 x1 : Z) : array2 :=
  (λ r : list Z, take (Z.to_nat (x1 - x0)) (drop (Z.to_nat x0) r))
    <$> take (Z.to_nat (y1 - y0)) (drop (Z.to_nat y0) a).

(** [np.sum(a == v)]. *)
Definition count_eq (a : array2) (v : Z) : Z :=
  foldl (λ acc (r : list Z),
           foldl (λ acc' (p : Z), if p =? v then acc' + 1 else acc') acc r)
        0 a.

End NdArray.
Export NdArray.

(** ** Raster datasets (the part of GDAL the pipeline uses) *)

Module Gdal.

(** [band.ReadAsArray(xoff, yoff, xsize, ysize)]: the window, or [None]
    when it does not lie inside the raster. *)
Definition ReadAsArray (band : array2) (xoff yoff xsize ysize : Z)
  : option array2 :=
  if (0 <=? xoff) && (0 <=? yoff) && (0 <=? xsize) && (0 <=? ysize)
     && (xoff + xsize <=? ncols band) && (yoff + ysize <=? nrows band)
  then Some (slice2 band yoff (yoff + ysize) xoff (xoff + xsize))
  else None.

(** [band.WriteArray(block, xoff, yoff)]: the cells of the raster under the
    block take the block's values. *)
Definition WriteArray (band block : array2) (xoff yoff : Z) : array2 :=
  imap (λ (i : nat) (row : list Z),
          let y := Z.of_nat i in
          if (yoff <=? y) && (y <? yoff + nrows block) then
            imap (λ (j : nat) (v : Z),
                    let x := Z.of_nat j in
                    if (xoff <=? x) && (x <? xoff + ncols block)
                    then get block (y - yoff) (x - xoff) else v) row
          else row) band.

(** [driver.Create(path, cols, rows, 1, ...)]: a new band reads as zero
    until it is written. *)
Definition Create (cols rows : Z) : array2 := zeros rows cols.

End Gdal.
Export Gdal.

(** ** The homogeneity filter *)

Module MajorityFilter.

(** The counting loop over the edge-clipped window of a pixel. *)
Definition count_window (lc_array : array2) (current_val : Z)
           (y_start y_end x_start x_end : Z) : Z :=
  foldl (λ count y,
           foldl (λ count' x,
                    if (get lc_array y x =? current_val)
                       && negb (get lc_array y x =? -99)
                    then count' + 1 else count')
                 count (range x_start x_end))
        0 (range y_start y_end).

(** The body of the two pixel loops. *)
Definition filter_pixel (lc_array : array2) (rows cols half_kernel
                         min_required i j : Z) : Z :=
  let current_val := get lc_array i j in
  if current_val =? -99 then -99
  else
    let y_start := Z.max 0 (i - half_kernel) in
    let y_end := Z.min rows (i + half_kernel + 1) in
    let x_start := Z.max 0 (j - half_kernel) in
    let x_end := Z.min cols (j + half_kernel + 1) in
    let count := count_window lc_array current_val y_start y_end x_start x_end in
    if min_required <=? count then current_val else -99.

Definition kernel_size : Z := 9.

Definition min_required_of (min_homogeneity : float) : Z :=
  py_ceil (PrimFloat.mul (float_of_Z (kernel_size ^ 2)) min_homogeneity).

Definition apply_strict_majority_filter_numba
           (lc_array : array2) (min_homogeneity : float) : array2 :=
  let rows := nrows lc_array in
  let cols := ncols lc_array in
  let half_kernel := kernel_size `div` 2 in
  let min_required := min_required_of min_homogeneity in
  (λ i, (λ j, filter_pixel lc_array rows cols half_kernel min_required i j)
          <$> range 0 cols)
    <$> range 0 rows.

(** One batch of the batched filter: read with overlap, filter, write the
    core.  A batch that cannot be read is skipped. *)
Definition filter_batch (src : array2) (min_homogeneity : float)
           (batch_size overlap : Z) (out_band : array2) (batch_y batch_x : Z)
  : array2 :=
  let rows := nrows src in
  let cols := ncols src in
  let y_start := batch_y * batch_size in
  let y_end := Z.min ((batch_y + 1) * batch_size) rows in
  let x_start := batch_x * batch_size in
  let x_end := Z.min ((batch_x + 1) * batch_size) cols in
  let y_start_read := Z.max 0 (y_start - overlap) in
  let y_end_read := Z.min rows (y_end + overlap) in
  let x_start_read := Z.max 0 (x_start - overlap) in
  let x_end_read := Z.min cols (x_end + overlap) in
  match ReadAsArray src x_start_read y_start_read
                    (x_end_read - x_start_read) (y_end_read - y_start_read) with
  | None => out_band
  | Some batch_array =>
      let filtered_batch :=
        apply_strict_majority_filter_numba batch_array min_homogeneity in
      let core_y_start := y_start - y_start_read in
      let core_y_end := core_y_start + (y_end - y_start) in
      let core_x_start := x_start - x_start_read in
      let core_x_end := core_x_start + (x_end - x_start) in
      let core_filtered :=
        slice2 filtered_batch core_y_start core_y_end core_x_start core_x_end in
      WriteArray out_band core_filtered x_start y_start
  end.

(** The batched filter with the overlap left open; the source fixes it to
    [kernel_size // 2]. *)
Definition filter_batched_with (overlap : Z) (src : array2)
           (min_homogeneity : float) (batch_size : Z) : array2 :=
  let rows := nrows src in
  let cols := ncols src in
  let out_band := Create cols rows in
  let num_batches_y := ceil_div rows batch_size in
  let num_batches_x := ceil_div cols batch_size in
  foldl (λ out batch_y,
           foldl (λ out' batch_x,
                    filter_batch src min_homogeneity batch_size overlap
                                 out' batch_y batch_x)
                 out (range 0 num_batches_x))
        out_band (range 0 num_batches_y).

(** The raster written to [output_path] for the raster at [input_path]. *)
Definition apply_strict_majority_filter_batched
           (src : array2) (min_homogeneity : float) (batch_size : Z) : array2 :=
  let overlap := kernel_size `div` 2 in
  filter_batched_with overlap src min_homogeneity batch_size.

End MajorityFilter.
Export MajorityFilter.

(** ** Abundance maps *)

Module Abundance.

(** The partial counts of one batch.  [np.zeros] refuses a negative
    dimension, which is the [None] result. *)
Definition calculate_abundance_batch_numba
           (lc_batch : array2) (class_id window_size stride
            batch_start_y batch_start_x out_rows out_cols : Z)
  : option (array2 * Z * Z) :=
  let lc_rows := nrows lc_batch in
  let lc_cols := ncols lc_batch in
  let start_i := Z.max 0 (batch_start_y `div` stride) in
  let end_i := Z.min out_rows ((batch_start_y + lc_rows) `div` stride + 1) in
  let start_j := Z.max 0 (batch_start_x `div` stride) in
  let end_j := Z.min out_cols ((batch_start_x + lc_cols) `div` stride + 1) in
  if (end_i - start_i <? 0) || (end_j - start_j <? 0) then None
  else
    let abundance :=
      (λ i,
         (λ j,
            let y_start_orig := i * stride in
            let x_start_orig := j * stride in
            let y_end_orig :=
              Z.min (y_start_orig + window_size) (batch_start_y + lc_rows) in
            let x_end_orig :=
              Z.min (x_start_orig + window_size) (batch_start_x + lc_cols) in
            let y_start_batch := Z.max 0 (y_start_orig - batch_start_y) in
            let x_start_batch := Z.max 0 (x_start_orig - batch_start_x) in
            let y_end_batch := Z.min lc_rows (y_end_orig - batch_start_y) in
            let x_end_batch := Z.min lc_cols (x_end_orig - batch_start_x) in
            if (y_start_batch <? y_end_batch) && (x_start_batch <? x_end_batch)
            then
              let window :=
                slice2 lc_batch y_start_batch y_end_batch
                       x_start_batch x_end_batch in
              count_eq window class_id
            else 0)
           <$> range start_j end_j)
        <$> range start_i end_i in
    Some (abundance, start_i, start_j).

(** [full[start_i:end_i, start_j:end_j] += block], the block having the
    shape of the slice. *)
Definition add_block (full_abundance block : array2) (start_i start_j : Z)
  : array2 :=
  imap (λ (r : nat) (row : list Z),
          let i := Z.of_nat r in
          if (start_i <=? i) && (i <? start_i + nrows block) then
            imap (λ (c : nat) (v : Z),
                    let j := Z.of_nat c in
                    if (start_j <=? j) && (j <? start_j + ncols block)
                    then v + get block (i - start_i) (j - start_j) else v) row
          else row) full_abundance.

(** One iteration of the batch loops for a class. *)
Definition abundance_batch (src : array2)
           (class_id window_size stride batch_size out_rows out_cols : Z)
           (full_abundance : array2) (batch_y batch_x : Z) : option array2 :=
  let rows := nrows src in
  let cols := ncols src in
  let y_start := batch_y * batch_size in
  let y_end := Z.min ((batch_y + 1) * batch_size) rows in
  let x_start := batch_x * batch_size in
  let x_end := Z.min ((batch_x + 1) * batch_size) cols in
  match ReadAsArray src x_start y_start (x_end - x_start) (y_end - y_start) with
  | None => Some full_abundance
  | Some batch_array =>
      match calculate_abundance_batch_numba batch_array class_id window_size
              stride y_start x_start out_rows out_cols with
      | None => None
      | Some (batch_abundance, start_i, start_j) =>
          let end_i := start_i + nrows batch_abundance in
          let end_j := start_j + ncols batch_abundance in
          if (end_i <=? out_rows) && (end_j <=? out_cols)
          then Some (add_block full_abundance batch_abundance start_i start_j)
          else Some full_abundance
      end
  end.

Definition out_dims (rows cols window_size stride : Z) : Z * Z :=
  let max_valid_row := Z.max 0 (rows - window_size) in
  let max_valid_col := Z.max 0 (cols - window_size) in
  let out_rows := Z.max 1 (max_valid_row `div` stride + 1) in
  let out_cols := Z.max 1 (max_valid_col `div` stride + 1) in
  (out_rows, out_cols).

(** The array written as [class_<id>_abundance.tif]; [None] when a batch
    raises. *)
Definition full_abundance_for_class (src : array2)
           (class_id window_size overlap batch_size : Z) : option array2 :=
  let rows := nrows src in
  let cols := ncols src in
  let stride := window_size - overlap in
  let '(out_rows, out_cols) := out_dims rows cols window_size stride in
  let num_batches_y := ceil_div rows batch_size in
  let num_batches_x := ceil_div cols batch_size in
  foldl (λ acc batch_y,
           foldl (λ acc' batch_x,
                    full ← acc';
                    abundance_batch src class_id window_size stride batch_size
                                    out_rows out_cols full batch_y batch_x)
                 acc (range 0 num_batches_x))
        (Some (zeros out_rows out_cols)) (range 0 num_batches_y).

(** The scan for the classes present, background left out. *)
Definition scan_classes (src : array2) (batch_size : Z) : list Z :=
  let rows := nrows src in
  let cols := ncols src in
  let num_batches_y := ceil_div rows batch_size in
  let num_batches_x := ceil_div cols batch_size in
  let classes : gset Z :=
    foldl (λ acc batch_y,
             foldl (λ (acc' : gset Z) batch_x,
                      let y_start := batch_y * batch_size in
                      let y_end := Z.min ((batch_y + 1) * batch_size) rows in
                      let x_start := batch_x * batch_size in
                      let x_end := Z.min ((batch_x + 1) * batch_size) cols in
                      match ReadAsArray src x_start y_start
                              (x_end - x_start) (y_end - y_start) with
                      | None => acc'
                      | Some batch_array =>
                          let batch_classes : gset Z :=
                            list_to_set (concat batch_array) in
                          let valid_classes :=
                            filter (λ c, c ≠ -99) batch_classes in
                          acc' ∪ valid_classes
                      end)
                   acc (range 0 num_batches_x))
          ∅ (range 0 num_batches_y) in
  merge_sort Z.le (elements classes).

(** The abundance files after the run, from the files already there
    ([existing], which are kept), and the returned tuple. *)
Definition create_abundance_maps_batched (src : array2)
           (existing : gmap Z array2) (window_size overlap batch_size : Z)
  : option (gmap Z array2 * (list Z * Z * Z * Z)) :=
  let rows := nrows src in
  let cols := ncols src in
  let stride := window_size - overlap in
  let classes := scan_classes src batch_size in
  files ← foldl (λ acc class_id,
                   files ← acc;
                   match files !! class_id with
                   | Some _ => Some files
                   | None =>
                       full ← full_abundance_for_class src class_id window_size
                                overlap batch_size;
                       Some (<[class_id := full]> files)
                   end)
                (Some existing) classes;
  Some (files, (classes, stride, rows, cols)).

(** What a cell of the abundance map is meant to hold: the pixels of the
    class inside the window whose top-left pixel is [(i*stride, j*stride)]. *)
Definition window_count (src : array2) (class_id window_size stride i j : Z)
  : Z :=
  count_eq (slice2 src (i * stride) (i * stride + window_size)
                   (j * stride) (j * stride + window_size)) class_id.

End Abundance.
Export Abundance.

(** ** Label mapping and remapping *)

Module LabelMapping.

Record class_definition : Type :=
  { name : string; color : Z * Z * Z }.

Definition CLASS_DEFINITIONS : gmap Z class_definition :=
  list_to_map
    [ (0, {| name := "Unknown"; color := (0, 0, 0) |});
      (1, {| name := "Temperate needleleaf forest"; color := (0, 61, 0) |});
      (2, {| name := "Sub-polar taiga forest"; color := (148, 156, 112) |});
      (5, {| name := "Temperate broadleaf forest"; color := (20, 140, 61) |});
      (6, {| name := "Mixed forest"; color := (91, 117, 43) |});
      (8, {| name := "Temperate shrubland"; color := (179, 138, 51) |});
      (10, {| name := "Temperate grassland"; color := (225, 207, 138) |});
      (11, {| name := "Polar shrubland-lichen"; color := (156, 117, 84) |});
      (12, {| name := "Polar grassland-lichen"; color := (186, 212, 143) |});
      (13, {| name := "Polar barren-lichen"; color := (64, 138, 112) |});
      (14, {| name := "Wetland"; color := (107, 163, 138) |});
      (15, {| name := "Cropland"; color := (230, 174, 102) |});
      (16, {| name := "Barren lands"; color := (168, 171, 174) |});
      (17, {| name := "Urban"; color := (220, 33, 38) |});
      (18, {| name := "Water"; color := (76, 112, 163) |});
      (19, {| name := "Snow/ice"; color := (255, 250, 255) |}) ].

Record new_class_definition : Type :=
  { new_name : string; new_color : Z * Z * Z; original_id : Z }.

Record label_mapping : Type :=
  { original_to_new : gmap Z Z;
    new_to_original : gmap Z Z;
    new_class_definitions : gmap Z new_class_definition;
    alberta_classes_sorted : list Z }.

(** [enumerate(l)]. *)
Definition enumerate {A} (l : list A) : list (Z * A) :=
  imap (λ (i : nat) (x : A), (Z.of_nat i, x)) l.

(** The three dictionaries after one iteration of the loop. *)
Definition mapping_step
           (acc : gmap Z Z * gmap Z Z * gmap Z new_class_definition)
           (entry : Z * Z)
  : gmap Z Z * gmap Z Z * gmap Z new_class_definition :=
  let '(o2n, n2o, defs) := acc in
  let '(new_label, original_class) := entry in
  let o2n := <[original_class := new_label]> o2n in
  let n2o := <[new_label := original_class]> n2o in
  let defs :=
    match CLASS_DEFINITIONS !! original_class with
    | Some d =>
        <[new_label := {| new_name := name d; new_color := color d;
                          original_id := original_class |}]> defs
    | None =>
        <[new_label := {| new_name := "Class_" +:+ pretty original_class;
                          new_color := (0, 0, 0);
                          original_id := original_class |}]> defs
    end in
  (o2n, n2o, defs).

Definition create_alberta_label_mapping (alberta_classes : list Z)
  : label_mapping :=
  let sorted := merge_sort Z.le alberta_classes in
  let o2n : gmap Z Z := <[0 := -99]> ∅ in
  let defs : gmap Z new_class_definition :=
    <[-99 := {| new_name := "Background/NoData"; new_color := (0, 0, 0);
                original_id := 0 |}]> ∅ in
  let '(o2n, n2o, defs) := foldl mapping_step (o2n, ∅, defs) (enumerate sorted) in
  {| original_to_new := o2n; new_to_original := n2o;
     new_class_definitions := defs; alberta_classes_sorted := sorted |}.

(** [np.full_like(data, v, dtype=np.int16)]. *)
Definition full_like (data : array2) (v : Z) : array2 :=
  (λ r : list Z, (λ _ : Z, to_int16 v) <$> r) <$> data.

(** [remapped[data == original_class] = new_label]. *)
Definition assign_where (data remapped : array2) (original_class new_label : Z)
  : array2 :=
  zip_with (zip_with (λ d r : Z,
                        if d =? original_class then to_int16 new_label else r))
           data remapped.

(** The array written to [output_path] for the band read from
    [input_path]. *)
Definition remap_ground_truth (data : array2) (mapping : gmap Z Z) : array2 :=
  let remapped_data := full_like data (-99) in
  foldl (λ acc (item : Z * Z),
           let '(original_class, new_label) := item in
           assign_where data acc original_class new_label)
        remapped_data (map_to_list mapping).

End LabelMapping.
Export LabelMapping.

(** ** Stratified selection and the train/val/test split *)

Module Split.

(** A candidate window [(abundance_val, i, j)]. *)
Definition candidate : Type := Z * Z * Z.

Definition abundance_of (p : candidate) : Z := p.1.1.
Definition coords_of (p : candidate) : Z * Z := (p.1.2, p.2).

(** [l[start:stop]] with Python's treatment of negative and overlong
    indices. *)
Definition py_index {A} (l : list A) (k : Z) : Z :=
  let len := Z.of_nat (length l) in
  if k <? 0 then Z.max 0 (k + len) else Z.min k len.

Definition py_slice {A} (l : list A) (start stop : Z) : list A :=
  let a := py_index l start in
  let b := py_index l stop in
  take (Z.to_nat (b - a)) (drop (Z.to_nat a) l).

(** [l[start:]]. *)
Definition py_slice_from {A} (l : list A) (start : Z) : list A :=
  drop (Z.to_nat (py_index l start)) l.

(** [all_patches.sort(key=lambda x: x[0], reverse=True)]: a stable sort,
    larger abundance first. *)
Fixpoint insert_desc (x : candidate) (l : list candidate) : list candidate :=
  match l with
  | [] => [x]
  | y :: l' =>
      if abundance_of y <? abundance_of x then x :: y :: l'
      else y :: insert_desc x l'
  end.

Definition sort_desc (l : list candidate) : list candidate :=
  foldl (λ acc x, insert_desc x acc) [] l.

(** The scan of one abundance map in chunks of 500 rows. *)
Definition collect_patches (ds : array2)
           (lc_rows lc_cols window_size stride : Z) : list candidate :=
  let rows := nrows ds in
  let cols := ncols ds in
  let chunk_size := 500 in
  foldl (λ all_patches i_start,
           let i_end := Z.min (i_start + chunk_size) rows in
           match ReadAsArray ds 0 i_start cols (i_end - i_start) with
           | None => all_patches
           | Some chunk =>
               foldl (λ acc local_i,
                        foldl (λ acc' j,
                                 let abundance_val := get chunk local_i j in
                                 let i := i_start + local_i in
                                 if 0 <? abundance_val then
                                   let y_start := i * stride in
                                   let x_start := j * stride in
                                   if (y_start + window_size <=? lc_rows)
                                      && (x_start + window_size <=? lc_cols)
                                   then acc' ++ [(abundance_val, i, j)]
                                   else acc'
                                 else acc')
                              acc (range 0 (ncols chunk)))
                     all_patches (range 0 (nrows chunk))
           end)
        [] ((λ k, k * chunk_size) <$> range 0 (ceil_div rows chunk_size)).

(** The three sizes, with the two corrective moves. *)
Definition split_counts (n_patches : Z) (train_ratio val_ratio : float)
  : Z * Z * Z :=
  let n_train := py_int (PrimFloat.mul (float_of_Z n_patches) train_ratio) in
  let n_val := py_int (PrimFloat.mul (float_of_Z n_patches) val_ratio) in
  let n_test := n_patches - n_train - n_val in
  let '(n_train, n_test) :=
    if (n_test =? 0) && (3 <=? n_patches) then (n_train - 1, 1)
    else (n_train, n_test) in
  let '(n_train, n_val) :=
    if (n_val =? 0) && (2 <=? n_patches) then (n_train - 1, 1)
    else (n_train, n_val) in
  (n_train, n_val, n_test).

Record class_split : Type :=
  { train_patches : list (Z * Z);
    val_patches : list (Z * Z);
    test_patches : list (Z * Z) }.

Definition no_patches : class_split :=
  {| train_patches := []; val_patches := []; test_patches := [] |}.

(** The cut of the shuffled selection. *)
Definition split_selected (selected_patches : list candidate)
           (train_ratio val_ratio : float) : class_split :=
  let n_patches := Z.of_nat (length selected_patches) in
  let '(n_train, n_val, _) := split_counts n_patches train_ratio val_ratio in
  {| train_patches := coords_of <$> py_slice selected_patches 0 n_train;
     val_patches := coords_of <$> py_slice selected_patches n_train (n_train + n_val);
     test_patches := coords_of <$> py_slice_from selected_patches (n_train + n_val) |}.

(** The candidates of a class: those of its abundance map, none when the
    map cannot be opened. *)
Definition candidates_of (abundance_files : gmap Z array2)
           (lc_rows lc_cols window_size stride class_id : Z) : list candidate :=
  match abundance_files !! class_id with
  | Some ds => collect_patches ds lc_rows lc_cols window_size stride
  | None => []
  end.

Section Selector.

(** [random.shuffle] at the call made for a class: the generator's
    state is outside the model, so the reordering is a parameter. *)
Variable shuffle : Z → list candidate → list candidate.

(** The patches selected for a class, after the shuffle. *)
Definition selected_for (class_id : Z) (all_patches : list candidate)
           (min_patches_per_class : Z) : list candidate :=
  let sorted := sort_desc all_patches in
  let available_patches := Z.of_nat (length sorted) in
  let patches_to_select := Z.min available_patches min_patches_per_class in
  shuffle class_id (py_slice sorted 0 patches_to_select).

(** The body of the loop over classes, from the candidates on. *)
Definition split_class (class_id : Z) (all_patches : list candidate)
           (min_patches_per_class : Z) (train_ratio val_ratio : float)
  : class_split :=
  let available_patches := Z.of_nat (length (sort_desc all_patches)) in
  let patches_to_select := Z.min available_patches min_patches_per_class in
  if patches_to_select =? 0 then no_patches
  else split_selected (selected_for class_id all_patches min_patches_per_class)
                      train_ratio val_ratio.

(** [all_splits], as the map from class id to its three lists.  A class
    whose abundance map cannot be opened gets three empty lists. *)
Definition select_and_split_patches_stratified
           (abundance_files : gmap Z array2) (classes : list Z)
           (lc_rows lc_cols window_size stride min_patches_per_class : Z)
           (train_ratio val_ratio : float) : gmap Z class_split :=
  foldl (λ all_splits class_id,
           match abundance_files !! class_id with
           | None => <[class_id := no_patches]> all_splits
           | Some ds =>
               let all_patches :=
                 collect_patches ds lc_rows lc_cols window_size stride in
               <[class_id := split_class class_id all_patches
                               min_patches_per_class train_ratio val_ratio]>
                 all_splits
           end)
        ∅ classes.

End Selector.

End Split.
Export Split.

(** ** Patch extraction *)

Module PatchExtraction.

Definition geotransform : Type := float * float * float * float * float * float.

Record dataset : Type :=
  { ds_bands : list array2;
    ds_gt : geotransform;
    ds_projection : string }.

Definition RasterCount (ds : dataset) : Z := Z.of_nat (length (ds_bands ds)).
Definition RasterYSize (ds : dataset) : Z :=
  match ds_bands ds with [] => 0 | b :: _ => nrows b end.
Definition RasterXSize (ds : dataset) : Z :=
  match ds_bands ds with [] => 0 | b :: _ => ncols b end.

(** A written GeoTIFF patch. *)
Record geotiff : Type :=
  { tif_bands : list array2;
    tif_gt : geotransform;
    tif_projection : string }.

Definition origin (gt : geotransform) : float * float :=
  let '(g0, _, _, g3, _, _) := gt in (g0, g3).

Definition patch_gt (gt : geotransform) (x_offset y_offset : Z) : geotransform :=
  let '(g0, g1, g2, g3, g4, g5) := gt in
  (PrimFloat.add g0 (PrimFloat.mul (float_of_Z x_offset) g1), g1, g2,
   PrimFloat.add g3 (PrimFloat.mul (float_of_Z y_offset) g5), g4, g5).

(** [np.clip(a, 0, 255).astype(np.uint8)]. *)
Definition clip_uint8 (a : array2) : array2 :=
  (λ r : list Z, (λ v : Z, Z.max 0 (Z.min v 255)) <$> r) <$> a.

(** [a.astype(np.int16)]. *)
Definition astype_int16 (a : array2) : array2 :=
  (λ r : list Z, to_int16 <$> r) <$> a.

Definition has_shape (a : array2) (h w : Z) : bool :=
  (nrows a =? h) && (ncols a =? w).

(** The [try] block for one patch of a sensor: the written file, or
    [None] when an exception sends the loop to the next patch.  The clip to
    [0, 255] is applied to every raster: it leaves the values of a raster
    that is already 8-bit as they are. *)
Definition sensor_patch (sensor : dataset) (num_bands window_size stride : Z)
           (i j : Z) : option geotiff :=
  let x_offset := j * stride in
  let y_offset := i * stride in
  let gt := ds_gt sensor in
  let projection := ds_projection sensor in
  if RasterCount sensor <? num_bands then None
  else
    bands_data ←
      mapM (λ band : array2,
              patch ← ReadAsArray band x_offset y_offset window_size window_size;
              if has_shape patch window_size window_size then Some patch
              else None)
           (take (Z.to_nat num_bands) (ds_bands sensor));
    match bands_data with
    | [] => None
    | _ =>
        let image_patch := clip_uint8 <$> bands_data in
        Some {| tif_bands := image_patch;
                tif_gt := patch_gt gt x_offset y_offset;
                tif_projection := projection |}
    end.

(** The image files of a sensor, keyed by [(class_id, patch_idx)] for the
    name [class_<class_id>_patch_<patch_idx>.tif], and the count
    returned.  The rasters are taken as opened; the function raises before
    its loop when the land cover cannot be opened. *)
Definition extract_patches_for_sensor (sensor : dataset)
           (patch_locations : gmap Z (list (Z * Z)))
           (window_size stride num_bands : Z)
  : Z * gmap (Z * Z) geotiff :=
  foldl (λ acc (item : Z * list (Z * Z)),
           let '(class_id, coords) := item in
           foldl (λ (acc' : Z * gmap (Z * Z) geotiff) (entry : Z * (Z * Z)),
                    let '(total_extracted, files) := acc' in
                    let '(patch_idx, (i, j)) := entry in
                    match sensor_patch sensor num_bands window_size stride i j with
                    | Some tif =>
                        (total_extracted + 1, <[(class_id, patch_idx) := tif]> files)
                    | None => acc'
                    end)
                 acc (enumerate coords))
        (0, ∅) (map_to_list patch_locations).

(** The two label files of one location, or [None] when the loop moves
    on without writing. *)
Definition label_patch (lc_filtered lc_unfiltered : array2)
           (gt : geotransform) (projection : string)
           (window_size stride i j : Z) : option (geotiff * geotiff) :=
  let x_offset := j * stride in
  let y_offset := i * stride in
  match ReadAsArray lc_filtered x_offset y_offset window_size window_size,
        ReadAsArray lc_unfiltered x_offset y_offset window_size window_size with
  | Some lc_filtered_patch, Some lc_unfiltered_patch =>
      if has_shape lc_filtered_patch window_size window_size then
        let gt' := patch_gt gt x_offset y_offset in
        Some ({| tif_bands := [astype_int16 lc_filtered_patch];
                 tif_gt := gt'; tif_projection := projection |},
              {| tif_bands := [astype_int16 lc_unfiltered_patch];
                 tif_gt := gt'; tif_projection := projection |})
      else None
  | _, _ => None
  end.

(** The files under [labels/filtered] and [labels/unfiltered].  The
    geotransform and projection are those of the filtered land cover. *)
Definition extract_label_patches (lc_filtered lc_unfiltered : dataset)
           (patch_locations : gmap Z (list (Z * Z)))
           (window_size stride : Z)
  : gmap (Z * Z) geotiff * gmap (Z * Z) geotiff :=
  let band1 (ds : dataset) := default [] (ds_bands ds !! 0%nat) in
  let gt := ds_gt lc_filtered in
  let projection := ds_projection lc_filtered in
  foldl (λ acc (item : Z * list (Z * Z)),
           let '(class_id, coords) := item in
           foldl (λ (acc' : gmap (Z * Z) geotiff * gmap (Z * Z) geotiff)
                    (entry : Z * (Z * Z)),
                    let '(filtered, unfiltered) := acc' in
                    let '(patch_idx, (i, j)) := entry in
                    match label_patch (band1 lc_filtered) (band1 lc_unfiltered)
                            gt projection window_size stride i j with
                    | Some (f, u) =>
                        (<[(class_id, patch_idx) := f]> filtered,
                         <[(class_id, patch_idx) := u]> unfiltered)
                    | None => acc'
                    end)
                 acc (enumerate coords))
        (∅, ∅) (map_to_list patch_locations).

Record split_output : Type :=
  { sensor_files : gmap string (gmap (Z * Z) geotiff);
    sensor_extracted_counts : gmap string Z;
    label_files : option (gmap (Z * Z) geotiff * gmap (Z * Z) geotiff) }.

(** One split: every sensor in turn, then the common labels when at least
    one sensor was processed. *)
Definition extract_patches_multisensor (sensors : gmap string dataset)
           (lc_filtered lc_unfiltered : dataset)
           (patch_locations : gmap Z (list (Z * Z)))
           (window_size stride : Z) : split_output :=
  let per_sensor :=
    (λ sensor : dataset,
       extract_patches_for_sensor sensor patch_locations window_size stride
                                  (RasterCount sensor)) <$> sensors in
  let counts := fst <$> per_sensor in
  {| sensor_files := snd <$> per_sensor;
     sensor_extracted_counts := counts;
     label_files :=
       if decide (counts = ∅) then None
       else Some (extract_label_patches lc_filtered lc_unfiltered
                                        patch_locations window_size stride) |}.

Definition gt_coeffs (gt : geotransform) : list float :=
  let '(g0, g1, g2, g3, g4, g5) := gt in [g0; g1; g2; g3; g4; g5].

(** [all(abs(gt[i] - ref_gt[i]) < 0.001 for i in range(6))]. *)
Definition gt_match (gt ref_gt : geotransform) : bool :=
  forallb (λ p : float * float,
             PrimFloat.ltb (PrimFloat.abs (PrimFloat.sub p.1 p.2)) 0.001%float)
          (zip (gt_coeffs gt) (gt_coeffs ref_gt)).

(** The sensors that pass the verification (a size mismatch drops the
    sensor), and those that only draw the geotransform warning. *)
Definition verify_sensor_dimensions (sensors : gmap string dataset)
           (reference : dataset) : gmap string dataset * list string :=
  let ref_rows := RasterYSize reference in
  let ref_cols := RasterXSize reference in
  let sensor_info :=
    filter (λ kv : string * dataset,
              RasterYSize kv.2 = ref_rows ∧ RasterXSize kv.2 = ref_cols)
           sensors in
  let warned :=
    (map_to_list
       (filter (λ kv : string * dataset,
                  gt_match (ds_gt kv.2) (ds_gt reference) = false)
               sensor_info)).*1 in
  (sensor_info, warned).

(** The window of a band at a patch location. *)
Definition window_at (band : array2) (window_size stride i j : Z) : array2 :=
  slice2 band (i * stride) (i * stride + window_size)
         (j * stride) (j * stride + window_size).

(** The statement that, in one split, every image patch of every sensor has
    the geotransform origin of the label patches of the same name. *)
Definition origins_identical (sensors : gmap string dataset)
           (lc_filtered lc_unfiltered : dataset)
           (patch_locations : gmap Z (list (Z * Z)))
           (window_size stride : Z) : Prop :=
  let out := extract_patches_multisensor sensors lc_filtered lc_unfiltered
                                         patch_locations window_size stride in
  ∀ (name : string) (files filtered unfiltered : gmap (Z * Z) geotiff)
    (key : Z * Z) (img lab : geotiff),
    sensor_files out !! name = Some files → files !! key = Some img →
    label_files out = Some (filtered, unfiltered) →
    filtered !! key = Some lab ∨ unfiltered !! key = Some lab →
    origin (tif_gt img) = origin (tif_gt lab).

(** The four coefficients the origin of a patch is computed from. *)
Definition origin_coeffs (gt : geotransform) : float * float * float * float :=
  let '(g0, g1, _, g3, _, g5) := gt in (g0, g1, g3, g5).

(** A 2x2 land cover, and a sensor raster of the same size whose origin
    lies 2^-11 map units (below the 0.001 tolerance of the verification) to
    the east of it. *)
Definition lc_example : dataset :=
  {| ds_bands := [[[1; 2]; [3; 4]]];
     ds_gt := (0, 30, 0, 0, 0, -30)%float;
     ds_projection := "EPSG:3979" |}.

Definition shifted_sensor_example : dataset :=
  {| ds_bands := [[[10; 20]; [30; 40]]; [[50; 60]; [70; 80]]];
     ds_gt := (0x1p-11, 30, 0, 0, 0, -30)%float;
     ds_projection := "EPSG:3979" |}.

Definition aligned_sensor_example : dataset :=
  {| ds_bands := [[[10; 20]; [30; 40]]; [[50; 60]; [70; 80]]];
     ds_gt := (0, 30, 0, 0, 0, -30)%float;
     ds_projection := "EPSG:3979" |}.

End PatchExtraction.
Export PatchExtraction.

(** ** Band stacking *)

Module Stack.

(** The file system: the set of paths that exist. *)
Abbreviation fs := (gset string).

(** How a call into the raster library ends: with a value, with [None],
    or with an exception ([gdal.UseExceptions()] is on). *)
Inductive outcome (A : Type) : Type :=
| Done (a : A)
| Null
| Raise (msg : string).
Arguments Done {A} a.
Arguments Null {A}.
Arguments Raise {A} msg.

(** The raster library, as far as the stacking scripts call it.  Each
    call returns the file system it leaves behind. *)
Record gdal : Type :=
  { BuildVRT : fs → string → list string → fs * outcome unit;
    Translate : fs → string → string → fs * outcome unit;
(** [gdal.Open] on the stacked file, and the lines of the report
    printed from its metadata. *)
report : fs → string → outcome (list string) }.

Record sensor : Type :=
  { input_dir : string;
    output_dir : string;
    output_name : string;
    band_names : list string;
    file_prefix : string;
    expected_bands : nat;
    sensor_label : string;
    headline : string;
    band_order : string;
    success_headline : string }.

Definition nl : string := String (Ascii.ascii_of_nat 10) EmptyString.

(** [os.path.join] on the platform of the scripts. *)
Definition path_join (dir file : string) : string := dir +:+ "\" +:+ file.

Definition output_file (s : sensor) : string :=
  path_join (output_dir s) (output_name s).

Definition band_file_name (s : sensor) (band : string) : string :=
  file_prefix s +:+ band +:+ "_NAD83_StatsCan_CLIPPED.tif".

(** [str(l)] for a list of strings. *)
Definition py_list_repr (l : list string) : string :=
  "[" +:+ String.concat ", " ((λ b : string, "'" +:+ b +:+ "'") <$> l) +:+ "]".

Definition rule : string :=
  String.concat "" (replicate 70 "=").

(** The loop that looks for the clipped file of every band. *)
Definition collect_band_files (s : sensor) (files : fs)
  : list string * list string * list string :=
  foldl (λ (acc : list string * list string * list string) (band : string),
           let '(band_files, missing_bands, log) := acc in
           let input_file := path_join (input_dir s) (band_file_name s band) in
           if decide (input_file ∈ files) then
             (band_files ++ [input_file], missing_bands,
              log ++ ["✓ Found band " +:+ band +:+ ": " +:+ band_file_name s band])
           else
             (band_files, missing_bands ++ [band],
              log ++ ["✗ Missing band " +:+ band +:+ ": " +:+ band_file_name s band]))
        ([], [], []) (band_names s).

(** The stacking function of a sensor: the value returned, the file
    system afterwards and the lines printed. *)
Definition stack_bands (g : gdal) (s : sensor) (files : fs)
  : bool * fs * list string :=
  let banner :=
    [ rule; headline s; rule;
      "Input directory: " +:+ input_dir s;
      "Output file: " +:+ output_file s;
      "Bands to stack: " +:+ pretty (length (band_names s));
      band_order s; rule ] in
  let '(band_files, missing_bands, found_log) := collect_band_files s files in
  let log := banner ++ found_log in
  match missing_bands with
  | _ :: _ =>
      (false, files,
       log ++ [ nl +:+ "ERROR: Missing " +:+ pretty (length missing_bands)
                   +:+ " band(s): " +:+ py_list_repr missing_bands;
                "Please make sure all bands are clipped before stacking." ])
  | [] =>
      if negb (length band_files =? expected_bands s)%nat then
        (false, files,
         log ++ [ nl +:+ "ERROR: Expected " +:+ pretty (expected_bands s)
                     +:+ " bands, found " +:+ pretty (length band_files) ])
      else
        let log :=
          log ++ [ nl +:+ "All " +:+ pretty (length band_files) +:+ " "
                      +:+ sensor_label s +:+ " bands found. Starting stacking...";
                   nl +:+ "Step 1: Creating VRT (virtual mosaic)..." ] in
        let vrt_file := path_join (output_dir s) "temp_stack.vrt" in
        let failed (files' : fs) (log' : list string) (msg : string) :=
          (false, files', log' ++ [nl +:+ "✗ ERROR during stacking: " +:+ msg]) in
        match BuildVRT g files vrt_file band_files with
        | (files1, Raise msg) => failed files1 log msg
        | (files1, Null) => (false, files1, log ++ ["ERROR: Failed to create VRT"])
        | (files1, Done _) =>
            let log := log ++ ["Step 2: Converting VRT to stacked TIFF..."] in
            match Translate g files1 (output_file s) vrt_file with
            | (files2, Raise msg) => failed files2 log msg
            | (files2, Null) =>
                (false, files2, log ++ ["ERROR: Failed to create stacked TIFF"])
            | (files2, Done _) =>
                let files3 := files2 ∖ {[vrt_file]} in
                match report g files3 (output_file s) with
                | Raise msg => failed files3 log msg
                | Null =>
                    (false, files3, log ++ ["ERROR: Cannot open created stacked file"])
                | Done lines =>
                    (true, files3,
                     log ++ [nl +:+ success_headline s] ++ lines)
                end
            end
        end
  end.

Definition landsat_bands : list string :=
  ["SR_B2"; "SR_B3"; "SR_B4"; "SR_B5"; "SR_B6"; "SR_B7"].

Definition landsat8 : sensor :=
  {| input_dir := "D:\Hackathon15_AlphaEarth\Alberta_L8_2020\Alberta_2020_NAD83_StatsCan_L8_30m_Mosaics_EPSG_3979_Clipped";
     output_dir := "D:\Hackathon15_AlphaEarth\Alberta_L8_2020\Alberta_2020_NAD83_StatsCan_L8_30m_Mosaics_EPSG_3979_Clipped_Stack";
     output_name := "Alberta_2020_L8_Stacked_6Bands.tif";
     band_names := landsat_bands;
     file_prefix := "Alberta_2020_L8_";
     expected_bands := 6;
     sensor_label := "Landsat-8";
     headline := "STACKING LANDSAT-8 BANDS";
     band_order := "Band order: Blue, Green, Red, NIR, SWIR1, SWIR2";
     success_headline := "✓ SUCCESS: Landsat-8 bands stacked!" |}.

Definition sentinel_bands : list string :=
  ["B2"; "B3"; "B4"; "B8"; "B5"; "B6"; "B7"; "B8A"; "B11"; "B12"].

Definition sentinel2 : sensor :=
  {| input_dir := "D:\Hackathon15_AlphaEarth\Alberta_Sentinel2_2020\Alberta_2020_NAD83_StatsCan_Sentinel2_30m_Mosaics_EPSG_3979_Clipped";
     output_dir := "D:\Hackathon15_AlphaEarth\Alberta_Sentinel2_2020\Alberta_2020_NAD83_StatsCan_Sentinel2_30m_Mosaics_EPSG_3979_Clipped_Stack";
     output_name := "Alberta_2020_S2_Stacked_10Bands.tif";
     band_names := sentinel_bands;
     file_prefix := "Alberta_2020_S2_";
     expected_bands := 10;
     sensor_label := "Sentinel-2";
     headline := "STACKING SENTINEL-2 BANDS - IDENTICAL TO LANDSAT-8";
     band_order := "Band order: Blue, Green, Red, NIR, Red Edge 1-4,  SWIR1, SWIR2";
     success_headline := "✓ SUCCESS: Sentinel-2 bands stacked!" |}.

Definition stack_landsat_bands (g : gdal) (files : fs) : bool * fs * list string :=
  stack_bands g landsat8 files.

Definition stack_sentinel2_bands (g : gdal) (files : fs)
  : bool * fs * list string :=
  stack_bands g sentinel2 files.

(** The bands of a sensor whose clipped file is not there. *)
Definition missing_in (s : sensor) (files : fs) : list string :=
  filter (λ band : string,
            path_join (input_dir s) (band_file_name s band) ∉ files)
         (band_names s).

(** A run that stops at the missing-band check: it returns [False], leaves
    the file system as it found it, and its last two lines are the error
    that lists the missing bands, after the banner and one line for each of
    the [checked] bands. *)
Definition aborted_with (result : bool * fs * list string) (files : fs)
           (missing : list string) (checked : nat) : Prop :=
  ∃ log : list string,
    result
    = (false, files,
       log ++ [ nl +:+ "ERROR: Missing " +:+ pretty (length missing)
                   +:+ " band(s): " +:+ py_list_repr missing;
                "Please make sure all bands are clipped before stacking." ])
    ∧ length log = (8 + checked)%nat.

(** [d[k] = v] on a dictionary kept as the list of its items in insertion
    order: a key already there keeps its place. *)
Fixpoint dict_set {V} (d : list (string * V)) (k : string) (v : V)
  : list (string * V) :=
  match d with
  | [] => [(k, v)]
  | (k', v') :: d' =>
      if decide (k' = k) then (k, v) :: d' else (k', v') :: dict_set d' k v
  end.

(** The value returned by the alignment check of a sensor.  [open_sizes]
    is [gdal.Open] on a band file as far as the check reads its result:
    the width and the height of the raster, [Null] for a dataset that
    counts as false, an exception otherwise (the function does not catch
    it). *)
Definition verify_band_alignment (open_sizes : string → outcome (Z * Z))
           (s : sensor) (files : fs) : outcome bool :=
  let band_info :=
    foldl (λ (acc : outcome (list (string * (Z * Z)))) (band : string),
             match acc with
             | Done info =>
                 let input_file :=
                   path_join (input_dir s) (band_file_name s band) in
                 if decide (input_file ∈ files) then
                   match open_sizes input_file with
                   | Done (width, height) =>
                       Done (dict_set info band (width, height))
                   | Null => Done info
                   | Raise msg => Raise msg
                   end
                 else Done info
             | _ => acc
             end)
          (Done []) (band_names s) in
  match band_info with
  | Done [] => Done false
  | Done ((first_band, first_info) :: rest) =>
      Done (foldl (λ (consistent : bool) (item : string * (Z * Z)),
                     let '(band, info) := item in
                     if decide (band = first_band) then consistent
                     else
                       let consistent :=
                         if negb (info.1 =? first_info.1) then false
                         else consistent in
                       if negb (info.2 =? first_info.2) then false
                       else consistent)
                  true ((first_band, first_info) :: rest))
  | Null => Null
  | Raise msg => Raise msg
  end.

End Stack.
Export Stack.

(** ** The scan of the land cover and the first steps of [main] *)

Module Pipeline.

(** The codes of the original land cover, 0 (background) left out. *)
Definition scan_original_classes (src : array2) (batch_size : Z) : list Z :=
  let rows := nrows src in
  let cols := ncols src in
  let num_batches_y := ceil_div rows batch_size in
  let num_batches_x := ceil_div cols batch_size in
  let classes : gset Z :=
    foldl (λ acc batch_y,
             foldl (λ (acc' : gset Z) batch_x,
                      let y_start := batch_y * batch_size in
                      let y_end := Z.min ((batch_y + 1) * batch_size) rows in
                      let x_start := batch_x * batch_size in
                      let x_end := Z.min ((batch_x + 1) * batch_size) cols in
                      match ReadAsArray src x_start y_start
                              (x_end - x_start) (y_end - y_start) with
                      | None => acc'
                      | Some batch_array =>
                          let batch_classes : gset Z :=
                            list_to_set (concat batch_array) in
                          acc' ∪ batch_classes
                      end)
                   acc (range 0 num_batches_x))
          ∅ (range 0 num_batches_y) in
  merge_sort Z.le (filter (λ c, c ≠ 0) (elements classes)).

(** Steps 1 to 4 of [main] in an output directory that holds no raster
    yet: the label mapping built from the scan, the raster written as
    [LC_remapped.tif], the raster written as [LC_filtered.tif], and the
    classes the abundance step returns. *)
Definition main_label_mapping (landcover : array2) (batch_size : Z)
  : label_mapping :=
  create_alberta_label_mapping (scan_original_classes landcover batch_size).

Definition LC_remapped (landcover : array2) (batch_size : Z) : array2 :=
  remap_ground_truth landcover
    (original_to_new (main_label_mapping landcover batch_size)).

Definition LC_filtered (landcover : array2) (min_homogeneity : float)
           (batch_size : Z) : array2 :=
  apply_strict_majority_filter_batched (LC_remapped landcover batch_size)
                                       min_homogeneity batch_size.

Definition main_classes (landcover : array2) (min_homogeneity : float)
           (batch_size : Z) : list Z :=
  scan_classes (LC_filtered landcover min_homogeneity batch_size) batch_size.

End Pipeline.
Export Pipeline.

(** ** Notions used to state the properties *)

Module Vocabulary.

(** The number of elements of [xs] that satisfy [p]. *)
Fixpoint hits {A} (p : A → bool) (xs : list A) : Z :=
  match xs with
  | [] => 0
  | x :: xs' => (if p x then 1 else 0) + hits p xs'
  end.

(** The number of pairs of [ys × xs] that satisfy [p]. *)
Fixpoint hits2 {A B} (p : A → B → bool) (ys : list A) (xs : list B) : Z :=
  match ys with
  | [] => 0
  | y :: ys' => hits (p y) xs + hits2 p ys' xs
  end.

(** A two-class checkerboard: [c1] where row plus column is even, [c2]
    elsewhere. *)
Definition checkerboard (rows cols c1 c2 : Z) : array2 :=
  (λ y, (λ x, if Z.even (y + x) then c1 else c2) <$> range 0 cols)
    <$> range 0 rows.

(** The number of cells of the edge-clipped window of a pixel. *)
Definition window_cells (rows cols i j : Z) : Z :=
  Z.max 0 (Z.min rows (i + 4 + 1) - Z.max 0 (i - 4))
  * Z.max 0 (Z.min cols (j + 4 + 1) - Z.max 0 (j - 4)).

(** An output band that has the shape of the source. *)
Definition same_shape_as (src out : array2) : Prop :=
  rect out ∧ nrows out = nrows src ∧ ncols out = ncols src.

(** The pixel [(i, j)] lies in the core of batch [(batch_y, batch_x)] of a
    raster of [rows] by [cols] pixels cut into batches of side [bs]. *)
Definition in_core_of (rows cols bs batch_y batch_x i j : Z) : Prop :=
  batch_y * bs ≤ i < Z.min ((batch_y + 1) * bs) rows
  ∧ batch_x * bs ≤ j < Z.min ((batch_x + 1) * bs) cols.

(** What batch [(batch_y, batch_x)] of the batched filter writes at a pixel
    of its core: the filter applied to the array read with overlap, at the
    pixel's place in that array. *)
Definition batch_value_of (src : array2) (mh : float) (bs ov : Z)
           (batch_y batch_x i j : Z) : Z :=
  let rows := nrows src in
  let cols := ncols src in
  let ysr := Z.max 0 (batch_y * bs - ov) in
  let yer := Z.min rows (Z.min ((batch_y + 1) * bs) rows + ov) in
  let xsr := Z.max 0 (batch_x * bs - ov) in
  let xer := Z.min cols (Z.min ((batch_x + 1) * bs) cols + ov) in
  filter_pixel (slice2 src ysr yer xsr xer) (yer - ysr) (xer - xsr)
               (kernel_size `div` 2) (min_required_of mh) (i - ysr) (j - xsr).

(** Two arrays with rows of the same lengths, as the input of the remapping
    and its output buffer are. *)
Definition same_rows (data acc : array2) : Prop :=
  Forall2 (λ r r' : list Z, length r = length r') data acc.

(** The check that the three sizes computed for [n] selected patches with
    the default ratios cut the list in order: no size is negative and the
    first two do not exceed [n]. *)
Definition sizes_ok (n : Z) : bool :=
  let '(n_train, n_val, n_test) := split_counts n 0.7%float 0.15%float in
  (0 <=? n_train) && (0 <=? n_val) && (n_train + n_val <=? n)
  && (n_test =? n - n_train - n_val).

(** The entry of [new_class_definitions] made for an original code: the
    name and colour of the class table, or [Class_<code>] in black for a code
    the table does not list. *)
Definition definition_for (original_class : Z) : new_class_definition :=
  match CLASS_DEFINITIONS !! original_class with
  | Some d => {| new_name := name d; new_color := color d;
                 original_id := original_class |}
  | None => {| new_name := "Class_" +:+ pretty original_class;
               new_color := (0, 0, 0); original_id := original_class |}
  end.

(** The value [v] occurs in the array. *)
Definition occurs_in (a : array2) (v : Z) : Prop :=
  ∃ i j, 0 ≤ i < nrows a ∧ 0 ≤ j < ncols a ∧ get a i j = v.

(** The candidate made of the cell [(i, j)] of an abundance map, if any:
    the count must be positive and the window must lie inside the land
    cover. *)
Definition candidate_at (ds : array2)
           (lc_rows lc_cols window_size stride i j : Z) : list candidate :=
  if (0 <? get ds i j) && (i * stride + window_size <=? lc_rows)
     && (j * stride + window_size <=? lc_cols)
  then [(get ds i j, i, j)] else [].

(** The candidates of the rows [a .. b-1] of an abundance map, row by row,
    and those of the whole map read in one piece. *)
Definition candidates_of_rows (ds : array2)
           (lc_rows lc_cols window_size stride a b : Z) : list candidate :=
  i ← range a b;
  j ← range 0 (ncols ds);
  candidate_at ds lc_rows lc_cols window_size stride i j.

Definition row_major_candidates (ds : array2)
           (lc_rows lc_cols window_size stride : Z) : list candidate :=
  candidates_of_rows ds lc_rows lc_cols window_size stride 0 (nrows ds).





(** The order the candidates are sorted in: [p] comes before [q] only if
    its abundance is not smaller. *)
Definition abundance_ge (p q : candidate) : Prop :=
  abundance_of q ≤ abundance_of p.

(** The check that the sizes computed for [n] selected patches with the
    default ratios leave no split empty. *)
Definition sizes_positive (n : Z) : bool :=
  let '(n_train, n_val, n_test) := split_counts n 0.7%float 0.15%float in
  (1 <=? n_train) && (1 <=? n_val) && (1 <=? n_test).

End Vocabulary.
Export Vocabulary.

(** * Properties *)

(** Bounds on concrete indices, by evaluation. *)
Ltac concrete_range :=
  vm_compute; repeat split; first [discriminate | reflexivity].

(** ** Ranges and counting loops *)

Section Ranges.

Lemma range_lookup a b (k : nat) :
  Z.of_nat k < b - a → range a b !! k = Some (a + Z.of_nat k).
Proof. intros. unfold range. by apply lookup_seqZ_lt. Qed.

Lemma range_length a b : Z.of_nat (length (range a b)) = Z.max 0 (b - a).
Proof. unfold range. rewrite length_seqZ. lia. Qed.

Lemma range_elem a b k : k ∈ range a b ↔ a ≤ k < b.
Proof. unfold range. rewrite elem_of_seqZ. lia. Qed.

Lemma range_shift d a b : Z.add d <$> range a b = range (d + a) (d + b).
Proof.
  unfold range. rewrite fmap_add_seqZ. f_equal. lia.
Qed.

Lemma range_split a m b : a ≤ m ≤ b → range a b = range a m ++ range m b.
Proof.
  intros. unfold range.
  replace (b - a) with ((m - a) + (b - m)) by lia.
  rewrite seqZ_app by lia. do 2 f_equal. lia.
Qed.

Lemma range_empty a b : b ≤ a → range a b = [].
Proof. intros. unfold range. apply seqZ_nil. lia. Qed.

Lemma range_cons a b : a < b → range a b = a :: range (a + 1) b.
Proof.
  intros. unfold range. rewrite seqZ_cons by lia.
  f_equal. f_equal; lia.
Qed.

End Ranges.

Section CountingFacts.

Context {A : Type}.
Implicit Types (p q : A → bool) (xs : list A).

Lemma foldl_hits p xs c0 :
  foldl (λ c x, if p x then c + 1 else c) c0 xs = c0 + hits p xs.
Proof.
  revert c0. induction xs as [|x xs IH]; intros c0; simpl; [lia|].
  rewrite IH. destruct (p x); lia.
Qed.

Lemma hits_bounds p xs : 0 ≤ hits p xs ≤ Z.of_nat (length xs).
Proof.
  induction xs as [|x xs IH]; simpl; [lia|]. destruct (p x); lia.
Qed.

Lemma hits_ext p q xs : (∀ x, x ∈ xs → p x = q x) → hits p xs = hits q xs.
Proof.
  induction xs as [|x xs IH]; intros H; simpl; [done|].
  rewrite (H x) by left. rewrite IH; [done|]. intros y Hy. apply H. by right.
Qed.

Lemma hits_all p xs :
  (∀ x, x ∈ xs → p x = true) → hits p xs = Z.of_nat (length xs).
Proof.
  induction xs as [|x xs IH]; intros H; simpl; [done|].
  rewrite (H x) by left. rewrite IH; [lia|]. intros y Hy. apply H. by right.
Qed.

Lemma hits_none p xs : (∀ x, x ∈ xs → p x = false) → hits p xs = 0.
Proof.
  induction xs as [|x xs IH]; intros H; simpl; [done|].
  rewrite (H x) by left. rewrite IH; [lia|]. intros y Hy. apply H. by right.
Qed.


Lemma hits_fmap {B} (f : B → A) p (l : list B) :
  hits p (f <$> l) = hits (λ b, p (f b)) l.
Proof. induction l as [|b l IH]; csimpl; [done|]. by rewrite IH. Qed.

Lemma hits_mono p q xs :
  (∀ x, x ∈ xs → p x = true → q x = true) → hits p xs ≤ hits q xs.
Proof.
  induction xs as [|x xs IH]; intros H; simpl; [lia|].
  assert (hits p xs ≤ hits q xs) by (apply IH; intros; apply H; [by right|done]).
  destruct (p x) eqn:E; [rewrite (H x) by (done || by left); lia|].
  destruct (q x); lia.
Qed.

End CountingFacts.

Section Counting2Facts.

Context {A B : Type}.
Implicit Types (p q : A → B → bool) (ys : list A) (xs : list B).

Lemma foldl_hits2 p ys xs c0 :
  foldl (λ c y, foldl (λ c' x, if p y x then c' + 1 else c') c xs) c0 ys
  = c0 + hits2 p ys xs.
Proof.
  revert c0. induction ys as [|y ys IH]; intros c0; simpl; [lia|].
  rewrite IH, foldl_hits. lia.
Qed.

Lemma hits2_bounds p ys xs :
  0 ≤ hits2 p ys xs ≤ Z.of_nat (length ys) * Z.of_nat (length xs).
Proof.
  induction ys as [|y ys IH]; simpl; [lia|].
  pose proof (hits_bounds (p y) xs). lia.
Qed.

Lemma hits2_ext p q ys xs :
  (∀ y x, y ∈ ys → x ∈ xs → p y x = q y x) → hits2 p ys xs = hits2 q ys xs.
Proof.
  induction ys as [|y ys IH]; intros H; simpl; [done|].
  rewrite IH by (intros; apply H; [by right|done]).
  f_equal. apply hits_ext. intros. apply H; [by left|done].
Qed.

Lemma hits2_all p ys xs :
  (∀ y x, y ∈ ys → x ∈ xs → p y x = true) →
  hits2 p ys xs = Z.of_nat (length ys) * Z.of_nat (length xs).
Proof.
  induction ys as [|y ys IH]; intros H; simpl; [lia|].
  rewrite IH by (intros; apply H; [by right|done]).
  rewrite hits_all by (intros; apply H; [by left|done]). lia.
Qed.


Lemma hits2_fmap {A' B'} (f : A' → A) (g : B' → B) p (l : list A') (k : list B') :
  hits2 p (f <$> l) (g <$> k) = hits2 (λ a b, p (f a) (g b)) l k.
Proof.
  induction l as [|a l IH]; csimpl; [done|]. by rewrite IH, hits_fmap.
Qed.

Lemma hits2_row_bound p ys xs m :
  (∀ y, y ∈ ys → hits (p y) xs ≤ m) →
  hits2 p ys xs ≤ Z.of_nat (length ys) * m.
Proof.
  induction ys as [|y ys IH]; intros H; simpl; [lia|].
  pose proof (H y ltac:(by left)).
  assert (hits2 p ys xs ≤ Z.of_nat (length ys) * m)
    by (apply IH; intros; apply H; by right).
  lia.
Qed.

End Counting2Facts.

(** ** Arrays: shapes and cell access *)

Section ArrayFacts.

Implicit Types (a b : array2) (i j : Z).

Lemma rect_row a (k : nat) (r : list Z) :
  rect a → a !! k = Some r → Z.of_nat (length r) = ncols a.
Proof. intros H Hk. by apply (Forall_lookup_1 _ _ _ _ H Hk). Qed.

Lemma row_exists a i :
  0 ≤ i < nrows a → ∃ r, a !! Z.to_nat i = Some r.
Proof.
  intros Hi. apply lookup_lt_is_Some. unfold nrows in Hi. lia.
Qed.

Lemma cell_exists (r : list Z) j :
  0 ≤ j < Z.of_nat (length r) → ∃ v, r !! Z.to_nat j = Some v.
Proof. intros Hj. apply lookup_lt_is_Some. lia. Qed.

Lemma get_row a i j (r : list Z) :
  a !! Z.to_nat i = Some r → get a i j = default 0 (r !! Z.to_nat j).
Proof. intros H. unfold get. by rewrite H. Qed.

(** Two arrays of the same shape with the same cells are equal. *)
Lemma array_ext a b :
  rect a → rect b → nrows a = nrows b → ncols a = ncols b →
  (∀ i j, 0 ≤ i < nrows a → 0 ≤ j < ncols a → get a i j = get b i j) →
  a = b.
Proof.
  intros Ha Hb Hr Hc Hget. apply list_eq. intros k.
  destruct (a !! k) as [ra|] eqn:Ea.
  - assert (Hk : (k < length a)%nat) by (by eapply lookup_lt_Some).
    destruct (b !! k) as [rb|] eqn:Eb.
    2:{ apply lookup_ge_None in Eb. unfold nrows in Hr. lia. }
    f_equal. apply list_eq. intros m.
    pose proof (rect_row _ _ _ Ha Ea) as La.
    pose proof (rect_row _ _ _ Hb Eb) as Lb.
    destruct (decide (m < length ra)%nat) as [Hm|Hm].
    + specialize (Hget (Z.of_nat k) (Z.of_nat m)).
      unfold get in Hget. rewrite !Nat2Z.id, Ea, Eb in Hget. simpl in Hget.
      destruct (lookup_lt_is_Some_2 ra m Hm) as [va Eva].
      destruct (lookup_lt_is_Some_2 rb m ltac:(lia)) as [vb Evb].
      rewrite Eva, Evb in Hget |- *. simpl in Hget. f_equal.
      apply Hget; unfold nrows; lia.
    + rewrite (proj2 (lookup_ge_None ra m)) by lia.
      by rewrite (proj2 (lookup_ge_None rb m)) by lia.
  - apply lookup_ge_None in Ea. symmetry. apply lookup_ge_None.
    unfold nrows in Hr. lia.
Qed.

(** *** Tables built by two nested loops *)

Lemma get_table (f : Z → Z → Z) r0 r1 c0 c1 i j :
  0 ≤ i < r1 - r0 → 0 ≤ j < c1 - c0 →
  get ((λ y, (λ x, f y x) <$> range c0 c1) <$> range r0 r1) i j
  = f (r0 + i) (c0 + j).
Proof.
  intros Hi Hj. unfold get.
  rewrite list_lookup_fmap, range_lookup by lia. simpl.
  rewrite list_lookup_fmap, range_lookup by lia. simpl.
  by rewrite !Z2Nat.id by lia.
Qed.

Lemma nrows_table (f : Z → Z → Z) r0 r1 c0 c1 :
  nrows ((λ y, (λ x, f y x) <$> range c0 c1) <$> range r0 r1) = Z.max 0 (r1 - r0).
Proof. unfold nrows. by rewrite length_fmap, range_length. Qed.

Lemma ncols_table (f : Z → Z → Z) r0 r1 c0 c1 :
  r0 < r1 →
  ncols ((λ y, (λ x, f y x) <$> range c0 c1) <$> range r0 r1) = Z.max 0 (c1 - c0).
Proof.
  intros H. rewrite (range_cons r0 r1) by done. simpl.
  by rewrite length_fmap, range_length.
Qed.

Lemma rect_table (f : Z → Z → Z) r0 r1 c0 c1 :
  rect ((λ y, (λ x, f y x) <$> range c0 c1) <$> range r0 r1).
Proof.
  destruct (decide (r0 < r1)) as [H|H].
  - unfold rect. rewrite ncols_table by done.
    apply Forall_fmap, Forall_forall. intros y _. simpl.
    by rewrite length_fmap, range_length.
  - rewrite (range_empty r0 r1) by lia. constructor.
Qed.

(** *** Constant arrays *)

Lemma nrows_full rows cols v : nrows (full rows cols v) = Z.max 0 rows.
Proof. unfold nrows, full. rewrite length_replicate. lia. Qed.

Lemma ncols_full rows cols v :
  0 < rows → ncols (full rows cols v) = Z.max 0 cols.
Proof.
  intros H. unfold ncols, full.
  destruct (Z.to_nat rows) eqn:E; [lia|]. simpl.
  rewrite length_replicate. lia.
Qed.

Lemma rect_full rows cols v : rect (full rows cols v).
Proof.
  unfold rect. destruct (decide (0 < rows)) as [H|H].
  - rewrite ncols_full by done. unfold full.
    apply Forall_replicate. rewrite length_replicate. lia.
  - unfold full. replace (Z.to_nat rows) with 0%nat by lia. constructor.
Qed.

Lemma get_full rows cols v i j :
  0 ≤ i < rows → 0 ≤ j < cols → get (full rows cols v) i j = v.
Proof.
  intros Hi Hj. unfold get, full.
  rewrite lookup_replicate_2 by lia. simpl.
  by rewrite lookup_replicate_2 by lia.
Qed.

(** *** Slices and windows *)

Lemma get_slice2 a y0 y1 x0 x1 i j :
  0 ≤ y0 → 0 ≤ x0 → 0 ≤ i < y1 - y0 → 0 ≤ j < x1 - x0 →
  get (slice2 a y0 y1 x0 x1) i j = get a (y0 + i) (x0 + j).
Proof.
  intros Hy Hx Hi Hj. unfold get, slice2.
  rewrite list_lookup_fmap, lookup_take_lt, lookup_drop by lia.
  replace (Z.to_nat y0 + Z.to_nat i)%nat with (Z.to_nat (y0 + i)) by lia.
  destruct (a !! Z.to_nat (y0 + i)) as [r|]; simpl; [|done].
  rewrite lookup_take_lt, lookup_drop by lia.
  by replace (Z.to_nat x0 + Z.to_nat j)%nat with (Z.to_nat (x0 + j)) by lia.
Qed.

Lemma nrows_slice2 a y0 y1 x0 x1 :
  0 ≤ y0 → y0 ≤ y1 ≤ nrows a → nrows (slice2 a y0 y1 x0 x1) = y1 - y0.
Proof.
  intros Hy Hb. unfold nrows in *. unfold slice2.
  rewrite length_fmap, length_take, length_drop. lia.
Qed.

Lemma rows_slice2 a y0 y1 x0 x1 (r : list Z) :
  rect a → 0 ≤ x0 → x0 ≤ x1 ≤ ncols a →
  r ∈ slice2 a y0 y1 x0 x1 → Z.of_nat (length r) = x1 - x0.
Proof.
  intros Ha Hx Hb Hr. unfold slice2 in Hr.
  apply list_elem_of_fmap in Hr as (r' & -> & Hr').
  apply elem_of_take in Hr' as (k & Hk & _).
  rewrite lookup_drop in Hk.
  pose proof (rect_row _ _ _ Ha Hk).
  rewrite length_take, length_drop. lia.
Qed.

Lemma ncols_slice2 a y0 y1 x0 x1 :
  rect a → 0 ≤ y0 → y0 < y1 ≤ nrows a → 0 ≤ x0 → x0 ≤ x1 ≤ ncols a →
  ncols (slice2 a y0 y1 x0 x1) = x1 - x0.
Proof.
  intros Ha Hy Hb Hx Hc.
  pose proof (nrows_slice2 a y0 y1 x0 x1 Hy ltac:(lia)) as Hn.
  destruct (slice2 a y0 y1 x0 x1) as [|r s] eqn:E.
  - unfold nrows in Hn. simpl in Hn. lia.
  - simpl. apply (rows_slice2 a y0 y1 x0 x1); [done..|]. rewrite E. by left.
Qed.

Lemma rect_slice2 a y0 y1 x0 x1 :
  rect a → 0 ≤ x0 → x0 ≤ x1 ≤ ncols a → rect (slice2 a y0 y1 x0 x1).
Proof.
  intros Ha Hx Hc. unfold rect. apply Forall_forall. intros r Hr.
  rewrite (rows_slice2 a y0 y1 x0 x1 r) by done.
  destruct (slice2 a y0 y1 x0 x1) as [|r' s] eqn:E; [by inversion Hr|].
  simpl. symmetry. apply (rows_slice2 a y0 y1 x0 x1); [done..|].
  rewrite E. by left.
Qed.

Lemma ReadAsArray_Some band xoff yoff xsize ysize :
  0 ≤ xoff → 0 ≤ yoff → 0 ≤ xsize → 0 ≤ ysize →
  xoff + xsize ≤ ncols band → yoff + ysize ≤ nrows band →
  ReadAsArray band xoff yoff xsize ysize
  = Some (slice2 band yoff (yoff + ysize) xoff (xoff + xsize)).
Proof.
  intros. unfold ReadAsArray.
  repeat (rewrite (proj2 (Z.leb_le _ _)) by lia). done.
Qed.

(** *** Block writes *)

Lemma length_WriteArray band block xoff yoff :
  length (WriteArray band block xoff yoff) = length band.
Proof. unfold WriteArray. by rewrite length_imap. Qed.

Lemma nrows_WriteArray band block xoff yoff :
  nrows (WriteArray band block xoff yoff) = nrows band.
Proof. unfold nrows. by rewrite length_WriteArray. Qed.

Lemma row_length_WriteArray band block xoff yoff (k : nat) (r : list Z) :
  WriteArray band block xoff yoff !! k = Some r →
  ∃ r0, band !! k = Some r0 ∧ length r = length r0.
Proof.
  unfold WriteArray. rewrite list_lookup_imap.
  destruct (band !! k) as [r0|]; simpl; [|done].
  intros [= <-]. exists r0. split; [done|].
  destruct (_ && _); [by rewrite length_imap|done].
Qed.

Lemma ncols_WriteArray band block xoff yoff :
  ncols (WriteArray band block xoff yoff) = ncols band.
Proof.
  destruct band as [|r0 band]; [done|].
  destruct (WriteArray (r0 :: band) block xoff yoff) as [|r s] eqn:E.
  - apply (f_equal length) in E. rewrite length_WriteArray in E. done.
  - assert (H : WriteArray (r0 :: band) block xoff yoff !! 0%nat = Some r)
      by (by rewrite E).
    apply row_length_WriteArray in H as (r' & [= <-] & Hl). simpl. lia.
Qed.

Lemma rect_WriteArray band block xoff yoff :
  rect band → rect (WriteArray band block xoff yoff).
Proof.
  intros Hb. unfold rect. rewrite ncols_WriteArray.
  apply Forall_lookup. intros k r Hk.
  apply row_length_WriteArray in Hk as (r0 & Hr0 & Hl).
  rewrite Hl. by apply (rect_row band k).
Qed.

Lemma get_WriteArray band block xoff yoff i j :
  rect band → 0 ≤ i < nrows band → 0 ≤ j < ncols band →
  get (WriteArray band block xoff yoff) i j
  = if (yoff <=? i) && (i <? yoff + nrows block)
       && (xoff <=? j) && (j <? xoff + ncols block)
    then get block (i - yoff) (j - xoff) else get band i j.
Proof.
  intros Hb Hi Hj.
  destruct (row_exists band i Hi) as [r Hr].
  pose proof (rect_row _ _ _ Hb Hr) as Hl.
  destruct (cell_exists r j ltac:(lia)) as [v Hv].
  unfold get at 1 3. unfold WriteArray.
  rewrite list_lookup_imap, Hr. simpl. rewrite Z2Nat.id by lia.
  destruct ((yoff <=? i) && (i <? yoff + nrows block)); simpl.
  - rewrite list_lookup_imap, Hv. simpl. rewrite Z2Nat.id by lia.
    by destruct ((xoff <=? j) && (j <? xoff + ncols block)).
  - by rewrite Hv.
Qed.

End ArrayFacts.

(** ** The homogeneity filter on one array *)

Section FilterFacts.

Implicit Types (a : array2) (i j : Z) (mh : float).

Lemma nrows_nonneg a : 0 ≤ nrows a.
Proof. unfold nrows. lia. Qed.

Lemma ncols_nonneg a : 0 ≤ ncols a.
Proof. unfold ncols. destruct a; lia. Qed.

Lemma ncols_empty a : nrows a = 0 → ncols a = 0.
Proof. destruct a; [done|]. unfold nrows. simpl. lia. Qed.

Lemma nrows_filter a mh :
  nrows (apply_strict_majority_filter_numba a mh) = nrows a.
Proof.
  unfold apply_strict_majority_filter_numba.
  rewrite (nrows_table (λ i j, filter_pixel a _ _ _ _ i j)).
  pose proof (nrows_nonneg a). lia.
Qed.

Lemma ncols_filter a mh :
  ncols (apply_strict_majority_filter_numba a mh) = ncols a.
Proof.
  unfold apply_strict_majority_filter_numba.
  destruct (decide (0 < nrows a)) as [H|H].
  - rewrite (ncols_table (λ i j, filter_pixel a _ _ _ _ i j)) by lia.
    pose proof (ncols_nonneg a). lia.
  - pose proof (nrows_nonneg a).
    rewrite (range_empty 0 (nrows a)) by lia.
    rewrite (ncols_empty a) by lia. done.
Qed.

Lemma rect_filter a mh : rect (apply_strict_majority_filter_numba a mh).
Proof.
  unfold apply_strict_majority_filter_numba.
  apply (rect_table (λ i j, filter_pixel a _ _ _ _ i j)).
Qed.

Lemma get_filter a mh i j :
  0 ≤ i < nrows a → 0 ≤ j < ncols a →
  get (apply_strict_majority_filter_numba a mh) i j
  = filter_pixel a (nrows a) (ncols a) (kernel_size `div` 2)
                 (min_required_of mh) i j.
Proof.
  intros Hi Hj. unfold apply_strict_majority_filter_numba.
  rewrite (get_table (λ i j, filter_pixel a _ _ _ _ i j)) by lia.
  f_equal; lia.
Qed.

Lemma count_window_hits2 a v y0 y1 x0 x1 :
  count_window a v y0 y1 x0 x1
  = hits2 (λ y x, (get a y x =? v) && negb (get a y x =? -99))
          (range y0 y1) (range x0 x1).
Proof. unfold count_window. by rewrite foldl_hits2. Qed.

Lemma count_window_bounds a v y0 y1 x0 x1 :
  0 ≤ count_window a v y0 y1 x0 x1 ≤ Z.max 0 (y1 - y0) * Z.max 0 (x1 - x0).
Proof.
  rewrite count_window_hits2, <- !range_length. apply hits2_bounds.
Qed.

(** The filter never invents a label: a cell keeps its value or becomes
    background. *)
Lemma filter_pixel_cases a rows cols hk mr i j :
  filter_pixel a rows cols hk mr i j = get a i j
  ∨ filter_pixel a rows cols hk mr i j = -99.
Proof.
  unfold filter_pixel. destruct (get a i j =? -99); [by right|].
  destruct (_ <=? _); [by left|by right].
Qed.

Lemma filter_pixel_background a rows cols hk mr i j :
  get a i j = -99 → filter_pixel a rows cols hk mr i j = -99.
Proof. intros H. unfold filter_pixel. by rewrite H. Qed.

Lemma filter_pixel_below a rows cols hk mr i j :
  count_window a (get a i j) (Z.max 0 (i - hk)) (Z.min rows (i + hk + 1))
               (Z.max 0 (j - hk)) (Z.min cols (j + hk + 1)) < mr →
  filter_pixel a rows cols hk mr i j = -99.
Proof.
  intros H. unfold filter_pixel. destruct (get a i j =? -99); [done|].
  by rewrite (proj2 (Z.leb_gt _ _)).
Qed.

Lemma filter_pixel_keep a rows cols hk mr i j :
  mr ≤ count_window a (get a i j) (Z.max 0 (i - hk)) (Z.min rows (i + hk + 1))
                    (Z.max 0 (j - hk)) (Z.min cols (j + hk + 1)) →
  filter_pixel a rows cols hk mr i j = get a i j.
Proof.
  intros H. unfold filter_pixel.
  destruct (get a i j =? -99) eqn:E; [by apply Z.eqb_eq in E|].
  by rewrite (proj2 (Z.leb_le _ _)).
Qed.

End FilterFacts.

(** ** The retention threshold *)

Section Threshold.

Implicit Types (a : array2) (i j : Z).

Lemma min_required_default : min_required_of 0.8%float = 65.
Proof. vm_compute. reflexivity. Qed.

Lemma half_kernel_value : kernel_size `div` 2 = 4.
Proof. reflexivity. Qed.

Lemma get_filter_default a i j :
  0 ≤ i < nrows a → 0 ≤ j < ncols a →
  get (apply_strict_majority_filter_numba a 0.8%float) i j
  = filter_pixel a (nrows a) (ncols a) 4 65 i j.
Proof.
  intros Hi Hj. by rewrite get_filter, min_required_default, half_kernel_value.
Qed.

Lemma window_cells_border rows cols i j :
  0 ≤ i < rows → 0 ≤ j < cols →
  i < 3 ∨ rows - 3 ≤ i ∨ j < 3 ∨ cols - 3 ≤ j →
  window_cells rows cols i j ≤ 63.
Proof.
  intros Hi Hj Hb. unfold window_cells.
  set (h := Z.max 0 (Z.min rows (i + 4 + 1) - Z.max 0 (i - 4))).
  set (w := Z.max 0 (Z.min cols (j + 4 + 1) - Z.max 0 (j - 4))).
  assert (0 ≤ h ≤ 9) by lia. assert (0 ≤ w ≤ 9) by lia.
  assert (h ≤ 7 ∨ w ≤ 7) as [H7|H7] by lia; nia.
Qed.

(** C10: with the default homogeneity 0.8, whose threshold is 65, every
    pixel within 3 pixels of a border of the array is background in the
    output of [apply_strict_majority_filter_numba], whatever the array holds:
    its edge-clipped window has at most 7*9 = 63 cells, so the count of
    same-label neighbours stays below the threshold. *)
Theorem border_pixels_become_background (lc_array : array2) (i j : Z) :
  0 ≤ i < nrows lc_array → 0 ≤ j < ncols lc_array →
  i < 3 ∨ nrows lc_array - 3 ≤ i ∨ j < 3 ∨ ncols lc_array - 3 ≤ j →
  min_required_of 0.8%float = 65
  ∧ window_cells (nrows lc_array) (ncols lc_array) i j ≤ 7 * 9
  ∧ get (apply_strict_majority_filter_numba lc_array 0.8%float) i j = -99.
Proof.
  intros Hi Hj Hb.
  pose proof (window_cells_border _ _ i j Hi Hj Hb) as Hw.
  split; [apply min_required_default|]. split; [lia|].
  rewrite get_filter_default by done. apply filter_pixel_below.
  pose proof (count_window_bounds lc_array (get lc_array i j)
                (Z.max 0 (i - 4)) (Z.min (nrows lc_array) (i + 4 + 1))
                (Z.max 0 (j - 4)) (Z.min (ncols lc_array) (j + 4 + 1))) as Hc.
  unfold window_cells in Hw. lia.
Qed.

Lemma border_pixels_become_background_witness :
  get (apply_strict_majority_filter_numba (full 9 9 7) 0.8%float) 2 4 = -99.
Proof.
  refine (proj2 (proj2 (border_pixels_become_background (full 9 9 7) 2 4 _ _ _)));
    [concrete_range | concrete_range | left; lia].
Defined.

End Threshold.

(** ** Uniform blocks and checkerboards *)

Section Patterns.

Implicit Types (a : array2) (i j : Z).

Lemma count_window_uniform a v y0 y1 x0 x1 :
  v ≠ -99 →
  (∀ y x, y0 ≤ y < y1 → x0 ≤ x < x1 → get a y x = v) →
  count_window a v y0 y1 x0 x1 = Z.max 0 (y1 - y0) * Z.max 0 (x1 - x0).
Proof.
  intros Hv Hall. rewrite count_window_hits2, <- !range_length.
  apply hits2_all. intros y x Hy%range_elem Hx%range_elem.
  rewrite (Hall y x Hy Hx), Z.eqb_refl. simpl.
  by rewrite (proj2 (Z.eqb_neq _ _)).
Qed.

(** On a row of consecutive cells every other one has the parity asked
    for. *)
Lemma hits_parity (s : Z) (n : nat) (x0 : Z) :
  hits (λ x, Z.even (s + x)) (seqZ x0 (Z.of_nat n))
  = if Z.even (s + x0) then (Z.of_nat n + 1) `div` 2 else Z.of_nat n `div` 2.
Proof.
  revert x0. induction n as [|n IH]; intros x0.
  - rewrite seqZ_nil by lia. simpl. by destruct (Z.even (s + x0)).
  - rewrite seqZ_cons by lia. simpl hits.
    replace (Z.pred (Z.of_nat (S n))) with (Z.of_nat n) by lia.
    rewrite IH.
    replace (s + Z.succ x0) with (Z.succ (s + x0)) by lia.
    rewrite Z.even_succ, <- Z.negb_even.
    destruct (Z.even (s + x0)); simpl.
    + replace (Z.of_nat (S n) + 1) with (Z.of_nat n + 1 * 2) by lia.
      rewrite Z.div_add by lia. lia.
    + f_equal. lia.
Qed.

Lemma hits_parity_range (s x0 x1 : Z) :
  x1 - x0 ≤ 9 → hits (λ x, Z.even (s + x)) (range x0 x1) ≤ 5.
Proof.
  intros H. unfold range.
  destruct (decide (x1 - x0 ≤ 0)) as [Hn|Hn].
  - rewrite seqZ_nil by lia. simpl. lia.
  - replace (x1 - x0) with (Z.of_nat (Z.to_nat (x1 - x0))) by lia.
    rewrite hits_parity.
    assert (Z.of_nat (Z.to_nat (x1 - x0)) ≤ 9) by lia.
    destruct (Z.even (s + x0)).
    + apply Z.div_le_upper_bound; lia.
    + apply Z.div_le_upper_bound; lia.
Qed.

Lemma get_checkerboard rows cols c1 c2 i j :
  0 ≤ i < rows → 0 ≤ j < cols →
  get (checkerboard rows cols c1 c2) i j = if Z.even (i + j) then c1 else c2.
Proof.
  intros Hi Hj. unfold checkerboard.
  by rewrite (get_table (λ y x, if Z.even (y + x) then c1 else c2)) by lia.
Qed.

Lemma nrows_checkerboard rows cols c1 c2 :
  0 ≤ rows → nrows (checkerboard rows cols c1 c2) = rows.
Proof.
  intros. unfold checkerboard.
  rewrite (nrows_table (λ y x, if Z.even (y + x) then c1 else c2)). lia.
Qed.

Lemma ncols_checkerboard rows cols c1 c2 :
  0 < rows → 0 ≤ cols → ncols (checkerboard rows cols c1 c2) = cols.
Proof.
  intros. unfold checkerboard.
  rewrite (ncols_table (λ y x, if Z.even (y + x) then c1 else c2)) by lia. lia.
Qed.

Lemma even_add_same (u v : Z) :
  Bool.eqb (Z.even u) (Z.even v) = Z.even (u + v).
Proof. rewrite Z.even_add. by destruct (Z.even u), (Z.even v). Qed.

(** On a checkerboard no window of at most 9 columns holds more than 5
    cells of the centre's class per row. *)
Lemma count_window_checkerboard rows cols c1 c2 i j y0 y1 x0 x1 :
  c1 ≠ c2 → 0 ≤ i < rows → 0 ≤ j < cols →
  0 ≤ y0 → y1 ≤ rows → 0 ≤ x0 → x1 ≤ cols → x1 - x0 ≤ 9 →
  count_window (checkerboard rows cols c1 c2)
               (get (checkerboard rows cols c1 c2) i j) y0 y1 x0 x1
  ≤ Z.max 0 (y1 - y0) * 5.
Proof.
  intros Hc Hi Hj Hy0 Hy1 Hx0 Hx1 Hw.
  rewrite count_window_hits2, <- range_length.
  apply hits2_row_bound. intros y Hy%range_elem.
  etrans; [|apply (hits_parity_range (y + i + j) x0 x1 Hw)].
  apply hits_mono. intros x Hx%range_elem.
  rewrite !get_checkerboard by lia.
  replace (y + i + j + x) with ((y + x) + (i + j)) by lia.
  rewrite <- (even_add_same (y + x) (i + j)).
  destruct (Z.even (y + x)), (Z.even (i + j)); simpl; try done.
  - intros [E _]%andb_prop. apply Z.eqb_eq in E. congruence.
  - intros [E _]%andb_prop. apply Z.eqb_eq in E. congruence.
Qed.

End Patterns.

Section ThresholdExamples.

Implicit Types (a : array2) (i j : Z).

Lemma uniform_block_count a i j v :
  v ≠ -99 →
  (∀ y x, i - 4 ≤ y ≤ i + 4 → j - 4 ≤ x ≤ j + 4 → get a y x = v) →
  count_window a v (i - 4) (i + 4 + 1) (j - 4) (j + 4 + 1) = 81.
Proof.
  intros Hv Hall. rewrite count_window_uniform; [lia|done|].
  intros y x Hy Hx. apply Hall; lia.
Qed.

Lemma uniform_block_kept a i j v :
  4 ≤ i < nrows a - 4 → 4 ≤ j < ncols a - 4 → v ≠ -99 →
  (∀ y x, i - 4 ≤ y ≤ i + 4 → j - 4 ≤ x ≤ j + 4 → get a y x = v) →
  get (apply_strict_majority_filter_numba a 0.8%float) i j = v.
Proof.
  intros Hi Hj Hv Hall.
  assert (Hc : get a i j = v) by (apply Hall; lia).
  rewrite get_filter_default by lia.
  rewrite filter_pixel_keep; [done|].
  rewrite Hc, !Z.max_r, !Z.min_r by lia.
  by rewrite uniform_block_count.
Qed.

Lemma checkerboard_cell_reset rows cols c1 c2 i j :
  c1 ≠ c2 → 0 ≤ i < rows → 0 ≤ j < cols →
  get (apply_strict_majority_filter_numba (checkerboard rows cols c1 c2)
                                          0.8%float) i j = -99.
Proof.
  intros Hc Hi Hj.
  rewrite get_filter_default
    by (rewrite ?nrows_checkerboard, ?ncols_checkerboard; lia).
  apply filter_pixel_below.
  rewrite nrows_checkerboard, ncols_checkerboard by lia.
  pose proof (count_window_checkerboard rows cols c1 c2 i j
                (Z.max 0 (i - 4)) (Z.min rows (i + 4 + 1))
                (Z.max 0 (j - 4)) (Z.min cols (j + 4 + 1))
                Hc Hi Hj ltac:(lia) ltac:(lia) ltac:(lia) ltac:(lia) ltac:(lia)).
  lia.
Qed.

Lemma checkerboard_all_reset rows cols c1 c2 :
  0 ≤ rows → 0 ≤ cols → c1 ≠ c2 →
  apply_strict_majority_filter_numba (checkerboard rows cols c1 c2) 0.8%float
  = full rows cols (-99).
Proof.
  intros Hr Hcl Hc.
  destruct (decide (rows = 0)) as [->|Hn]; [reflexivity|].
  apply array_ext.
  - apply rect_filter.
  - apply rect_full.
  - rewrite nrows_filter, nrows_checkerboard, nrows_full by lia. lia.
  - rewrite ncols_filter, ncols_checkerboard, ncols_full by lia. lia.
  - intros i j. rewrite nrows_filter, ncols_filter.
    rewrite nrows_checkerboard, ncols_checkerboard by lia. intros Hi Hj.
    rewrite checkerboard_cell_reset, get_full by lia. done.
Qed.

(** C6: with kernel size 9 and homogeneity 0.8 the retention threshold is
    [ceil(81 * 0.8) = 65].  The centre of a block of at least 9x9 cells of
    one class keeps its label, the count being 81.  On a checkerboard of
    two distinct classes every cell of the output is background. *)
Theorem homogeneity_threshold :
  min_required_of 0.8%float = 65
  ∧ (∀ (lc_array : array2) (i j v : Z),
       4 ≤ i < nrows lc_array - 4 → 4 ≤ j < ncols lc_array - 4 → v ≠ -99 →
       (∀ y x, i - 4 ≤ y ≤ i + 4 → j - 4 ≤ x ≤ j + 4 → get lc_array y x = v) →
       count_window lc_array v (i - 4) (i + 4 + 1) (j - 4) (j + 4 + 1) = 81
       ∧ get (apply_strict_majority_filter_numba lc_array 0.8%float) i j = v)
  ∧ (∀ rows cols c1 c2 : Z,
       0 ≤ rows → 0 ≤ cols → c1 ≠ c2 →
       apply_strict_majority_filter_numba (checkerboard rows cols c1 c2)
                                          0.8%float
       = full rows cols (-99)).
Proof.
  split; [apply min_required_default|]. split.
  - intros a i j v Hi Hj Hv Hall. split.
    + by apply uniform_block_count.
    + by apply uniform_block_kept.
  - intros. by apply checkerboard_all_reset.
Qed.

Lemma homogeneity_threshold_witness :
  get (apply_strict_majority_filter_numba (full 9 9 5) 0.8%float) 4 4 = 5
  ∧ apply_strict_majority_filter_numba (checkerboard 11 12 1 2) 0.8%float
    = full 11 12 (-99).
Proof.
  destruct homogeneity_threshold as (_ & Hblock & Hboard). split.
  - refine (proj2 (Hblock (full 9 9 5) 4 4 5 _ _ _ _));
      [concrete_range | concrete_range | discriminate |].
    intros y x Hy Hx. apply get_full; lia.
  - apply Hboard; [concrete_range | concrete_range | discriminate].
Defined.

End ThresholdExamples.

(** ** Windows seen through a slice *)

Section SliceWindows.

Implicit Types (a : array2) (i j : Z).

(** Counting in a window of a slice is counting in the same window of the
    array, shifted by the origin of the slice. *)
Lemma count_window_slice2 a v ys ye xs xe Y0 Y1 X0 X1 :
  0 ≤ ys → 0 ≤ xs → ys ≤ Y0 → Y1 ≤ ye → xs ≤ X0 → X1 ≤ xe →
  count_window (slice2 a ys ye xs xe) v (Y0 - ys) (Y1 - ys) (X0 - xs) (X1 - xs)
  = count_window a v Y0 Y1 X0 X1.
Proof.
  intros Hys Hxs HY0 HY1 HX0 HX1. rewrite !count_window_hits2.
  replace (range Y0 Y1) with (Z.add ys <$> range (Y0 - ys) (Y1 - ys))
    by (rewrite range_shift; f_equal; lia).
  replace (range X0 X1) with (Z.add xs <$> range (X0 - xs) (X1 - xs))
    by (rewrite range_shift; f_equal; lia).
  rewrite hits2_fmap. apply hits2_ext.
  intros y x Hy%range_elem Hx%range_elem.
  by rewrite get_slice2 by lia.
Qed.

(** A pixel of a slice that keeps its whole clipped window inside the slice
    is filtered as in the array. *)
Lemma filter_pixel_slice2 a rows cols hk mr ys ye xs xe i j :
  0 ≤ hk → 0 ≤ ys → 0 ≤ xs →
  ys ≤ i < ye → xs ≤ j < xe → ye ≤ rows → xe ≤ cols →
  (ys = 0 ∨ ys ≤ i - hk) → (ye = rows ∨ i + hk + 1 ≤ ye) →
  (xs = 0 ∨ xs ≤ j - hk) → (xe = cols ∨ j + hk + 1 ≤ xe) →
  filter_pixel (slice2 a ys ye xs xe) (ye - ys) (xe - xs) hk mr (i - ys) (j - xs)
  = filter_pixel a rows cols hk mr i j.
Proof.
  intros Hhk Hys Hxs Hi Hj Hye Hxe Hy0 Hy1 Hx0 Hx1.
  unfold filter_pixel.
  rewrite get_slice2 by lia.
  replace (ys + (i - ys)) with i by lia. replace (xs + (j - xs)) with j by lia.
  destruct (get a i j =? -99); [done|].
  replace (Z.max 0 (i - ys - hk)) with (Z.max 0 (i - hk) - ys) by lia.
  replace (Z.min (ye - ys) (i - ys + hk + 1))
    with (Z.min rows (i + hk + 1) - ys) by lia.
  replace (Z.max 0 (j - xs - hk)) with (Z.max 0 (j - hk) - xs) by lia.
  replace (Z.min (xe - xs) (j - xs + hk + 1))
    with (Z.min cols (j + hk + 1) - xs) by lia.
  by rewrite count_window_slice2 by lia.
Qed.

End SliceWindows.

(** ** Batch grids *)

Section BatchGrid.

Lemma ceil_div_covers n b : 0 < b → n ≤ ceil_div n b * b.
Proof.
  intros Hb. unfold ceil_div.
  pose proof (Z.mod_pos_bound (- n) b Hb).
  pose proof (Z.div_mod (- n) b ltac:(lia)). nia.
Qed.

Lemma ceil_div_tight n b k : 0 < b → k < ceil_div n b → k * b < n.
Proof.
  intros Hb Hk. unfold ceil_div in Hk.
  pose proof (Z.mod_pos_bound (- n) b Hb).
  pose proof (Z.div_mod (- n) b ltac:(lia)). nia.
Qed.

Lemma batch_of_pixel n b i :
  0 < b → 0 ≤ i < n →
  0 ≤ i `div` b < ceil_div n b
  ∧ (i `div` b) * b ≤ i < Z.min ((i `div` b + 1) * b) n.
Proof.
  intros Hb Hi.
  pose proof (ceil_div_covers n b Hb).
  pose proof (Z.mod_pos_bound i b Hb).
  pose proof (Z.div_mod i b ltac:(lia)).
  assert (0 ≤ i `div` b) by (apply Z.div_pos; lia).
  split; [split; [done|nia]|split; [nia|]].
  apply Z.min_glb_lt; nia.
Qed.

(** A loop that rewrites cells: a cell that some iteration covers ends with
    a value satisfying [Q], provided every iteration that writes the cell
    writes such a value; a cell no iteration covers keeps its value. *)
Lemma foldl_cells {K} (step : array2 → K → array2) (Inv : array2 → Prop)
      (ok : K → Prop) (cover : K → Prop) (Q : Z → Prop) (i j : Z)
      (ks : list K) (out : array2) :
  (∀ o k, Inv o → ok k → Inv (step o k)) →
  (∀ o k, Inv o → ok k →
          (¬ cover k ∧ get (step o k) i j = get o i j)
          ∨ (cover k ∧ Q (get (step o k) i j))) →
  Inv out → Forall ok ks →
  Inv (foldl step out ks)
  ∧ ((Forall (λ k, ¬ cover k) ks ∧ get (foldl step out ks) i j = get out i j)
     ∨ (Exists cover ks ∧ Q (get (foldl step out ks) i j))).
Proof.
  intros Hinv Hstep. revert out.
  induction ks as [|k ks IH]; intros out Hout Hok; simpl.
  - split; [done|]. left. by split.
  - inversion Hok as [|? ? Hk Hks]; subst.
    destruct (IH (step out k) (Hinv _ _ Hout Hk) Hks) as [HI Hres].
    split; [done|].
    destruct (Hstep out k Hout Hk) as [[Hnc Heq]|[Hc HQ]].
    + destruct Hres as [[Hall Hg]|[Hex HQ]].
      * left. split; [by constructor|congruence].
      * right. split; [by right|done].
    + destruct Hres as [[Hall Hg]|[Hex HQ']].
      * right. split; [by left|]. by rewrite Hg.
      * right. split; [by left|done].
Qed.

End BatchGrid.

(** ** The batched filter, batch by batch *)

Section BatchedFilter.

Variables (src : array2) (mh : float) (bs ov : Z).
Hypothesis src_rect : rect src.
Hypothesis bs_pos : 0 < bs.
Hypothesis ov_nonneg : 0 ≤ ov.

Abbreviation rows := (nrows src).
Abbreviation cols := (ncols src).
Abbreviation same_shape := (same_shape_as src).
Abbreviation in_core := (in_core_of (nrows src) (ncols src) bs).
Abbreviation batch_value := (batch_value_of src mh bs ov).

Lemma filter_batch_cell out batch_y batch_x i j :
  same_shape out →
  0 ≤ batch_y → batch_y * bs < rows → 0 ≤ batch_x → batch_x * bs < cols →
  0 ≤ i < rows → 0 ≤ j < cols →
  same_shape (filter_batch src mh bs ov out batch_y batch_x)
  ∧ (in_core batch_y batch_x i j →
     get (filter_batch src mh bs ov out batch_y batch_x) i j
     = batch_value batch_y batch_x i j)
  ∧ (¬ in_core batch_y batch_x i j →
     get (filter_batch src mh bs ov out batch_y batch_x) i j = get out i j).
Proof.
  intros (Hor & Hon & Hoc) Hby Hby' Hbx Hbx' Hi Hj.
  unfold filter_batch, batch_value_of, in_core_of.
  set (ys := batch_y * bs). set (ye := Z.min ((batch_y + 1) * bs) rows).
  set (xs := batch_x * bs). set (xe := Z.min ((batch_x + 1) * bs) cols).
  set (ysr := Z.max 0 (ys - ov)). set (yer := Z.min rows (ye + ov)).
  set (xsr := Z.max 0 (xs - ov)). set (xer := Z.min cols (xe + ov)).
  assert (Hys : ys < ye) by (subst ys ye; nia).
  assert (Hxs : xs < xe) by (subst xs xe; nia).
  assert (Hye : ye ≤ rows) by (subst ye; lia).
  assert (Hxe : xe ≤ cols) by (subst xe; lia).
  assert (0 ≤ ys) by (subst ys; nia). assert (0 ≤ xs) by (subst xs; nia).
  rewrite ReadAsArray_Some by lia.
  replace (ysr + (yer - ysr)) with yer by lia.
  replace (xsr + (xer - xsr)) with xer by lia.
  set (batch := slice2 src ysr yer xsr xer).
  assert (Hbr : rect batch) by (apply rect_slice2; [done|lia..]).
  assert (Hbn : nrows batch = yer - ysr)
    by (apply nrows_slice2; lia).
  assert (Hbc : ncols batch = xer - xsr)
    by (apply ncols_slice2; [done|lia..]).
  set (filtered := apply_strict_majority_filter_numba batch mh).
  assert (Hfr : rect filtered) by apply rect_filter.
  assert (Hfn : nrows filtered = yer - ysr)
    by (subst filtered; by rewrite nrows_filter).
  assert (Hfc : ncols filtered = xer - xsr)
    by (subst filtered; by rewrite ncols_filter).
  set (core := slice2 filtered (ys - ysr) (ys - ysr + (ye - ys))
                      (xs - xsr) (xs - xsr + (xe - xs))).
  assert (Hcn : nrows core = ye - ys).
  { subst core. rewrite nrows_slice2 by lia. lia. }
  assert (Hcc : ncols core = xe - xs).
  { subst core. rewrite ncols_slice2 by (done || lia). lia. }
  split; [|split].
  - split; [by apply rect_WriteArray|].
    by rewrite nrows_WriteArray, ncols_WriteArray.
  - intros [Hci Hcj].
    rewrite get_WriteArray by (done || lia). rewrite Hcn, Hcc.
    replace ((ys <=? i) && (i <? ys + (ye - ys)) && (xs <=? j)
             && (j <? xs + (xe - xs))) with true
      by (symmetry; rewrite !andb_true_iff, !Z.leb_le, !Z.ltb_lt; lia).
    subst core. rewrite get_slice2 by lia.
    replace (ys - ysr + (i - ys)) with (i - ysr) by lia.
    replace (xs - xsr + (j - xs)) with (j - xsr) by lia.
    subst filtered. rewrite get_filter by lia. by rewrite Hbn, Hbc.
  - intros Hnc.
    rewrite get_WriteArray by (done || lia). rewrite Hcn, Hcc.
    destruct ((ys <=? i) && (i <? ys + (ye - ys)) && (xs <=? j)
              && (j <? xs + (xe - xs))) eqn:E; [|done].
    rewrite !andb_true_iff, !Z.leb_le, !Z.ltb_lt in E. lia.
Qed.

(** The batch loops: every pixel of the raster ends with the value written
    by a batch whose core holds it. *)
Lemma filter_batched_cell (Q : Z → Prop) i j :
  0 ≤ i < rows → 0 ≤ j < cols →
  (∀ batch_y batch_x,
     0 ≤ batch_y → batch_y * bs < rows → 0 ≤ batch_x → batch_x * bs < cols →
     in_core batch_y batch_x i j → Q (batch_value batch_y batch_x i j)) →
  same_shape (filter_batched_with ov src mh bs)
  ∧ Q (get (filter_batched_with ov src mh bs) i j).
Proof.
  intros Hi Hj HQ. unfold filter_batched_with.
  set (inner := λ (out : array2) (batch_y : Z),
         foldl (λ out' batch_x, filter_batch src mh bs ov out' batch_y batch_x)
               out (range 0 (ceil_div cols bs))).
  assert (Hinner : ∀ o batch_y,
             same_shape o → 0 ≤ batch_y < ceil_div rows bs →
             same_shape (inner o batch_y)
             ∧ ((¬ (∃ batch_x, batch_x ∈ range 0 (ceil_div cols bs)
                               ∧ in_core batch_y batch_x i j)
                 ∧ get (inner o batch_y) i j = get o i j)
                ∨ ((∃ batch_x, batch_x ∈ range 0 (ceil_div cols bs)
                               ∧ in_core batch_y batch_x i j)
                   ∧ Q (get (inner o batch_y) i j)))).
  { intros o batch_y Ho Hby.
    pose proof (ceil_div_tight rows bs batch_y bs_pos (proj2 Hby)) as Hby'.
    destruct (foldl_cells
                (λ out' batch_x, filter_batch src mh bs ov out' batch_y batch_x)
                same_shape (λ batch_x, 0 ≤ batch_x < ceil_div cols bs)
                (λ batch_x, in_core batch_y batch_x i j) Q i j
                (range 0 (ceil_div cols bs)) o) as [HI Hres].
    - intros o' k Ho' Hk.
      pose proof (ceil_div_tight cols bs k bs_pos (proj2 Hk)).
      refine (proj1 (filter_batch_cell o' batch_y k i j Ho' _ _ _ _ _ _)); lia.
    - intros o' k Ho' Hk.
      pose proof (ceil_div_tight cols bs k bs_pos (proj2 Hk)) as Hk'.
      destruct (filter_batch_cell o' batch_y k i j Ho')
        as (_ & Hin & Hout); [lia..|].
      destruct (decide (in_core batch_y k i j)) as [Hc|Hc].
      + right. split; [done|]. rewrite Hin by done. apply HQ; [lia..|done].
      + left. split; [done|]. by apply Hout.
    - done.
    - apply Forall_forall. intros k Hk%range_elem. lia.
    - split; [done|]. destruct Hres as [[Hall Hg]|[Hex Hq]].
      + left. split; [|done]. intros (k & Hk & Hc).
        rewrite Forall_forall in Hall. by apply (Hall k).
      + right. split; [|done]. apply Exists_exists in Hex. done. }
  destruct (foldl_cells inner same_shape (λ batch_y, 0 ≤ batch_y < ceil_div rows bs)
              (λ batch_y, ∃ batch_x, batch_x ∈ range 0 (ceil_div cols bs)
                                     ∧ in_core batch_y batch_x i j)
              Q i j (range 0 (ceil_div rows bs)) (Create cols rows))
    as [HI Hres].
  - intros o k Ho Hk. by apply Hinner.
  - intros o k Ho Hk. by apply Hinner.
  - unfold Create, zeros. split; [apply rect_full|].
    rewrite nrows_full, ncols_full by lia. lia.
  - apply Forall_forall. intros k Hk%range_elem. lia.
  - split; [done|]. destruct Hres as [[Hall _]|[_ Hq]]; [|done].
    exfalso. rewrite Forall_forall in Hall.
    destruct (batch_of_pixel rows bs i bs_pos Hi) as [Hbi Hci].
    destruct (batch_of_pixel cols bs j bs_pos Hj) as [Hbj Hcj].
    apply (Hall (i `div` bs)); [apply range_elem; lia|].
    exists (j `div` bs). split; [apply range_elem; lia|]. by split.
Qed.

End BatchedFilter.

(** ** The batched filter as a whole *)

Section BatchedFilterWhole.

Implicit Types (src out : array2) (mh : float).

Lemma filter_batch_shape src mh bs ov out batch_y batch_x :
  same_shape_as src out →
  same_shape_as src (filter_batch src mh bs ov out batch_y batch_x).
Proof.
  intros (Hr & Hn & Hc). unfold filter_batch.
  destruct (ReadAsArray _ _ _ _ _); [|done].
  split; [by apply rect_WriteArray|].
  by rewrite nrows_WriteArray, ncols_WriteArray.
Qed.

Lemma foldl_invariant {S K} (step : S → K → S) (Inv : S → Prop) ks s :
  (∀ s k, Inv s → Inv (step s k)) → Inv s → Inv (foldl step s ks).
Proof.
  intros Hstep. revert s. induction ks as [|k ks IH]; intros s Hs; simpl; auto.
Qed.

Lemma Create_shape src : same_shape_as src (Create (ncols src) (nrows src)).
Proof.
  unfold Create, zeros. split; [apply rect_full|].
  pose proof (nrows_nonneg src). pose proof (ncols_nonneg src).
  rewrite nrows_full. split; [lia|].
  destruct (decide (0 < nrows src)) as [Hpos|Hpos].
  - rewrite ncols_full by done. lia.
  - rewrite (ncols_empty src) by lia. unfold full.
    by replace (Z.to_nat (nrows src)) with 0%nat by lia.
Qed.

Lemma filter_batched_shape src mh bs ov :
  same_shape_as src (filter_batched_with ov src mh bs).
Proof.
  unfold filter_batched_with.
  apply foldl_invariant; [|apply Create_shape].
  intros o batch_y Ho. apply foldl_invariant; [|done].
  intros o' batch_x Ho'. by apply filter_batch_shape.
Qed.

(** C7: a pixel that is background (-99) in the input is background in the
    output of the filter, for the in-memory filter and for the batched one
    with any positive batch size and any overlap, hence also with the
    overlap of 4 the source uses. *)
Theorem background_stays_background
        (src : array2) (min_homogeneity : float) (batch_size overlap i j : Z) :
  rect src → 0 < batch_size → 0 ≤ overlap →
  0 ≤ i < nrows src → 0 ≤ j < ncols src →
  get src i j = -99 →
  get (apply_strict_majority_filter_numba src min_homogeneity) i j = -99
  ∧ get (filter_batched_with overlap src min_homogeneity batch_size) i j = -99
  ∧ get (apply_strict_majority_filter_batched src min_homogeneity batch_size)
        i j = -99.
Proof.
  intros Hrect Hbs Hov Hi Hj Hbg.
  assert (Hany : ∀ ov, 0 ≤ ov →
            get (filter_batched_with ov src min_homogeneity batch_size) i j = -99).
  { intros ov Hov'.
    apply (filter_batched_cell src min_homogeneity batch_size ov Hrect Hbs Hov'
             (λ v, v = -99) i j Hi Hj).
    intros batch_y batch_x Hby Hby' Hbx Hbx' [Hci Hcj].
    unfold batch_value_of. apply filter_pixel_background.
    rewrite get_slice2 by lia. rewrite <- Hbg. f_equal; lia. }
  split; [|split].
  - rewrite get_filter by done. by apply filter_pixel_background.
  - by apply Hany.
  - unfold apply_strict_majority_filter_batched. by apply Hany.
Qed.

Lemma background_stays_background_witness :
  get (apply_strict_majority_filter_batched
         [[1; 1; -99]; [1; 1; 1]; [1; 1; 1]] 0.8%float 2) 0 2 = -99.
Proof.
  refine (proj2 (proj2 (background_stays_background
                          [[1; 1; -99]; [1; 1; 1]; [1; 1; 1]] 0.8%float 2 4 0 2
                          _ _ _ _ _ _))).
  - repeat constructor.
  - lia.
  - lia.
  - concrete_range.
  - concrete_range.
  - reflexivity.
Defined.

(** C3: the batched filter, which reads each batch with an overlap of 4
    pixels and writes only its core, produces the raster that
    [apply_strict_majority_filter_numba] produces on the whole raster in
    memory; this holds for every homogeneity and every positive batch size,
    in particular for 0.8 and 2048. *)
Theorem batched_filter_equals_whole
        (src : array2) (min_homogeneity : float) (batch_size : Z) :
  rect src → 0 < batch_size →
  apply_strict_majority_filter_batched src min_homogeneity batch_size
  = apply_strict_majority_filter_numba src min_homogeneity.
Proof.
  intros Hrect Hbs. unfold apply_strict_majority_filter_batched.
  rewrite half_kernel_value.
  destruct (filter_batched_shape src min_homogeneity batch_size 4)
    as (Hr & Hn & Hc).
  apply array_ext; [done|apply rect_filter|by rewrite nrows_filter
                   |by rewrite ncols_filter|].
  rewrite Hn, Hc. intros i j Hi Hj.
  apply (filter_batched_cell src min_homogeneity batch_size 4 Hrect Hbs
           ltac:(lia)
           (λ v, v = get (apply_strict_majority_filter_numba src min_homogeneity)
                         i j) i j Hi Hj).
  intros batch_y batch_x Hby Hby' Hbx Hbx' [Hci Hcj].
  rewrite get_filter by done. unfold batch_value_of.
  apply filter_pixel_slice2; rewrite ?half_kernel_value; lia.
Qed.

Lemma batched_filter_equals_whole_witness :
  apply_strict_majority_filter_batched (full 12 11 3) 0.8%float 5
  = apply_strict_majority_filter_numba (full 12 11 3) 0.8%float.
Proof.
  apply (batched_filter_equals_whole (full 12 11 3) 0.8%float 5).
  - apply rect_full.
  - lia.
Defined.

End BatchedFilterWhole.

(** ** The label mapping *)

Section LabelMappingFacts.

Implicit Types (l : list Z) (c x : Z).

Lemma enumerate_snoc {A} (l : list A) (x : A) :
  enumerate (l ++ [x]) = enumerate l ++ [(Z.of_nat (length l), x)].
Proof.
  unfold enumerate. rewrite imap_app. simpl. by rewrite Nat.add_0_r.
Qed.

Lemma length_enumerate {A} (l : list A) : length (enumerate l) = length l.
Proof. unfold enumerate. apply length_imap. Qed.

Lemma mapping_fold_snoc acc l x :
  foldl mapping_step acc (enumerate (l ++ [x]))
  = mapping_step (foldl mapping_step acc (enumerate l)) (Z.of_nat (length l), x).
Proof. by rewrite enumerate_snoc, foldl_snoc. Qed.

Lemma mapping_step_o2n acc new c :
  (mapping_step acc (new, c)).1.1 = <[c := new]> acc.1.1.
Proof.
  destruct acc as [[o n] d]. unfold mapping_step.
  by destruct (CLASS_DEFINITIONS !! c).
Qed.

Lemma mapping_step_n2o acc new c :
  (mapping_step acc (new, c)).1.2 = <[new := c]> acc.1.2.
Proof.
  destruct acc as [[o n] d]. unfold mapping_step.
  by destruct (CLASS_DEFINITIONS !! c).
Qed.

(** The forward dictionary after the loop over a duplicate-free list. *)
Lemma mapping_fold_o2n acc l :
  NoDup l →
  (∀ (i : nat) c, l !! i = Some c →
     (foldl mapping_step acc (enumerate l)).1.1 !! c = Some (Z.of_nat i))
  ∧ (∀ c, c ∉ l →
       (foldl mapping_step acc (enumerate l)).1.1 !! c = acc.1.1 !! c).
Proof.
  induction l as [|x l IH] using rev_ind; intros Hnd.
  - split; [intros i c; by rewrite lookup_nil|done].
  - apply NoDup_app in Hnd as (Hnd & Hdisj & _).
    destruct (IH Hnd) as [IHin IHout].
    rewrite mapping_fold_snoc. split.
    + intros i c Hi. rewrite mapping_step_o2n.
      destruct (decide (i < length l)%nat) as [Hlt|Hge].
      * rewrite lookup_app_l in Hi by done.
        assert (c ≠ x).
        { intros ->. apply (Hdisj x); [by eapply list_elem_of_lookup_2|by left]. }
        rewrite lookup_insert_ne by done. by apply IHin.
      * rewrite lookup_app_r in Hi by lia.
        destruct (i - length l)%nat as [|k] eqn:E; simpl in Hi; [|done].
        injection Hi as <-. rewrite lookup_insert_eq. do 2 f_equal. lia.
    + intros c Hc. rewrite mapping_step_o2n.
      rewrite not_elem_of_app in Hc. destruct Hc as [Hc Hx].
      rewrite lookup_insert_ne by (intros ->; apply Hx; by left).
      by apply IHout.
Qed.

(** The backward dictionary after the loop. *)
Lemma mapping_fold_n2o acc l (k : Z) :
  (foldl mapping_step acc (enumerate l)).1.2 !! k
  = if (0 <=? k) && (k <? Z.of_nat (length l))
    then l !! Z.to_nat k else acc.1.2 !! k.
Proof.
  induction l as [|x l IH] using rev_ind.
  - simpl. destruct ((0 <=? k) && _) eqn:E; [|done].
    rewrite andb_true_iff, Z.leb_le, Z.ltb_lt in E. simpl in E. lia.
  - rewrite mapping_fold_snoc, mapping_step_n2o, length_app. simpl.
    destruct (decide (k = Z.of_nat (length l))) as [->|Hne].
    + rewrite lookup_insert_eq, Nat2Z.id.
      replace ((0 <=? Z.of_nat (length l))
               && (Z.of_nat (length l) <? Z.of_nat (length l + 1))) with true
        by (symmetry; rewrite andb_true_iff, Z.leb_le, Z.ltb_lt; lia).
      by rewrite lookup_app_r, Nat.sub_diag by lia.
    + rewrite lookup_insert_ne by done. rewrite IH.
      destruct ((0 <=? k) && (k <? Z.of_nat (length l))) eqn:E.
      * rewrite andb_true_iff, Z.leb_le, Z.ltb_lt in E.
        replace ((0 <=? k) && (k <? Z.of_nat (length l + 1))) with true
          by (symmetry; rewrite andb_true_iff, Z.leb_le, Z.ltb_lt; lia).
        by rewrite lookup_app_l by lia.
      * replace ((0 <=? k) && (k <? Z.of_nat (length l + 1))) with false; [done|].
        symmetry. rewrite andb_false_iff, Z.leb_gt, Z.ltb_ge in E |- *. lia.
Qed.

Lemma create_mapping_fields l :
  let m := create_alberta_label_mapping l in
  let r := foldl mapping_step
                 (<[0 := -99]> (∅ : gmap Z Z), (∅ : gmap Z Z),
                  <[-99 := {| new_name := "Background/NoData";
                              new_color := (0, 0, 0); original_id := 0 |}]>
                    (∅ : gmap Z new_class_definition))
                 (enumerate (merge_sort Z.le l)) in
  original_to_new m = r.1.1 ∧ new_to_original m = r.1.2
  ∧ alberta_classes_sorted m = merge_sort Z.le l.
Proof.
  unfold create_alberta_label_mapping. simpl.
  by destruct (foldl _ _ _) as [[o n] d].
Qed.

Lemma sorted_classes_unique l1 l2 :
  l1 ≡ₚ l2 → merge_sort Z.le l1 = merge_sort Z.le l2.
Proof.
  intros Hp. apply (Sorted_unique Z.le).
  - apply Sorted_merge_sort. apply _.
  - apply Sorted_merge_sort. apply _.
  - by rewrite !merge_sort_Permutation.
Qed.

End LabelMappingFacts.

Section LabelMappingClaim.

Lemma sorted_lookup_le (l : list Z) (i j : nat) (a b : Z) :
  StronglySorted Z.le l → (i < j)%nat →
  l !! i = Some a → l !! j = Some b → a ≤ b.
Proof.
  intros Hs. revert i j. induction Hs as [|x l Hs IH Hall]; intros i j Hij Ha Hb.
  - by rewrite lookup_nil in Ha.
  - destruct j as [|j]; [lia|]. simpl in Hb. destruct i as [|i].
    + injection Ha as <-. rewrite Forall_forall in Hall.
      apply Hall. by eapply list_elem_of_lookup_2.
    + simpl in Ha. apply (IH i j); [lia|done..].
Qed.

(** The forward dictionary built from a set of codes without 0. *)
Lemma created_mapping_forward (C : list Z) :
  NoDup C → 0 ∉ C →
  let m := create_alberta_label_mapping C in
  original_to_new m !! 0 = Some (-99)
  ∧ (∀ (i : nat) (c : Z),
       merge_sort Z.le C !! i = Some c →
       original_to_new m !! c = Some (Z.of_nat i))
  ∧ (∀ c k : Z,
       original_to_new m !! c = Some k →
       (c = 0 ∧ k = -99) ∨ (c ∈ C ∧ 0 ≤ k < Z.of_nat (length C))).
Proof.
  intros Hnd H0 m.
  destruct (create_mapping_fields C) as (Ho & _ & _). fold m in Ho.
  set (s := merge_sort Z.le C) in *.
  assert (Hperm : s ≡ₚ C) by apply merge_sort_Permutation.
  assert (Hnds : NoDup s) by (by rewrite Hperm).
  assert (Hlen : length s = length C) by (by rewrite Hperm).
  set (acc := (<[0 := -99]> (∅ : gmap Z Z), (∅ : gmap Z Z),
               <[-99 := {| new_name := "Background/NoData";
                           new_color := (0, 0, 0); original_id := 0 |}]>
                 (∅ : gmap Z new_class_definition))) in *.
  destruct (mapping_fold_o2n acc s Hnds) as [Hin Hout].
  assert (Hfwd : ∀ (i : nat) c, s !! i = Some c →
                   original_to_new m !! c = Some (Z.of_nat i)).
  { intros i c Hi. rewrite Ho. by apply Hin. }
  split; [|split; [done|]].
  - rewrite Ho, Hout; [done|]. by rewrite Hperm.
  - intros c k Hk. destruct (decide (c ∈ s)) as [Hc|Hc].
    + right. apply list_elem_of_lookup in Hc as [i Hi].
      pose proof (lookup_lt_Some _ _ _ Hi).
      rewrite (Hfwd i c Hi) in Hk. injection Hk as <-.
      split; [rewrite <- Hperm; by eapply list_elem_of_lookup_2|lia].
    + left. rewrite Ho, Hout in Hk by done. subst acc. simpl in Hk.
      destruct (decide (c = 0)) as [->|Hne].
      * rewrite lookup_insert_eq in Hk. by injection Hk as <-.
      * by rewrite lookup_insert_ne, lookup_empty in Hk.
Qed.

(** C4: for a set [C] of original codes without 0 (a duplicate-free list),
    the mapping sends 0 to -99 and the i-th code of the ascending order of
    [C] to the new label [i], so that the new labels are exactly
    [0 .. |C|-1], assigned in ascending order of original code; the result
    depends only on the set, not on the order in which it is given. *)
Theorem label_mapping_contiguous (C : list Z) :
  NoDup C → 0 ∉ C →
  let m := create_alberta_label_mapping C in
  let sorted := alberta_classes_sorted m in
  Sorted Z.le sorted ∧ sorted ≡ₚ C
  ∧ original_to_new m !! 0 = Some (-99)
  ∧ (∀ (i : nat) (c : Z),
       sorted !! i = Some c →
       original_to_new m !! c = Some (Z.of_nat i)
       ∧ new_to_original m !! Z.of_nat i = Some c)
  ∧ (∀ k : Z, is_Some (new_to_original m !! k) ↔ 0 ≤ k < Z.of_nat (length C))
  ∧ (∀ c k : Z,
       original_to_new m !! c = Some k →
       (c = 0 ∧ k = -99) ∨ (c ∈ C ∧ 0 ≤ k < Z.of_nat (length C)))
  ∧ (∀ c1 c2 k1 k2 : Z,
       c1 ∈ C → c2 ∈ C →
       original_to_new m !! c1 = Some k1 → original_to_new m !! c2 = Some k2 →
       c1 < c2 → k1 < k2)
  ∧ (∀ C' : list Z, C' ≡ₚ C → create_alberta_label_mapping C' = m).
Proof.
  intros Hnd H0 m sorted.
  destruct (create_mapping_fields C) as (_ & Hn & Hs).
  destruct (created_mapping_forward C Hnd H0) as (Hzero & Hfwd & Hcases).
  fold m in Hn, Hs, Hzero, Hfwd, Hcases. subst sorted. rewrite Hs.
  set (s := merge_sort Z.le C) in *.
  assert (Hperm : s ≡ₚ C) by apply merge_sort_Permutation.
  assert (Hsorted : Sorted Z.le s) by (apply Sorted_merge_sort; apply _).
  assert (Hlen : length s = length C) by (by rewrite Hperm).
  assert (Hbwd : ∀ k, new_to_original m !! k
                      = if (0 <=? k) && (k <? Z.of_nat (length s))
                        then s !! Z.to_nat k else None).
  { intros k. rewrite Hn, mapping_fold_n2o. cbn [fst snd].
    by rewrite lookup_empty. }
  split; [done|]. split; [done|]. split; [done|]. split; [|split; [|split; [done|split]]].
  - intros i c Hi. split; [by apply Hfwd|].
    pose proof (lookup_lt_Some _ _ _ Hi). rewrite Hbwd, Nat2Z.id.
    by replace ((0 <=? Z.of_nat i) && (Z.of_nat i <? Z.of_nat (length s)))
      with true by (symmetry; rewrite andb_true_iff, Z.leb_le, Z.ltb_lt; lia).
  - intros k. rewrite Hbwd, <- Hlen.
    destruct ((0 <=? k) && (k <? Z.of_nat (length s))) eqn:E.
    + rewrite andb_true_iff, Z.leb_le, Z.ltb_lt in E.
      split; [done|]. intros _. apply lookup_lt_is_Some. lia.
    + rewrite andb_false_iff, Z.leb_gt, Z.ltb_ge in E.
      split; [by intros [? ?]|lia].
  - intros c1 c2 k1 k2 Hc1 Hc2 Hk1 Hk2 Hlt.
    rewrite <- Hperm in Hc1, Hc2.
    apply list_elem_of_lookup in Hc1 as [i1 Hi1].
    apply list_elem_of_lookup in Hc2 as [i2 Hi2].
    rewrite (Hfwd _ _ Hi1) in Hk1. rewrite (Hfwd _ _ Hi2) in Hk2.
    injection Hk1 as <-. injection Hk2 as <-.
    destruct (decide (i1 < i2)%nat) as [|Hge]; [lia|].
    destruct (decide (i1 = i2)) as [->|Hne]; [rewrite Hi1 in Hi2; simplify_eq; lia|].
    assert (StronglySorted Z.le s) by (by apply Sorted_StronglySorted; [apply _|]).
    pose proof (sorted_lookup_le s i2 i1 c2 c1 ltac:(done) ltac:(lia) Hi2 Hi1). lia.
  - intros C' HC'. subst m. unfold create_alberta_label_mapping.
    by rewrite (sorted_classes_unique C' C HC').
Qed.

Lemma label_mapping_contiguous_witness :
  original_to_new (create_alberta_label_mapping [15; 1; 20; 5]) !! 15 = Some 2
  ∧ original_to_new (create_alberta_label_mapping [15; 1; 20; 5]) !! 0
    = Some (-99).
Proof.
  destruct (label_mapping_contiguous [15; 1; 20; 5])
    as (_ & _ & Hzero & Hidx & _).
  - apply (bool_decide_unpack _). vm_compute. reflexivity.
  - apply (bool_decide_unpack _). vm_compute. reflexivity.
  - split; [|exact Hzero].
    apply (proj1 (Hidx 2%nat 15 ltac:(vm_compute; reflexivity))).
Defined.

End LabelMappingClaim.

(** ** Remapping the ground truth *)

Section RemapFacts.

Implicit Types (data acc : array2) (i j : Z).

Lemma to_int16_id v : -32768 ≤ v < 32768 → to_int16 v = v.
Proof. intros H. unfold to_int16. rewrite Z.mod_small by lia. lia. Qed.

Lemma get_full_like data v i j :
  0 ≤ i < nrows data → (∀ r, data !! Z.to_nat i = Some r →
                             0 ≤ j < Z.of_nat (length r)) →
  get (full_like data v) i j = to_int16 v.
Proof.
  intros Hi Hj. destruct (row_exists data i Hi) as [r Hr].
  destruct (cell_exists r j (Hj r Hr)) as [x Hx].
  unfold get, full_like. rewrite list_lookup_fmap, Hr. simpl.
  by rewrite list_lookup_fmap, Hx.
Qed.

Lemma same_rows_full_like data v : same_rows data (full_like data v).
Proof.
  unfold same_rows, full_like. apply Forall2_fmap_r, Forall_Forall2_diag.
  apply Forall_forall. intros r _. simpl. by rewrite length_fmap.
Qed.

Lemma same_rows_assign data acc c n :
  same_rows data acc → same_rows data (assign_where data acc c n).
Proof.
  unfold same_rows, assign_where. intros H.
  induction H as [|r r' d a Hl H IH]; simpl; constructor; [|done].
  rewrite length_zip_with. lia.
Qed.

Lemma get_assign_where data acc c n i j :
  same_rows data acc → rect data →
  0 ≤ i < nrows data → 0 ≤ j < ncols data →
  get (assign_where data acc c n) i j
  = if get data i j =? c then to_int16 n else get acc i j.
Proof.
  intros Hs Hr Hi Hj.
  destruct (row_exists data i Hi) as [r Er].
  pose proof (rect_row _ _ _ Hr Er) as Hl.
  destruct (Forall2_lookup_l _ _ _ _ _ Hs Er) as (r' & Er' & Hl').
  destruct (cell_exists r j ltac:(lia)) as [d Ed].
  destruct (cell_exists r' j ltac:(lia)) as [a Ea].
  unfold get, assign_where.
  rewrite lookup_zip_with, Er, Er'. simpl.
  rewrite lookup_zip_with, Ed, Ea. simpl. done.
Qed.

(** The loop over the items of the mapping, for any order of the items
    with distinct keys. *)
Lemma remap_fold_get data acc (items : list (Z * Z)) i j :
  NoDup items.*1 → same_rows data acc → rect data →
  0 ≤ i < nrows data → 0 ≤ j < ncols data →
  get (foldl (λ acc' (item : Z * Z),
                let '(original_class, new_label) := item in
                assign_where data acc' original_class new_label)
             acc items) i j
  = match (list_to_map items : gmap Z Z) !! get data i j with
    | Some new_label => to_int16 new_label
    | None => get acc i j
    end.
Proof.
  intros Hnd Hs Hr Hi Hj. revert acc Hs.
  induction items as [|[c n] items IH]; intros acc Hs; [done|].
  simpl in Hnd. apply NoDup_cons in Hnd as [Hc Hnd].
  cbn [foldl]. rewrite IH by (done || by apply same_rows_assign).
  cbn [list_to_map foldr uncurry fst snd].
  rewrite get_assign_where by done.
  destruct (decide (get data i j = c)) as [->|Hne].
  - rewrite lookup_insert_eq, Z.eqb_refl.
    by rewrite (not_elem_of_list_to_map_1 _ c Hc).
  - rewrite lookup_insert_ne by done.
    by rewrite (proj2 (Z.eqb_neq _ _) Hne).
Qed.

Lemma get_remap_ground_truth data (mapping : gmap Z Z) i j :
  rect data → 0 ≤ i < nrows data → 0 ≤ j < ncols data →
  get (remap_ground_truth data mapping) i j
  = match mapping !! get data i j with
    | Some new_label => to_int16 new_label
    | None => -99
    end.
Proof.
  intros Hr Hi Hj. unfold remap_ground_truth.
  rewrite remap_fold_get; [|apply NoDup_fst_map_to_list
                           |apply same_rows_full_like|done..].
  rewrite list_to_map_to_list.
  destruct (mapping !! get data i j); [done|].
  rewrite get_full_like; [done|done|].
  intros r Er. pose proof (rect_row _ _ _ Hr Er). lia.
Qed.

End RemapFacts.

Section RemapClaim.

(** C5: the output buffer starts as -99 everywhere; after the remapping a
    pixel whose input value is a code of the mapping holds that code's new
    label (new labels being values an int16 raster can hold), a pixel whose
    input value is 0 holds -99 (the mapping sends 0 to -99 or does not
    mention it), and a pixel whose value the mapping does not mention
    holds -99. *)
Theorem remap_known_codes (data : array2) (mapping : gmap Z Z) (i j : Z) :
  rect data → 0 ≤ i < nrows data → 0 ≤ j < ncols data →
  map_Forall (λ _ k, -32768 ≤ k < 32768) mapping →
  mapping !! 0 = Some (-99) ∨ mapping !! 0 = None →
  get (full_like data (-99)) i j = -99
  ∧ (∀ k, mapping !! get data i j = Some k →
          get (remap_ground_truth data mapping) i j = k)
  ∧ (get data i j = 0 → get (remap_ground_truth data mapping) i j = -99)
  ∧ (mapping !! get data i j = None →
     get (remap_ground_truth data mapping) i j = -99).
Proof.
  intros Hr Hi Hj Hfit H0.
  split; [|split; [|split]].
  - rewrite get_full_like; [done|done|].
    intros r Er. pose proof (rect_row _ _ _ Hr Er). lia.
  - intros k Hk. rewrite get_remap_ground_truth, Hk by done.
    apply to_int16_id. by apply (Hfit _ _ Hk).
  - intros Hz. rewrite get_remap_ground_truth, Hz by done.
    by destruct H0 as [-> | ->].
  - intros Hn. by rewrite get_remap_ground_truth, Hn by done.
Qed.

Lemma remap_known_codes_witness :
  get (remap_ground_truth [[15; 0; 1]; [20; 5; 7]]
                          {[0 := -99; 1 := 0; 5 := 1; 15 := 2; 20 := 3]}) 0 0 = 2
  ∧ get (remap_ground_truth [[15; 0; 1]; [20; 5; 7]]
                            {[0 := -99; 1 := 0; 5 := 1; 15 := 2; 20 := 3]}) 0 1
    = -99.
Proof.
  split.
  - refine (proj1 (proj2 (remap_known_codes
              [[15; 0; 1]; [20; 5; 7]]
              {[0 := -99; 1 := 0; 5 := 1; 15 := 2; 20 := 3]} 0 0 _ _ _ _ _)) 2 _).
    + repeat constructor.
    + concrete_range.
    + concrete_range.
    + apply (bool_decide_unpack _). vm_compute. reflexivity.
    + left. vm_compute. reflexivity.
    + vm_compute. reflexivity.
  - refine (proj1 (proj2 (proj2 (remap_known_codes
              [[15; 0; 1]; [20; 5; 7]]
              {[0 := -99; 1 := 0; 5 := 1; 15 := 2; 20 := 3]} 0 1 _ _ _ _ _))) _).
    + repeat constructor.
    + concrete_range.
    + concrete_range.
    + apply (bool_decide_unpack _). vm_compute. reflexivity.
    + left. vm_compute. reflexivity.
    + vm_compute. reflexivity.
Defined.

(** The remapping with the mapping the pipeline builds from the classes
    found: a pixel holding the k-th code of the ascending order gets the
    label k, a pixel holding 0 gets -99. *)
Lemma remap_with_created_mapping (C : list Z) (data : array2) (i j : Z) :
  NoDup C → 0 ∉ C → Z.of_nat (length C) ≤ 32768 →
  rect data → 0 ≤ i < nrows data → 0 ≤ j < ncols data →
  let m := create_alberta_label_mapping C in
  (∀ k : nat, alberta_classes_sorted m !! k = Some (get data i j) →
     get (remap_ground_truth data (original_to_new m)) i j = Z.of_nat k)
  ∧ (get data i j = 0 →
     get (remap_ground_truth data (original_to_new m)) i j = -99).
Proof.
  intros Hnd H0 Hlen Hr Hi Hj m.
  destruct (created_mapping_forward C Hnd H0) as (Hzero & Hidx & Hcases).
  destruct (create_mapping_fields C) as (_ & _ & Hs).
  fold m in Hzero, Hidx, Hcases, Hs.
  split.
  - intros k Hk. rewrite Hs in Hk.
    rewrite get_remap_ground_truth, (Hidx k _ Hk) by done.
    apply to_int16_id. pose proof (lookup_lt_Some _ _ _ Hk) as Hlt.
    rewrite merge_sort_Permutation in Hlt. lia.
  - intros Hz. by rewrite get_remap_ground_truth, Hz, Hzero by done.
Qed.

End RemapClaim.

(** ** The train/val/test split *)

Section SliceFacts.

Context {A : Type}.
Implicit Types (l : list A) (a b : Z).

Lemma py_index_inside l k :
  0 ≤ k → py_index l k = Z.min k (Z.of_nat (length l)).
Proof.
  intros Hk. unfold py_index. by rewrite (proj2 (Z.ltb_ge _ _)) by lia.
Qed.

Lemma py_slice_prefix l a : 0 ≤ a → py_slice l 0 a = take (Z.to_nat a) l.
Proof.
  intros Ha. unfold py_slice. rewrite !py_index_inside by lia.
  rewrite (Z.min_l 0) by lia. change (Z.to_nat 0) with 0%nat. rewrite drop_0.
  destruct (decide (a ≤ Z.of_nat (length l))).
  - f_equal. lia.
  - rewrite !take_ge by lia. done.
Qed.

Lemma py_slice_middle l a b :
  0 ≤ a → 0 ≤ b →
  py_slice l a (a + b) = take (Z.to_nat b) (drop (Z.to_nat a) l).
Proof.
  intros Ha Hb. unfold py_slice. rewrite !py_index_inside by lia.
  destruct (decide (a + b ≤ Z.of_nat (length l))).
  - do 2 f_equal; lia.
  - destruct (decide (a ≤ Z.of_nat (length l))).
    + rewrite !take_ge by (rewrite length_drop; lia). f_equal. lia.
    + rewrite !drop_ge by lia. by rewrite !take_nil.
Qed.

Lemma py_slice_suffix l a : 0 ≤ a → py_slice_from l a = drop (Z.to_nat a) l.
Proof.
  intros Ha. unfold py_slice_from. rewrite py_index_inside by lia.
  destruct (decide (a ≤ Z.of_nat (length l))).
  - f_equal. lia.
  - rewrite !drop_ge by lia. done.
Qed.

(** Cutting a list at two increasing positions loses and repeats nothing. *)
Lemma py_slice_partition l a b :
  0 ≤ a → 0 ≤ b →
  py_slice l 0 a ++ py_slice l a (a + b) ++ py_slice_from l (a + b) = l.
Proof.
  intros Ha Hb.
  rewrite py_slice_prefix, py_slice_middle, py_slice_suffix by lia.
  replace (Z.to_nat (a + b)) with (Z.to_nat a + Z.to_nat b)%nat by lia.
  rewrite <- drop_drop, take_drop. apply take_drop.
Qed.

Lemma py_slice_lengths l a b :
  0 ≤ a → 0 ≤ b → a + b ≤ Z.of_nat (length l) →
  Z.of_nat (length (py_slice l 0 a)) = a
  ∧ Z.of_nat (length (py_slice l a (a + b))) = b
  ∧ Z.of_nat (length (py_slice_from l (a + b))) = Z.of_nat (length l) - a - b.
Proof.
  intros Ha Hb Hab.
  rewrite py_slice_prefix, py_slice_middle, py_slice_suffix by lia.
  rewrite !length_take, !length_drop. lia.
Qed.

End SliceFacts.

Section SplitSizes.

(** The sizes for every selection of up to 1000 patches, by evaluation of
    the two float products. *)
Lemma sizes_ok_upto (n : Z) : 1 ≤ n ≤ 1000 → sizes_ok n = true.
Proof.
  intros Hn.
  assert (H : forallb sizes_ok (seqZ 1 1000) = true) by (vm_compute; reflexivity).
  rewrite forallb_forall in H. apply H.
  apply list_elem_of_In, elem_of_seqZ. lia.
Qed.

Lemma split_counts_100 : split_counts 100 0.7%float 0.15%float = (70, 15, 15).
Proof. vm_compute. reflexivity. Qed.

Lemma split_counts_2 : split_counts 2 0.7%float 0.15%float = (0, 1, 1).
Proof. vm_compute. reflexivity. Qed.

(** The second corrective move is what empties the training list for two
    patches: before it the sizes are 1, 0 and 1. *)
Lemma split_counts_2_trace :
  py_int (PrimFloat.mul (float_of_Z 2) 0.7%float) = 1
  ∧ py_int (PrimFloat.mul (float_of_Z 2) 0.15%float) = 0.
Proof. vm_compute. split; reflexivity. Qed.

Lemma split_selected_partition (selected : list candidate) :
  sizes_ok (Z.of_nat (length selected)) = true →
  let s := split_selected selected 0.7%float 0.15%float in
  train_patches s ++ val_patches s ++ test_patches s = coords_of <$> selected
  ∧ split_counts (Z.of_nat (length selected)) 0.7%float 0.15%float
    = (Z.of_nat (length (train_patches s)), Z.of_nat (length (val_patches s)),
       Z.of_nat (length (test_patches s))).
Proof.
  unfold sizes_ok, split_selected.
  destruct (split_counts _ _ _) as [[a b] c]. intros Hok. simpl.
  rewrite !andb_true_iff, !Z.leb_le, Z.eqb_eq in Hok.
  destruct Hok as (((Ha & Hb) & Hab) & Hc).
  split.
  - rewrite <- !fmap_app. f_equal. by apply py_slice_partition.
  - rewrite !length_fmap.
    destruct (py_slice_lengths selected a b Ha Hb Hab) as (-> & -> & ->).
    by rewrite Hc.
Qed.

End SplitSizes.

Section SplitClaim.

Variable shuffle : Z → list candidate → list candidate.
Hypothesis shuffle_perm : ∀ c l, shuffle c l ≡ₚ l.

Lemma length_insert_desc x l : length (insert_desc x l) = S (length l).
Proof.
  induction l as [|y l IH]; simpl; [done|].
  destruct (_ <? _); simpl; [done|]. by rewrite IH.
Qed.

Lemma length_sort_desc l : length (sort_desc l) = length l.
Proof.
  unfold sort_desc.
  assert (H : ∀ acc, length (foldl (λ acc x, insert_desc x acc) acc l)
                     = (length acc + length l)%nat).
  { induction l as [|x l IH]; intros acc; simpl; [lia|].
    rewrite IH, length_insert_desc. lia. }
  by rewrite H.
Qed.

Lemma length_selected_for class_id all_patches mppc :
  0 ≤ mppc →
  Z.of_nat (length (selected_for shuffle class_id all_patches mppc))
  = Z.min (Z.of_nat (length all_patches)) mppc.
Proof.
  intros Hm. unfold selected_for. rewrite shuffle_perm.
  rewrite py_slice_prefix by (rewrite length_sort_desc; lia).
  rewrite length_take, !length_sort_desc. lia.
Qed.

(** The cut of the selection of one class. *)
Lemma split_class_partition
      (class_id : Z) (all_patches : list candidate)
      (min_patches_per_class : Z) :
  0 ≤ min_patches_per_class ≤ 1000 →
  let selected := selected_for shuffle class_id all_patches min_patches_per_class in
  let n := Z.of_nat (length selected) in
  let s := split_class shuffle class_id all_patches min_patches_per_class
                       0.7%float 0.15%float in
  let sizes := (Z.of_nat (length (train_patches s)),
                Z.of_nat (length (val_patches s)),
                Z.of_nat (length (test_patches s))) in
  n = Z.min (Z.of_nat (length all_patches)) min_patches_per_class
  ∧ train_patches s ++ val_patches s ++ test_patches s = coords_of <$> selected
  ∧ Z.of_nat (length (train_patches s)) + Z.of_nat (length (val_patches s))
    + Z.of_nat (length (test_patches s)) = n
  ∧ (1 ≤ n → split_counts n 0.7%float 0.15%float = sizes)
  ∧ (n = 100 → sizes = (70, 15, 15))
  ∧ (n = 2 → sizes = (0, 1, 1)).
Proof.
  intros Hm selected n s sizes.
  assert (Hn : n = Z.min (Z.of_nat (length all_patches)) min_patches_per_class)
    by (subst n selected; apply length_selected_for; lia).
  assert (Hcut : train_patches s ++ val_patches s ++ test_patches s
                 = coords_of <$> selected
                 ∧ (1 ≤ n → split_counts n 0.7%float 0.15%float = sizes)).
  { subst s sizes. unfold split_class. rewrite length_sort_desc, <- Hn.
    destruct (n =? 0) eqn:E.
    - apply Z.eqb_eq in E. split; [|lia].
      destruct selected; [done|]. subst n. simpl in E. lia.
    - apply Z.eqb_neq in E.
      destruct (split_selected_partition selected) as [Hp Hc].
      + apply sizes_ok_upto. subst n. lia.
      + by split. }
  destruct Hcut as [Hp Hc].
  split; [done|]. split; [done|]. split; [|split; [done|split]].
  - unfold n. rewrite <- (length_fmap coords_of selected), <- Hp, !length_app.
    lia.
  - intros H100. rewrite <- Hc by lia. rewrite H100. apply split_counts_100.
  - intros H2. rewrite <- Hc by lia. rewrite H2. apply split_counts_2.
Qed.

(** A class without candidates gets three empty lists. *)
Lemma split_class_no_candidates class_id mppc tr vr :
  split_class shuffle class_id [] mppc tr vr = no_patches.
Proof.
  unfold split_class. destruct (_ =? 0) eqn:E; [done|].
  unfold split_selected, selected_for.
  change (sort_desc []) with (@nil candidate).
  assert (Hs : ∀ k, shuffle class_id (py_slice [] 0 k) = []).
  { intros k. apply Permutation_nil_r. rewrite shuffle_perm.
    unfold py_slice. by rewrite drop_nil, take_nil. }
  rewrite Hs. destruct (split_counts _ _ _) as [[a b] c].
  unfold py_slice, py_slice_from. by rewrite !drop_nil, !take_nil.
Qed.

Lemma all_splits_entry abundance_files classes lc_rows lc_cols window_size
      stride mppc tr vr class_id :
  class_id ∈ classes →
  select_and_split_patches_stratified shuffle abundance_files classes lc_rows
    lc_cols window_size stride mppc tr vr !! class_id
  = Some (split_class shuffle class_id
            (candidates_of abundance_files lc_rows lc_cols window_size stride
                           class_id) mppc tr vr).
Proof.
  unfold select_and_split_patches_stratified, candidates_of.
  induction classes as [|c classes IH] using rev_ind; [by intros ?%elem_of_nil|].
  intros Hin. rewrite foldl_snoc.
  destruct (decide (class_id = c)) as [->|Hne].
  - destruct (abundance_files !! c); rewrite lookup_insert_eq; [done|].
    by rewrite split_class_no_candidates.
  - apply elem_of_app in Hin as [Hin|Hin%list_elem_of_singleton]; [|done].
    destruct (abundance_files !! c); rewrite lookup_insert_ne by done;
      by apply IH.
Qed.

(** C8: with the default ratios 0.7 and 0.15 the three lists of a class,
    in the order train, val, test, are the selected (shuffled) list cut in
    two places, so they partition it and their lengths sum to its length n;
    the lengths are the sizes the formula and the two corrective moves
    give; for n = 100 they are 70, 15 and 15, and for n = 2 they are 0, 1
    and 1.  The number of patches selected per class is at most
    [min_patches_per_class], taken up to 1000 here (the pipeline uses
    100). *)
Theorem split_partitions_selected
        (abundance_files : gmap Z array2) (classes : list Z)
        (lc_rows lc_cols window_size stride min_patches_per_class class_id : Z) :
  class_id ∈ classes →
  0 ≤ min_patches_per_class ≤ 1000 →
  let all_patches :=
    candidates_of abundance_files lc_rows lc_cols window_size stride class_id in
  let selected := selected_for shuffle class_id all_patches min_patches_per_class in
  let n := Z.of_nat (length selected) in
  ∃ s : class_split,
    select_and_split_patches_stratified shuffle abundance_files classes lc_rows
      lc_cols window_size stride min_patches_per_class 0.7%float 0.15%float
      !! class_id = Some s
    ∧ train_patches s ++ val_patches s ++ test_patches s = coords_of <$> selected
    ∧ Z.of_nat (length (train_patches s)) + Z.of_nat (length (val_patches s))
      + Z.of_nat (length (test_patches s)) = n
    ∧ (1 ≤ n →
       split_counts n 0.7%float 0.15%float
       = (Z.of_nat (length (train_patches s)), Z.of_nat (length (val_patches s)),
          Z.of_nat (length (test_patches s))))
    ∧ (n = 100 →
       (Z.of_nat (length (train_patches s)), Z.of_nat (length (val_patches s)),
        Z.of_nat (length (test_patches s))) = (70, 15, 15))
    ∧ (n = 2 →
       (Z.of_nat (length (train_patches s)), Z.of_nat (length (val_patches s)),
        Z.of_nat (length (test_patches s))) = (0, 1, 1)).
Proof.
  intros Hin Hm all_patches selected n.
  exists (split_class shuffle class_id all_patches min_patches_per_class
                      0.7%float 0.15%float).
  split; [by apply all_splits_entry|].
  destruct (split_class_partition class_id all_patches min_patches_per_class Hm)
    as (_ & Hp & Hsum & Hc & H100 & H2).
  by repeat split.
Qed.

End SplitClaim.

Lemma split_partitions_selected_witness :
  ∃ s : class_split,
    select_and_split_patches_stratified
      (λ _ l, reverse l) {[3 := [[0; 5]; [0; 0]; [9; 0]]]} [3] 1000 1000 224 204
      100 0.7%float 0.15%float !! 3 = Some s
    ∧ train_patches s ++ val_patches s ++ test_patches s = [(0, 1); (2, 0)]
    ∧ (Z.of_nat (length (train_patches s)), Z.of_nat (length (val_patches s)),
       Z.of_nat (length (test_patches s))) = (0, 1, 1).
Proof.
  destruct (split_partitions_selected (λ _ l, reverse l)
              (λ _ l, reverse_Permutation l)
              {[3 := [[0; 5]; [0; 0]; [9; 0]]]} [3] 1000 1000 224 204 100 3
              ltac:(by left) ltac:(lia)) as (s & Hs & Hp & _ & _ & _ & H2).
  exists s. split; [exact Hs|]. split; [exact Hp|]. apply H2. reflexivity.
Defined.

(** ** Band stacking *)

Section StackFacts.

Variable s : sensor.
Variable files : fs.

Abbreviation band_path := (λ band : string,
                             path_join (input_dir s) (band_file_name s band)).

(** The loop over the bands: the files found, the bands missing, and one
    line per band, all in band order. *)
Lemma collect_fold (bands : list string)
      (acc : list string * list string * list string) :
  foldl (λ (acc : list string * list string * list string) (band : string),
           let '(band_files, missing_bands, log) := acc in
           let input_file := path_join (input_dir s) (band_file_name s band) in
           if decide (input_file ∈ files) then
             (band_files ++ [input_file], missing_bands,
              log ++ ["✓ Found band " +:+ band +:+ ": " +:+ band_file_name s band])
           else
             (band_files, missing_bands ++ [band],
              log ++ ["✗ Missing band " +:+ band +:+ ": " +:+ band_file_name s band]))
        acc bands
  = (acc.1.1 ++ (band_path <$> filter (λ b, band_path b ∈ files) bands),
     acc.1.2 ++ filter (λ b, band_path b ∉ files) bands,
     acc.2 ++ ((λ band : string,
                  (if decide (band_path band ∈ files)
                   then "✓ Found band " else "✗ Missing band ")
                  +:+ band +:+ ": " +:+ band_file_name s band) <$> bands)).
Proof.
  revert acc. induction bands as [|b bands IH]; intros [[bf mb] lg].
  - simpl. by rewrite !app_nil_r.
  - cbn [foldl]. destruct (decide (band_path b ∈ files)) as [Hin|Hout].
    + rewrite IH. cbn [fst snd].
      rewrite filter_cons_True, (filter_cons_False (λ b, band_path b ∉ files))
        by (done || by intros ?).
      rewrite fmap_cons, <- !app_assoc. simpl.
      by destruct (decide (band_path b ∈ files)).
    + rewrite IH. cbn [fst snd].
      rewrite filter_cons_False, (filter_cons_True (λ b, band_path b ∉ files))
        by done.
      rewrite fmap_cons, <- !app_assoc. simpl.
      by destruct (decide (band_path b ∈ files)).
Qed.

Lemma collect_band_files_spec :
  collect_band_files s files
  = (band_path <$> filter (λ b, band_path b ∈ files) (band_names s),
     filter (λ b, band_path b ∉ files) (band_names s),
     (λ band : string,
        (if decide (band_path band ∈ files)
         then "✓ Found band " else "✗ Missing band ")
        +:+ band +:+ ": " +:+ band_file_name s band) <$> band_names s).
Proof. unfold collect_band_files. by rewrite collect_fold. Qed.

(** With a band missing the function returns [False] after the two lines of
    the error, leaves the file system as it was, and never calls the raster
    library. *)
Lemma stack_bands_missing (g : gdal) :
  let missing := filter (λ b, band_path b ∉ files) (band_names s) in
  missing ≠ [] →
  (∃ log,
     stack_bands g s files
     = (false, files,
        log ++ [ nl +:+ "ERROR: Missing " +:+ pretty (length missing)
                    +:+ " band(s): " +:+ py_list_repr missing;
                 "Please make sure all bands are clipped before stacking." ])
     ∧ length log = (8 + length (band_names s))%nat)
  ∧ (∀ g' : gdal, stack_bands g' s files = stack_bands g s files).
Proof.
  intros missing Hm. unfold stack_bands. rewrite collect_band_files_spec.
  fold missing. destruct missing as [|b m] eqn:E; [done|].
  split; [|done]. eexists. split; [reflexivity|].
  rewrite length_app, length_fmap. done.
Qed.

End StackFacts.

Section StackClaim.

Lemma stack_bands_aborts (g : gdal) (s : sensor) (files : fs) (band : string) :
  band ∈ band_names s →
  path_join (input_dir s) (band_file_name s band) ∉ files →
  band ∈ missing_in s files
  ∧ aborted_with (stack_bands g s files) files (missing_in s files)
                 (length (band_names s))
  ∧ (∀ g' : gdal, stack_bands g' s files = stack_bands g s files).
Proof.
  intros Hb Hf.
  assert (Hin : band ∈ missing_in s files)
    by (unfold missing_in; by apply list_elem_of_filter).
  split; [done|].
  destruct (stack_bands_missing s files g) as [Hres Hg].
  - fold (missing_in s files). intros E. rewrite E in Hin. by inversion Hin.
  - split; [exact Hres|exact Hg].
Qed.

(** C9: the stacking function of Landsat-8 looks for the clipped file of
    each of its 6 bands, that of Sentinel-2 for each of its 10 bands, before
    anything is written.  When the file of some band is missing the function
    returns [False], its last lines are the error that enumerates the
    missing bands (the band among them), the file system is unchanged, so
    neither the stacked file nor the temporary VRT is created, and the
    raster library is never called: the run is the same whatever that
    library would do. *)
Theorem stacking_aborts_on_missing_band (g : gdal) (files : fs) :
  length landsat_bands = 6%nat ∧ length sentinel_bands = 10%nat
  ∧ (∀ band : string,
       band ∈ landsat_bands →
       path_join (input_dir landsat8) (band_file_name landsat8 band) ∉ files →
       band ∈ missing_in landsat8 files
       ∧ aborted_with (stack_landsat_bands g files) files
                      (missing_in landsat8 files) 6
       ∧ (∀ g' : gdal, stack_landsat_bands g' files = stack_landsat_bands g files))
  ∧ (∀ band : string,
       band ∈ sentinel_bands →
       path_join (input_dir sentinel2) (band_file_name sentinel2 band) ∉ files →
       band ∈ missing_in sentinel2 files
       ∧ aborted_with (stack_sentinel2_bands g files) files
                      (missing_in sentinel2 files) 10
       ∧ (∀ g' : gdal,
            stack_sentinel2_bands g' files = stack_sentinel2_bands g files)).
Proof.
  split; [done|]. split; [done|]. split.
  - intros band Hb Hf.
    by apply (stack_bands_aborts g landsat8 files band).
  - intros band Hb Hf.
    by apply (stack_bands_aborts g sentinel2 files band).
Qed.

Lemma stacking_aborts_on_missing_band_witness :
  aborted_with
    (stack_landsat_bands
       {| BuildVRT := λ f v _, (f ∪ {[v]}, Done ());
          Translate := λ f o _, (f ∪ {[o]}, Done ());
          report := λ _ _, Done [] |} ∅)
    ∅ (missing_in landsat8 ∅) 6.
Proof.
  destruct (stacking_aborts_on_missing_band
              {| BuildVRT := λ f v _, (f ∪ {[v]}, Done ());
                 Translate := λ f o _, (f ∪ {[o]}, Done ());
                 report := λ _ _, Done [] |} ∅) as (_ & _ & HL & _).
  refine (proj1 (proj2 (HL "SR_B2" _ _))).
  - by left.
  - apply not_elem_of_empty.
Defined.

End StackClaim.

(** ** Patch extraction: which file holds what *)

Section PatchFiles.

Context {S V : Type}.
Variable proj : S → gmap (Z * Z) V.
Variable f : S → Z → Z * (Z * Z) → S.
Variable patch : Z → Z → option V.

(** One patch location either adds its file under the key
    [(class_id, patch_idx)] or leaves the files as they are. *)
Hypothesis f_spec : ∀ acc c idx i j,
  proj (f acc c (idx, (i, j)))
  = match patch i j with
    | Some v => <[(c, idx) := v]> (proj acc)
    | None => proj acc
    end.

Lemma class_loop_files (c : Z) (coords : list (Z * Z)) (acc : S)
      (c' : Z) (k : nat) :
  proj (foldl (λ acc' entry, f acc' c entry) acc (enumerate coords))
    !! (c', Z.of_nat k)
  = if decide (c' = c) then
      match coords !! k with
      | Some (i, j) =>
          match patch i j with
          | Some v => Some v
          | None => proj acc !! (c', Z.of_nat k)
          end
      | None => proj acc !! (c', Z.of_nat k)
      end
    else proj acc !! (c', Z.of_nat k).
Proof.
  induction coords as [|[i0 j0] l IH] using rev_ind.
  - simpl. by destruct (decide (c' = c)).
  - rewrite enumerate_snoc, foldl_snoc, f_spec.
    destruct (decide (c' = c ∧ k = length l)) as [[-> ->]|Hne].
    + rewrite decide_True by done.
      rewrite decide_True in IH by done.
      rewrite lookup_app_r, Nat.sub_diag by lia. simpl.
      destruct (patch i0 j0) as [v|].
      * by rewrite lookup_insert_eq.
      * rewrite IH. by rewrite (proj2 (lookup_ge_None l (length l))) by lia.
    + assert (Hl : (l ++ [(i0, j0)]) !! k = l !! k ∨ c' ≠ c).
      { destruct (decide (c' = c)) as [->|]; [|by right]. left.
        destruct (decide (k < length l)%nat); [by rewrite lookup_app_l|].
        rewrite !(proj2 (lookup_ge_None _ _)); [done|lia|].
        rewrite length_app. simpl. lia. }
      assert (Hk : proj (foldl (λ acc' entry, f acc' c entry) acc (enumerate l))
                     !! (c', Z.of_nat k)
                   = match patch i0 j0 with
                     | Some v =>
                         <[(c, Z.of_nat (length l)) := v]>
                           (proj (foldl (λ acc' entry, f acc' c entry) acc
                                        (enumerate l)))
                     | None =>
                         proj (foldl (λ acc' entry, f acc' c entry) acc
                                     (enumerate l))
                     end !! (c', Z.of_nat k)).
      { destruct (patch i0 j0); [|done].
        rewrite lookup_insert_ne; [done|]. intros [= -> ?]. apply Hne. lia. }
      rewrite <- Hk, IH.
      destruct (decide (c' = c)); [|done].
      destruct Hl as [-> | ?]; done.
Qed.

Lemma all_classes_files (items : list (Z * list (Z * Z))) (acc : S)
      (c : Z) (coords : list (Z * Z)) (k : nat) (i j : Z) :
  NoDup items.*1 → (c, coords) ∈ items → coords !! k = Some (i, j) →
  proj (foldl (λ acc' (item : Z * list (Z * Z)),
                 let '(class_id, coords') := item in
                 foldl (λ acc'' entry, f acc'' class_id entry) acc'
                       (enumerate coords'))
              acc items) !! (c, Z.of_nat k)
  = match patch i j with
    | Some v => Some v
    | None => proj acc !! (c, Z.of_nat k)
    end.
Proof.
  intros Hnd Hin Hk. revert acc.
  assert (Hother : ∀ (its : list (Z * list (Z * Z))) acc,
             c ∉ its.*1 →
             proj (foldl (λ acc' (item : Z * list (Z * Z)),
                            let '(class_id, coords') := item in
                            foldl (λ acc'' entry, f acc'' class_id entry) acc'
                                  (enumerate coords'))
                         acc its) !! (c, Z.of_nat k)
             = proj acc !! (c, Z.of_nat k)).
  { induction its as [|[c0 l0] its IH]; intros acc Hc; [done|].
    cbn [foldl]. rewrite IH by (intros ?; apply Hc; by right).
    rewrite class_loop_files, decide_False; [done|].
    intros ->. apply Hc. by left. }
  induction items as [|[c0 l0] items IH]; intros acc; [by inversion Hin|].
  simpl in Hnd. apply NoDup_cons in Hnd as [Hc0 Hnd]. cbn [foldl].
  apply elem_of_cons in Hin as [[= <- <-]|Hin].
  - rewrite Hother by done.
    by rewrite class_loop_files, decide_True, Hk by done.
  - rewrite IH by done.
    rewrite class_loop_files, decide_False; [done|].
    intros ->. apply Hc0. apply list_elem_of_fmap. by exists (c0, coords).
Qed.

End PatchFiles.

Section ExtractionFacts.

Implicit Types (sensor lc : dataset) (i j : Z).

Lemma read_window band window_size stride i j (p : array2) :
  (patch ← ReadAsArray band (j * stride) (i * stride) window_size window_size;
   if has_shape patch window_size window_size then Some patch else None)
  = Some p →
  p = window_at band window_size stride i j.
Proof.
  unfold ReadAsArray, window_at.
  destruct (_ && _); [|done]. simpl.
  destruct (has_shape _ _ _); [|done]. by intros [= <-].
Qed.

Lemma sensor_patch_Some sensor window_size stride i j (img : geotiff) :
  sensor_patch sensor (RasterCount sensor) window_size stride i j = Some img →
  tif_bands img
  = (λ band, clip_uint8 (window_at band window_size stride i j))
      <$> ds_bands sensor
  ∧ tif_gt img = patch_gt (ds_gt sensor) (j * stride) (i * stride)
  ∧ tif_projection img = ds_projection sensor.
Proof.
  unfold sensor_patch. rewrite Z.ltb_irrefl.
  unfold RasterCount. rewrite Nat2Z.id, firstn_all.
  destruct (mapM _ (ds_bands sensor)) as [bands_data|] eqn:E; [|done].
  simpl. apply mapM_Some in E.
  assert (Hb : bands_data
               = (λ band, window_at band window_size stride i j)
                   <$> ds_bands sensor).
  { induction E as [|band p bands ps Hp E IH]; [done|].
    csimpl. f_equal; [by apply read_window|done]. }
  destruct bands_data as [|b bs]; [done|]. intros [= <-].
  cbn [tif_bands tif_gt tif_projection].
  split; [|done].
  change (clip_uint8 <$> b :: bs
          = (λ band, clip_uint8 (window_at band window_size stride i j))
              <$> ds_bands sensor).
  rewrite Hb. by rewrite <- list_fmap_compose.
Qed.

Lemma label_patch_Some (lcf lcu : array2) gt projection window_size stride i j
      (f u : geotiff) :
  label_patch lcf lcu gt projection window_size stride i j = Some (f, u) →
  tif_bands f = [astype_int16 (window_at lcf window_size stride i j)]
  ∧ tif_bands u = [astype_int16 (window_at lcu window_size stride i j)]
  ∧ tif_gt f = patch_gt gt (j * stride) (i * stride)
  ∧ tif_gt u = patch_gt gt (j * stride) (i * stride).
Proof.
  unfold label_patch, ReadAsArray, window_at.
  destruct (_ && _); [|done].
  destruct (_ && _); [|done].
  destruct (has_shape _ _ _); [|done]. by intros [= <- <-].
Qed.

Lemma sensor_files_lookup sensor (locations : gmap Z (list (Z * Z)))
      window_size stride num_bands c (coords : list (Z * Z)) (k : nat) i j :
  locations !! c = Some coords → coords !! k = Some (i, j) →
  (extract_patches_for_sensor sensor locations window_size stride num_bands).2
    !! (c, Z.of_nat k)
  = sensor_patch sensor num_bands window_size stride i j.
Proof.
  intros Hc Hk. unfold extract_patches_for_sensor.
  etrans.
  - apply (all_classes_files
             snd
             (λ (acc' : Z * gmap (Z * Z) geotiff) (class_id : Z)
                (entry : Z * (Z * Z)),
                let '(total_extracted, files) := acc' in
                let '(patch_idx, (i, j)) := entry in
                match sensor_patch sensor num_bands window_size stride i j with
                | Some tif =>
                    (total_extracted + 1, <[(class_id, patch_idx) := tif]> files)
                | None => acc'
                end)
             (sensor_patch sensor num_bands window_size stride)
             ltac:(intros [t fl] c' idx i' j'; simpl;
                   by destruct (sensor_patch _ _ _ _ _ _))
             (map_to_list locations) (0, ∅) c coords k i j).
    + apply NoDup_fst_map_to_list.
    + by apply elem_of_map_to_list.
    + done.
  - simpl. by destruct (sensor_patch _ _ _ _ _ _).
Qed.

Lemma label_files_lookup (lcf lcu : dataset)
      (locations : gmap Z (list (Z * Z)))
      window_size stride c (coords : list (Z * Z)) (k : nat) i j :
  locations !! c = Some coords → coords !! k = Some (i, j) →
  let files := extract_label_patches lcf lcu locations window_size stride in
  let p := label_patch (default [] (ds_bands lcf !! 0%nat))
                       (default [] (ds_bands lcu !! 0%nat))
                       (ds_gt lcf) (ds_projection lcf) window_size stride i j in
  files.1 !! (c, Z.of_nat k) = fst <$> p
  ∧ files.2 !! (c, Z.of_nat k) = snd <$> p.
Proof.
  intros Hc Hk files p. subst files. unfold extract_label_patches.
  set (F := λ (acc' : gmap (Z * Z) geotiff * gmap (Z * Z) geotiff)
              (class_id : Z) (entry : Z * (Z * Z)),
              let '(filtered, unfiltered) := acc' in
              let '(patch_idx, (i, j)) := entry in
              match label_patch (default [] (ds_bands lcf !! 0%nat))
                      (default [] (ds_bands lcu !! 0%nat))
                      (ds_gt lcf) (ds_projection lcf) window_size stride i j with
              | Some (f, u) =>
                  (<[(class_id, patch_idx) := f]> filtered,
                   <[(class_id, patch_idx) := u]> unfiltered)
              | None => acc'
              end).
  split.
  - etrans.
    + apply (all_classes_files
               fst F
               (λ i j, fst <$> label_patch (default [] (ds_bands lcf !! 0%nat))
                         (default [] (ds_bands lcu !! 0%nat))
                         (ds_gt lcf) (ds_projection lcf) window_size stride i j)
               ltac:(intros [a b] c' idx i' j'; subst F; cbn beta iota;
                     by destruct (label_patch _ _ _ _ _ _ i' j') as [[? ?]|])
               (map_to_list locations) (∅, ∅) c coords k i j);
        [apply NoDup_fst_map_to_list|by apply elem_of_map_to_list|done].
    + subst p. simpl. by destruct (label_patch _ _ _ _ _ _ _) as [[? ?]|].
  - etrans.
    + apply (all_classes_files
               snd F
               (λ i j, snd <$> label_patch (default [] (ds_bands lcf !! 0%nat))
                         (default [] (ds_bands lcu !! 0%nat))
                         (ds_gt lcf) (ds_projection lcf) window_size stride i j)
               ltac:(intros [a b] c' idx i' j'; subst F; cbn beta iota;
                     by destruct (label_patch _ _ _ _ _ _ i' j') as [[? ?]|])
               (map_to_list locations) (∅, ∅) c coords k i j);
        [apply NoDup_fst_map_to_list|by apply elem_of_map_to_list|done].
    + subst p. simpl. by destruct (label_patch _ _ _ _ _ _ _) as [[? ?]|].
Qed.

Lemma origin_patch_gt gt x y :
  origin (patch_gt gt x y)
  = (let '(g0, g1, g3, g5) := origin_coeffs gt in
     (PrimFloat.add g0 (PrimFloat.mul (float_of_Z x) g1),
      PrimFloat.add g3 (PrimFloat.mul (float_of_Z y) g5))).
Proof. by destruct gt as [[[[[g0 g1] g2] g3] g4] g5]. Qed.

End ExtractionFacts.

Section ExtractionClaim.

Lemma multisensor_sensor_files (sensors : gmap string dataset)
      (lc_filtered lc_unfiltered : dataset)
      (locations : gmap Z (list (Z * Z))) (window_size stride : Z)
      (name : string) (files : gmap (Z * Z) geotiff) :
  sensor_files (extract_patches_multisensor sensors lc_filtered lc_unfiltered
                                            locations window_size stride)
    !! name = Some files →
  ∃ sensor, sensors !! name = Some sensor
            ∧ files = (extract_patches_for_sensor sensor locations window_size
                         stride (RasterCount sensor)).2.
Proof.
  unfold extract_patches_multisensor. cbn [sensor_files].
  rewrite !lookup_fmap. destruct (sensors !! name) as [sensor|]; [|done].
  simpl. intros [= <-]. by exists sensor.
Qed.

Lemma multisensor_label_files (sensors : gmap string dataset)
      (lc_filtered lc_unfiltered : dataset)
      (locations : gmap Z (list (Z * Z))) (window_size stride : Z)
      (filtered unfiltered : gmap (Z * Z) geotiff) :
  label_files (extract_patches_multisensor sensors lc_filtered lc_unfiltered
                                           locations window_size stride)
  = Some (filtered, unfiltered) →
  (filtered, unfiltered)
  = extract_label_patches lc_filtered lc_unfiltered locations window_size stride.
Proof.
  unfold extract_patches_multisensor. cbn [label_files].
  destruct (decide _); [done|]. by intros [= <-].
Qed.

(** C2 as stated fails: a sensor that passes the verification
    without even a warning, its origin 2^-11 off that of the land cover,
    gets image patches whose origin differs from that of the label
    patches. *)
Lemma origins_identical_fails :
  (verify_sensor_dimensions {["landsat8" := shifted_sensor_example]} lc_example)
  = ({["landsat8" := shifted_sensor_example]}, [])
  ∧ ¬ origins_identical
        (verify_sensor_dimensions {["landsat8" := shifted_sensor_example]}
                                  lc_example).1
        lc_example lc_example {[0 := [(1, 1)]]} 1 1.
Proof.
  split; [vm_compute; reflexivity|].
  intros H. unfold origins_identical in H.
  pose (files := (extract_patches_for_sensor shifted_sensor_example
                    {[0 := [(1, 1)]]} 1 1 2).2).
  pose (labels := extract_label_patches lc_example lc_example
                    {[0 := [(1, 1)]]} 1 1).
  pose (img := {| tif_bands := [[[40]]; [[80]]];
                  tif_gt := patch_gt (ds_gt shifted_sensor_example) 1 1;
                  tif_projection := "EPSG:3979" |}).
  pose (lab := {| tif_bands := [[[4]]];
                  tif_gt := patch_gt (ds_gt lc_example) 1 1;
                  tif_projection := "EPSG:3979" |}).
  assert (E : origin (tif_gt img) = origin (tif_gt lab)).
  { apply (H "landsat8" files labels.1 labels.2 (0, 0) img lab).
    - vm_compute. reflexivity.
    - vm_compute. reflexivity.
    - vm_compute. reflexivity.
    - left. vm_compute. reflexivity. }
  apply (f_equal (λ o : float * float, PrimFloat.eqb o.1 30%float)) in E.
  vm_compute in E. discriminate.
Qed.

End ExtractionClaim.

Section ExtractionAmended.

(** C2, as amended: for every patch location of a split every sensor's
    image patch and both label patches are cut at the same pixel offset
    [x = col_idx*stride], [y = row_idx*stride], and each written
    geotransform origin is [(gt[0] + x*gt[1], gt[3] + y*gt[5])] for the
    geotransform [gt] of the raster the writer took it from: the sensor's
    own raster for an image patch, the filtered land cover for both label
    patches.  The two label patches therefore have the same origin, and a
    sensor patch has it too whenever the sensor's coefficients [gt[0]],
    [gt[1]], [gt[3]], [gt[5]] are those of the filtered land cover. *)
Theorem patches_share_offset_and_formula
        (sensors : gmap string dataset) (lc_filtered lc_unfiltered : dataset)
        (patch_locations : gmap Z (list (Z * Z)))
        (window_size stride class_id : Z) (coords : list (Z * Z))
        (patch_idx : nat) (row_idx col_idx : Z) :
  patch_locations !! class_id = Some coords →
  coords !! patch_idx = Some (row_idx, col_idx) →
  let out := extract_patches_multisensor sensors lc_filtered lc_unfiltered
                                         patch_locations window_size stride in
  let key := (class_id, Z.of_nat patch_idx) in
  let x := col_idx * stride in
  let y := row_idx * stride in
  (∀ (name : string) (files : gmap (Z * Z) geotiff) (img : geotiff),
     sensor_files out !! name = Some files → files !! key = Some img →
     ∃ sensor : dataset,
       sensors !! name = Some sensor
       ∧ tif_bands img
         = (λ band, clip_uint8 (window_at band window_size stride row_idx col_idx))
             <$> ds_bands sensor
       ∧ tif_gt img = patch_gt (ds_gt sensor) x y)
  ∧ (∀ (filtered unfiltered : gmap (Z * Z) geotiff) (lab : geotiff),
       label_files out = Some (filtered, unfiltered) →
       (filtered !! key = Some lab →
        tif_bands lab
        = [astype_int16 (window_at (default [] (ds_bands lc_filtered !! 0%nat))
                                   window_size stride row_idx col_idx)]
        ∧ tif_gt lab = patch_gt (ds_gt lc_filtered) x y)
       ∧ (unfiltered !! key = Some lab →
          tif_bands lab
          = [astype_int16 (window_at (default [] (ds_bands lc_unfiltered !! 0%nat))
                                     window_size stride row_idx col_idx)]
          ∧ tif_gt lab = patch_gt (ds_gt lc_filtered) x y))
  ∧ (∀ (name : string) (sensor : dataset)
       (files filtered unfiltered : gmap (Z * Z) geotiff) (img lab : geotiff),
       sensors !! name = Some sensor →
       origin_coeffs (ds_gt sensor) = origin_coeffs (ds_gt lc_filtered) →
       sensor_files out !! name = Some files → files !! key = Some img →
       label_files out = Some (filtered, unfiltered) →
       filtered !! key = Some lab ∨ unfiltered !! key = Some lab →
       origin (tif_gt img) = origin (tif_gt lab)).
Proof.
  intros Hc Hk out key x y.
  assert (Hsensor : ∀ name files img,
            sensor_files out !! name = Some files → files !! key = Some img →
            ∃ sensor, sensors !! name = Some sensor
              ∧ tif_bands img
                = (λ band, clip_uint8 (window_at band window_size stride
                                                 row_idx col_idx))
                    <$> ds_bands sensor
              ∧ tif_gt img = patch_gt (ds_gt sensor) x y).
  { intros name files img Hf Hi.
    apply multisensor_sensor_files in Hf as (sensor & Hs & ->).
    exists sensor. split; [done|]. subst key.
    rewrite (sensor_files_lookup _ _ _ _ _ _ _ _ _ _ Hc Hk) in Hi.
    apply sensor_patch_Some in Hi as (Hb & Hg & _). by split. }
  assert (Hlabel : ∀ filtered unfiltered lab,
            label_files out = Some (filtered, unfiltered) →
            (filtered !! key = Some lab →
             tif_bands lab
             = [astype_int16 (window_at (default [] (ds_bands lc_filtered !! 0%nat))
                                        window_size stride row_idx col_idx)]
             ∧ tif_gt lab = patch_gt (ds_gt lc_filtered) x y)
            ∧ (unfiltered !! key = Some lab →
               tif_bands lab
               = [astype_int16
                    (window_at (default [] (ds_bands lc_unfiltered !! 0%nat))
                               window_size stride row_idx col_idx)]
               ∧ tif_gt lab = patch_gt (ds_gt lc_filtered) x y)).
  { intros filtered unfiltered lab Hl.
    apply multisensor_label_files in Hl.
    destruct (label_files_lookup lc_filtered lc_unfiltered patch_locations
                window_size stride class_id coords patch_idx row_idx col_idx
                Hc Hk) as [H1 H2].
    rewrite <- Hl in H1, H2. cbn [fst snd] in H1, H2. subst key.
    destruct (label_patch _ _ _ _ _ _ row_idx col_idx) as [[f u]|] eqn:E.
    - apply label_patch_Some in E as (Hf & Hu & Hgf & Hgu).
      split; intros Hlab.
      + rewrite H1 in Hlab. injection Hlab as <-. by split.
      + rewrite H2 in Hlab. injection Hlab as <-. by split.
    - split; intros Hlab; [by rewrite H1 in Hlab|by rewrite H2 in Hlab]. }
  split; [exact Hsensor|]. split; [exact Hlabel|].
  intros name sensor files filtered unfiltered img lab Hs Hco Hf Hi Hl Hlab.
  destruct (Hsensor name files img Hf Hi) as (sensor' & Hs' & _ & Hg).
  rewrite Hs in Hs'. injection Hs' as <-.
  destruct (Hlabel filtered unfiltered lab Hl) as [Hfl Hul].
  assert (Hgl : tif_gt lab = patch_gt (ds_gt lc_filtered) x y)
    by (destruct Hlab as [Hlab|Hlab]; [by apply Hfl|by apply Hul]).
  by rewrite Hg, Hgl, !origin_patch_gt, Hco.
Qed.

Lemma patches_share_offset_and_formula_witness :
  origin (tif_gt {| tif_bands := [[[40]]; [[80]]];
                    tif_gt := patch_gt (ds_gt aligned_sensor_example) 1 1;
                    tif_projection := "EPSG:3979" |})
  = origin (tif_gt {| tif_bands := [[[4]]];
                      tif_gt := patch_gt (ds_gt lc_example) 1 1;
                      tif_projection := "EPSG:3979" |}).
Proof.
  refine (proj2 (proj2 (patches_share_offset_and_formula
                          {["landsat8" := aligned_sensor_example]}
                          lc_example lc_example {[0 := [(1, 1)]]} 1 1 0
                          [(1, 1)] 0%nat 1 1 _ _))
                "landsat8" aligned_sensor_example
                (extract_patches_for_sensor aligned_sensor_example
                   {[0 := [(1, 1)]]} 1 1 2).2
                (extract_label_patches lc_example lc_example
                   {[0 := [(1, 1)]]} 1 1).1
                (extract_label_patches lc_example lc_example
                   {[0 := [(1, 1)]]} 1 1).2
                _ _ _ _ _ _ _ (or_introl _)).
  - vm_compute. reflexivity.
  - reflexivity.
  - vm_compute. reflexivity.
  - reflexivity.
  - vm_compute. reflexivity.
  - vm_compute. reflexivity.
  - vm_compute. reflexivity.
  - vm_compute. reflexivity.
Defined.

End ExtractionAmended.

(** ** Abundance maps across batch seams *)

Section AbundanceSeam.

(** A small instance of the seam: a 7x5 raster of class 0 apart from four
    pixels, windows of side 3 every 2 pixels, batches of side 4.  The
    window of cell (1, 0) covers rows 2..4; row 4 lies in the second batch
    of rows, whose cells start at [4 // 2 = 2], so its three pixels are
    never counted. *)
Example abundance_seam_small :
  let raster := [[0; 0; 1; 1; 0]; [0; 0; 1; 1; 0]; [0; 0; 0; 0; 0];
                 [0; 0; 0; 0; 0]; [0; 0; 0; 0; 0]; [0; 0; 0; 0; 0];
                 [0; 0; 0; 0; 0]] in
  full_abundance_for_class raster 0 3 1 4 = Some [[7; 2]; [6; 4]; [9; 6]]
  ∧ full_abundance_for_class raster 0 3 1 8 = Some [[7; 5]; [9; 9]; [9; 9]]
  ∧ window_count raster 0 3 2 1 0 = 9.
Proof. vm_compute. repeat split; reflexivity. Qed.

(** C1: with the parameters of the pipeline (window 224, overlap 20, hence
    stride 204, batches of 2048) and a raster of 2264 rows by 224 columns
    whose pixels all hold class 0, the window of cell (9, 0) covers rows
    1836..2059 and holds 224 * 224 = 50176 pixels of the class.  The first
    batch of rows contributes the 212 rows below 2048; the second batch
    starts its cells at [2048 // 204 = 10] and never visits cell 9, so the
    cell ends with 212 * 224 = 47488.  With one batch of 4096 the same
    cell holds 50176: the value written depends on the batch size. *)
Theorem abundance_seam_drops_pixels :
  let raster := full 2264 224 0 in
  let written (batch_size : Z) : option (option Z) :=
    (λ r : gmap Z array2 * (list Z * Z * Z * Z),
       (λ a : array2, get a 9 0) <$> r.1 !! 0)
      <$> create_abundance_maps_batched raster ∅ 224 20 batch_size in
  window_count raster 0 224 (224 - 20) 9 0 = 50176
  ∧ written 2048 = Some (Some 47488)
  ∧ written 4096 = Some (Some 50176).
Proof. vm_compute. repeat split; reflexivity. Qed.

End AbundanceSeam.

(** ** Abundance maps of a raster that fits in one batch *)

Section AbundanceSingleBatch.

Implicit Types (a src : array2) (i j : Z).








End AbundanceSingleBatch.

(** ** What the filter never does *)

Section FilterInvariants.

Implicit Types (src : array2) (mh : float).

(** The batched filter is the in-memory filter on the whole raster. *)
Lemma filter_batched_whole src mh bs :
  rect src → 0 < bs →
  apply_strict_majority_filter_batched src mh bs
  = apply_strict_majority_filter_numba src mh.
Proof.
  intros Hrect Hbs. unfold apply_strict_majority_filter_batched.
  rewrite half_kernel_value.
  destruct (filter_batched_shape src mh bs 4) as (Hr & Hn & Hc).
  apply array_ext; [done|apply rect_filter|by rewrite nrows_filter
                   |by rewrite ncols_filter|].
  rewrite Hn, Hc. intros i j Hi Hj.
  apply (filter_batched_cell src mh bs 4 Hrect Hbs ltac:(lia)
           (λ v, v = get (apply_strict_majority_filter_numba src mh) i j)
           i j Hi Hj).
  intros batch_y batch_x Hby Hby' Hbx Hbx' [Hci Hcj].
  rewrite get_filter by done. unfold batch_value_of.
  apply filter_pixel_slice2; rewrite ?half_kernel_value; lia.
Qed.

Lemma filter_shape src mh :
  same_shape_as src (apply_strict_majority_filter_numba src mh).
Proof.
  split; [apply rect_filter|]. by rewrite nrows_filter, ncols_filter.
Qed.

(** X1: the filter never invents a label.  The in-memory filter and the
    batched one return a raster of the shape of the input, and every pixel
    of the output holds the value the input has there or the background
    value -99, for every homogeneity and every positive batch size. *)
Theorem filter_never_invents_labels src mh (batch_size i j : Z) :
  rect src → 0 < batch_size →
  0 ≤ i < nrows src → 0 ≤ j < ncols src →
  let whole := apply_strict_majority_filter_numba src mh in
  let batched := apply_strict_majority_filter_batched src mh batch_size in
  same_shape_as src whole ∧ same_shape_as src batched
  ∧ (get whole i j = get src i j ∨ get whole i j = -99)
  ∧ (get batched i j = get src i j ∨ get batched i j = -99).
Proof.
  intros Hrect Hbs Hi Hj whole batched.
  assert (Hw : get whole i j = get src i j ∨ get whole i j = -99).
  { subst whole. rewrite get_filter by done. apply filter_pixel_cases. }
  assert (Hb : batched = whole) by (by apply filter_batched_whole).
  rewrite Hb. repeat split; try apply filter_shape; done.
Qed.

Lemma filter_never_invents_labels_witness :
  get (apply_strict_majority_filter_batched
         [[1; 1; -99]; [1; 1; 1]; [1; 1; 1]] 0.8%float 2) 1 1
  = get [[1; 1; -99]; [1; 1; 1]; [1; 1; 1]] 1 1
  ∨ get (apply_strict_majority_filter_batched
           [[1; 1; -99]; [1; 1; 1]; [1; 1; 1]] 0.8%float 2) 1 1 = -99.
Proof.
  refine (proj2 (proj2 (proj2 (filter_never_invents_labels
                                 [[1; 1; -99]; [1; 1; 1]; [1; 1; 1]] 0.8%float
                                 2 1 1 _ _ _ _)))).
  - repeat constructor.
  - lia.
  - concrete_range.
  - concrete_range.
Defined.

(** The window of a pixel of a raster with at most 7 rows or at most 7
    columns has at most 63 cells. *)
Lemma small_window_cells rows cols i j :
  0 ≤ i < rows → 0 ≤ j < cols → rows ≤ 7 ∨ cols ≤ 7 →
  window_cells rows cols i j ≤ 63.
Proof.
  intros Hi Hj Hs. unfold window_cells.
  set (h := Z.max 0 (Z.min rows (i + 4 + 1) - Z.max 0 (i - 4))).
  set (w := Z.max 0 (Z.min cols (j + 4 + 1) - Z.max 0 (j - 4))).
  assert (0 ≤ h ≤ 9) by lia. assert (0 ≤ w ≤ 9) by lia.
  assert (h ≤ 7 ∨ w ≤ 7) as [H7|H7] by lia; nia.
Qed.

(** X2: a raster with at most 7 rows or at most 7 columns is filtered to
    background everywhere at the default homogeneity 0.8: no window of such
    a raster has the 65 cells the threshold asks for.  This holds for the
    in-memory filter and for the batched one. *)
Theorem small_raster_all_background src (batch_size : Z) :
  rect src → 0 < batch_size → nrows src ≤ 7 ∨ ncols src ≤ 7 →
  apply_strict_majority_filter_numba src 0.8%float
  = full (nrows src) (ncols src) (-99)
  ∧ apply_strict_majority_filter_batched src 0.8%float batch_size
    = full (nrows src) (ncols src) (-99).
Proof.
  intros Hrect Hbs Hs.
  assert (Hw : apply_strict_majority_filter_numba src 0.8%float
               = full (nrows src) (ncols src) (-99)).
  { pose proof (nrows_nonneg src). pose proof (ncols_nonneg src).
    destruct (decide (0 < nrows src)) as [Hpos|Hpos].
    - apply array_ext; [apply rect_filter|apply rect_full
                       |rewrite nrows_filter, nrows_full; lia
                       |rewrite ncols_filter, ncols_full by done; lia|].
      rewrite nrows_filter, ncols_filter. intros i j Hi Hj.
      rewrite get_full by done. rewrite get_filter_default by done.
      apply filter_pixel_below.
      pose proof (small_window_cells _ _ i j Hi Hj Hs) as Hc.
      pose proof (count_window_bounds src (get src i j)
                    (Z.max 0 (i - 4)) (Z.min (nrows src) (i + 4 + 1))
                    (Z.max 0 (j - 4)) (Z.min (ncols src) (j + 4 + 1))) as Hb.
      unfold window_cells in Hc. lia.
    - assert (E : src = []) by (destruct src; [done|unfold nrows in *; simpl in *; lia]).
      subst src. reflexivity. }
  split; [done|]. by rewrite filter_batched_whole.
Qed.

Lemma small_raster_all_background_witness :
  apply_strict_majority_filter_batched (full 7 12 3) 0.8%float 5
  = full (nrows (full 7 12 3)) (ncols (full 7 12 3)) (-99).
Proof.
  refine (proj2 (small_raster_all_background (full 7 12 3) 5 _ _ _)).
  - apply rect_full.
  - lia.
  - left. concrete_range.
Defined.

End FilterInvariants.

(** ** The grid of the abundance map *)

Section AbundanceGrid.

Lemma out_dim_fits n window_size stride (i : Z) :
  0 < stride → window_size ≤ n →
  let out := Z.max 1 (Z.max 0 (n - window_size) `div` stride + 1) in
  (0 ≤ i < out → i * stride + window_size ≤ n)
  ∧ n < out * stride + window_size.
Proof.
  intros Hs Hn out. subst out.
  rewrite (Z.max_r 0 (n - window_size)) by lia.
  pose proof (Z.div_pos (n - window_size) stride ltac:(lia) Hs).
  pose proof (Z.mod_pos_bound (n - window_size) stride Hs).
  pose proof (Z.div_mod (n - window_size) stride ltac:(lia)).
  rewrite Z.max_r by lia. split; [intros Hi|]; nia.
Qed.

Lemma out_dim_small n window_size stride :
  0 < stride → n < window_size →
  Z.max 1 (Z.max 0 (n - window_size) `div` stride + 1) = 1.
Proof.
  intros Hs Hn. rewrite (Z.max_l 0) by lia. by rewrite Zdiv_0_l.
Qed.

(** X4: the abundance map has at least one row and one column.  When the
    raster has at least [window_size] rows, the window of every row of the
    map lies inside the raster and no further window would fit; a raster
    with fewer rows than the window still gets one row, whose window is
    clipped.  The same holds for the columns. *)
Theorem abundance_grid_windows_fit (rows cols window_size stride : Z) :
  0 < stride →
  let out_rows := (out_dims rows cols window_size stride).1 in
  let out_cols := (out_dims rows cols window_size stride).2 in
  1 ≤ out_rows ∧ 1 ≤ out_cols
  ∧ (window_size ≤ rows →
     (∀ i, 0 ≤ i < out_rows → i * stride + window_size ≤ rows)
     ∧ rows < out_rows * stride + window_size)
  ∧ (window_size ≤ cols →
     (∀ j, 0 ≤ j < out_cols → j * stride + window_size ≤ cols)
     ∧ cols < out_cols * stride + window_size)
  ∧ (rows < window_size → out_rows = 1)
  ∧ (cols < window_size → out_cols = 1).
Proof.
  intros Hs out_rows out_cols. subst out_rows out_cols.
  unfold out_dims. cbn [fst snd].
  split; [lia|]. split; [lia|]. split; [|split; [|split]].
  - intros Hr. split.
    + intros i Hi. by apply (out_dim_fits rows window_size stride i).
    + by apply (out_dim_fits rows window_size stride 0).
  - intros Hc. split.
    + intros j Hj. by apply (out_dim_fits cols window_size stride j).
    + by apply (out_dim_fits cols window_size stride 0).
  - by apply out_dim_small.
  - by apply out_dim_small.
Qed.

Lemma abundance_grid_windows_fit_witness :
  2264 < (out_dims 2264 224 224 204).1 * 204 + 224.
Proof.
  refine (proj2 (proj1 (proj2 (proj2 (abundance_grid_windows_fit
                                         2264 224 224 204 _))) _)); lia.
Defined.

End AbundanceGrid.

(** ** A batch that asks for a negative shape *)

Section AbundanceFailure.

Implicit Types (src : array2).

Lemma foldl_absorbing {S K} (f : option S → K → option S) (ks : list K)
      (init : option S) (k : K) :
  (∀ k', f None k' = None) → (∀ a, f a k = None) → k ∈ ks →
  foldl f init ks = None.
Proof.
  intros Hnone Hk Hin.
  assert (HN : ∀ l, foldl f None l = None).
  { induction l as [|x l IH]; [done|]. simpl. by rewrite Hnone. }
  revert init. induction ks as [|x ks IH]; intros init; [by inversion Hin|].
  simpl. apply elem_of_cons in Hin as [<-|Hin].
  - by rewrite Hk.
  - by apply IH.
Qed.

Lemma abundance_batch_negative src class_id window_size stride batch_size
      out_rows out_cols full_abundance :
  rect src → 0 < ncols src → 0 < batch_size < nrows src → 0 < stride →
  out_rows < batch_size `div` stride →
  abundance_batch src class_id window_size stride batch_size out_rows out_cols
                  full_abundance 1 0 = None.
Proof.
  intros Hrect Hc Hb Hs Ho. unfold abundance_batch.
  rewrite ?Z.mul_0_l, ?Z.mul_1_l, ?Z.add_0_l.
  rewrite ReadAsArray_Some by lia.
  unfold calculate_abundance_batch_numba.
  pose proof (Z.div_pos batch_size stride ltac:(lia) Hs).
  replace (Z.min out_rows _ - Z.max 0 (batch_size `div` stride) <? 0) with true
    by (symmetry; apply Z.ltb_lt; lia).
  done.
Qed.

Lemma full_abundance_negative src class_id window_size overlap batch_size :
  rect src → 0 < ncols src → 0 < batch_size < nrows src →
  0 < window_size - overlap →
  (out_dims (nrows src) (ncols src) window_size (window_size - overlap)).1
  < batch_size `div` (window_size - overlap) →
  full_abundance_for_class src class_id window_size overlap batch_size = None.
Proof.
  intros Hrect Hc Hb Hs Ho. unfold full_abundance_for_class.
  destruct (out_dims _ _ _ _) as [out_rows out_cols] eqn:E. cbn [fst] in Ho.
  apply (foldl_absorbing _ _ _ 1).
  - intros k'. by apply (foldl_invariant _ (λ a, a = None)); [intros ? ? ->|].
  - intros a. apply (foldl_absorbing _ _ _ 0).
    + done.
    + intros [full|]; [|done]. cbn [mbind option_bind].
      by apply abundance_batch_negative.
    + apply range_elem. split; [lia|].
      unfold ceil_div.
      assert ((- ncols src) `div` batch_size < 0); [|lia].
      apply Z.div_lt_upper_bound; lia.
  - apply range_elem. split; [lia|].
    unfold ceil_div.
    assert ((- nrows src) `div` batch_size < -1); [|lia].
    apply Z.div_lt_upper_bound; lia.
Qed.

(** X5: with the parameters of the pipeline (window 224, overlap 20,
    batches of 2048) a raster of 2049 to 2059 rows makes the abundance step
    fail.  Its map has 9 rows, but the second batch of rows starts its
    cells at [2048 // 204 = 10], so [calculate_abundance_batch_numba] asks
    [np.zeros] for a negative number of rows; nothing catches the error.
    The map of no class is written, and the whole step fails as soon as
    one class is found and no map exists yet. *)
Theorem abundance_negative_shape src class_id :
  rect src → 0 < ncols src → 2049 ≤ nrows src ≤ 2059 →
  full_abundance_for_class src class_id 224 20 2048 = None
  ∧ (scan_classes src 2048 ≠ [] →
     create_abundance_maps_batched src ∅ 224 20 2048 = None).
Proof.
  intros Hrect Hc Hr.
  assert (Hall : ∀ c, full_abundance_for_class src c 224 20 2048 = None).
  { intros c. apply full_abundance_negative; [done|done|lia|lia|].
    unfold out_dims. cbn [fst]. change (224 - 20) with 204.
    change (2048 `div` 204) with 10.
    assert (Z.max 0 (nrows src - 224) `div` 204 < 9); [|lia].
    apply Z.div_lt_upper_bound; lia. }
  split; [apply Hall|].
  intros Hne. unfold create_abundance_maps_batched.
  destruct (scan_classes src 2048) as [|c rest]; [done|].
  cbn [foldl]. cbn [mbind option_bind]. rewrite lookup_empty, Hall.
  cbn [mbind option_bind].
  match goal with
  | |- foldl ?f None rest ≫= _ = None =>
      assert (HN : foldl f None rest = None)
        by (by apply (foldl_invariant _ (λ a, a = None)); [intros ? ? ->|]);
      by rewrite HN
  end.
Qed.

Lemma abundance_negative_shape_witness :
  full_abundance_for_class (full 2050 1 0) 0 224 20 2048 = None.
Proof.
  refine (proj1 (abundance_negative_shape (full 2050 1 0) 0 _ _ _)).
  - apply rect_full.
  - vm_compute. reflexivity.
  - concrete_range.
Defined.

End AbundanceFailure.

(** ** Abundance maps already on disk *)

Section AbundanceFiles.

Implicit Types (src : array2) (existing files : gmap Z array2).

Lemma abundance_files_fold src window_size overlap batch_size
      (classes : list Z) existing files :
  foldl (λ acc class_id,
           files ← acc;
           match files !! class_id with
           | Some _ => Some files
           | None =>
               full ← full_abundance_for_class src class_id window_size
                        overlap batch_size;
               Some (<[class_id := full]> files)
           end)
        (Some existing) classes = Some files →
  existing ⊆ files
  ∧ (∀ c, is_Some (files !! c) ↔ is_Some (existing !! c) ∨ c ∈ classes)
  ∧ (∀ c a, files !! c = Some a → existing !! c = None →
       full_abundance_for_class src c window_size overlap batch_size = Some a).
Proof.
  revert files. induction classes as [|x classes IH] using rev_ind; intros files.
  - simpl. intros [= <-]. split; [done|]. split.
    + intros c. split; [by left|]. intros [H|H]; [done|by inversion H].
    + intros c a Ha Hn. by rewrite Ha in Hn.
  - rewrite foldl_snoc.
    destruct (foldl _ _ classes) as [files0|]; [|done].
    destruct (IH files0 eq_refl) as (Hsub & Hdom & Hnew).
    cbn [mbind option_bind].
    destruct (files0 !! x) as [a0|] eqn:Ex.
    + intros [= <-]. split; [done|]. split; [|done].
      intros c. rewrite Hdom, elem_of_app, list_elem_of_singleton.
      split; [tauto|]. intros [H|[H| ->]]; [tauto..|].
      apply Hdom. by rewrite Ex.
    + destruct (full_abundance_for_class src x _ _ _) as [fa|] eqn:Ef; [|done].
      cbn [mbind option_bind]. intros [= <-]. split; [|split].
      * etrans; [exact Hsub|]. by apply insert_subseteq.
      * intros c. rewrite elem_of_app, list_elem_of_singleton.
        destruct (decide (c = x)) as [->|Hne].
        -- rewrite lookup_insert_eq. split; [by right; right|done].
        -- rewrite lookup_insert_ne by done. rewrite Hdom. tauto.
      * intros c a. destruct (decide (c = x)) as [->|Hne].
        -- rewrite lookup_insert_eq. by intros [= <-] _.
        -- rewrite lookup_insert_ne by done. apply Hnew.
Qed.

(** X6: when the abundance step returns, it returns the classes of the
    scan, the stride and the size of the raster; every abundance map that
    was already in the directory is still there, unchanged, also when it
    was made from another raster or with other parameters; the directory
    holds a map for exactly the classes that had one and the classes of the
    scan; and a map that was not there before is the one computed for its
    class. *)
Theorem existing_abundance_maps_kept src existing window_size overlap
        batch_size files (ret : list Z * Z * Z * Z) :
  create_abundance_maps_batched src existing window_size overlap batch_size
  = Some (files, ret) →
  ret = (scan_classes src batch_size, window_size - overlap, nrows src, ncols src)
  ∧ existing ⊆ files
  ∧ (∀ c, is_Some (files !! c)
          ↔ is_Some (existing !! c) ∨ c ∈ scan_classes src batch_size)
  ∧ (∀ c a, files !! c = Some a → existing !! c = None →
       full_abundance_for_class src c window_size overlap batch_size = Some a).
Proof.
  unfold create_abundance_maps_batched.
  destruct (foldl _ _ _) as [files0|] eqn:E; [|done].
  cbn [mbind option_bind]. intros [= <- <-]. split; [done|].
  by apply abundance_files_fold in E.
Qed.

Lemma existing_abundance_maps_kept_witness :
  {[7 := [[42]]]} ⊆ ({[7 := [[42]]; 3 := [[2]]]} : gmap Z array2).
Proof.
  refine (proj1 (proj2 (existing_abundance_maps_kept
            [[7; 3]; [3; 7]] {[7 := [[42]]]} 2 0 4
            {[7 := [[42]]; 3 := [[2]]]} ([3; 7], 2, 2, 2) _))).
  vm_compute. reflexivity.
Defined.

End AbundanceFiles.

(** ** The two scans for classes *)

Section ScanFacts.

Implicit Types (src a : array2) (c : Z).

Lemma elem_of_concat_array a c : rect a → c ∈ concat a ↔ occurs_in a c.
Proof.
  intros Ha. rewrite list_elem_of_In, in_concat. unfold occurs_in. split.
  - intros (r & Hr%list_elem_of_In & Hc%list_elem_of_In).
    apply list_elem_of_lookup in Hr as [k Hk].
    apply list_elem_of_lookup in Hc as [m Hm].
    pose proof (lookup_lt_Some _ _ _ Hk). pose proof (lookup_lt_Some _ _ _ Hm).
    pose proof (rect_row _ _ _ Ha Hk).
    exists (Z.of_nat k), (Z.of_nat m). unfold nrows.
    split; [lia|]. split; [lia|].
    unfold get. by rewrite !Nat2Z.id, Hk; simpl; rewrite Hm.
  - intros (i & j & Hi & Hj & Hg).
    destruct (row_exists a i Hi) as [r Hr].
    pose proof (rect_row _ _ _ Ha Hr).
    destruct (cell_exists r j ltac:(lia)) as [v Hv].
    exists r. split; apply list_elem_of_In.
    + by eapply list_elem_of_lookup_2.
    + unfold get in Hg. rewrite Hr in Hg. simpl in Hg. rewrite Hv in Hg.
      simpl in Hg. subst v. by eapply list_elem_of_lookup_2.
Qed.

(** A loop that only adds to a set. *)
Lemma elem_of_foldl_step {K} (step : gset Z → K → gset Z) (G : K → Z → Prop)
      (ks : list K) (X : gset Z) c :
  (∀ acc k c', c' ∈ step acc k ↔ c' ∈ acc ∨ G k c') →
  c ∈ foldl step X ks ↔ c ∈ X ∨ ∃ k, k ∈ ks ∧ G k c.
Proof.
  intros Hstep. revert X. induction ks as [|k ks IH]; intros X; simpl.
  - split; [by left|]. intros [H|(k & Hk & _)]; [done|by inversion Hk].
  - rewrite IH, Hstep. split.
    + intros [[H|H]|(k' & Hk' & H)]; [by left|right..].
      * exists k. split; [by left|done].
      * exists k'. split; [by right|done].
    + intros [H|(k' & [->|Hk']%elem_of_cons & H)].
      * by left; left.
      * by left; right.
      * right. by exists k'.
Qed.

(** The batch loops of the two scans: the set collected holds the values
    of the raster that the selection [h] of each batch keeps. *)
Lemma scan_fold_elem src bs (h : gset Z → gset Z) (P : Z → Prop) c :
  rect src → 0 < bs →
  (∀ (X : gset Z) c', c' ∈ h X ↔ c' ∈ X ∧ P c') →
  c ∈ foldl (λ acc batch_y,
               foldl (λ (acc' : gset Z) batch_x,
                        match ReadAsArray src (batch_x * bs) (batch_y * bs)
                                (Z.min ((batch_x + 1) * bs) (ncols src)
                                 - batch_x * bs)
                                (Z.min ((batch_y + 1) * bs) (nrows src)
                                 - batch_y * bs) with
                        | None => acc'
                        | Some batch_array =>
                            acc' ∪ h (list_to_set (concat batch_array))
                        end)
                     acc (range 0 (ceil_div (ncols src) bs)))
            (∅ : gset Z) (range 0 (ceil_div (nrows src) bs))
  ↔ P c ∧ occurs_in src c.
Proof.
  intros Hrect Hbs Hh.
  set (G := λ (batch_y batch_x : Z) (c' : Z),
         ∃ batch_array,
           ReadAsArray src (batch_x * bs) (batch_y * bs)
             (Z.min ((batch_x + 1) * bs) (ncols src) - batch_x * bs)
             (Z.min ((batch_y + 1) * bs) (nrows src) - batch_y * bs)
           = Some batch_array
           ∧ c' ∈ h (list_to_set (concat batch_array))).
  rewrite (elem_of_foldl_step _
             (λ batch_y c', ∃ batch_x, batch_x ∈ range 0 (ceil_div (ncols src) bs)
                                       ∧ G batch_y batch_x c')).
  2:{ intros acc batch_y c'.
      apply (elem_of_foldl_step _ (G batch_y)).
      intros acc' batch_x c''. subst G. cbv beta.
      destruct (ReadAsArray _ _ _ _ _) as [b|].
      - rewrite elem_of_union. split; [intros [H|H]|intros [H|(b' & [= <-] & H)]].
        + by left.
        + right. by exists b.
        + by left.
        + by right.
      - split; [by left|]. by intros [H|(b' & [=] & _)]. }
  rewrite elem_of_empty. split.
  - intros [[]|(batch_y & Hby%range_elem & batch_x & Hbx%range_elem & b & Hb & Hc)].
    pose proof (ceil_div_tight _ _ _ Hbs (proj2 Hby)) as Hy.
    pose proof (ceil_div_tight _ _ _ Hbs (proj2 Hbx)) as Hx.
    assert (0 ≤ batch_y * bs) by nia. assert (0 ≤ batch_x * bs) by nia.
    rewrite ReadAsArray_Some in Hb by lia. injection Hb as <-.
    apply Hh in Hc as [Hc HP]. split; [done|].
    rewrite elem_of_list_to_set in Hc.
    set (ye := Z.min ((batch_y + 1) * bs) (nrows src)) in *.
    set (xe := Z.min ((batch_x + 1) * bs) (ncols src)) in *.
    assert (batch_y * bs < ye) by (subst ye; nia).
    assert (batch_x * bs < xe) by (subst xe; nia).
    replace (batch_y * bs + (ye - batch_y * bs)) with ye in Hc by lia.
    replace (batch_x * bs + (xe - batch_x * bs)) with xe in Hc by lia.
    apply elem_of_concat_array in Hc; [|apply rect_slice2; [done|lia|subst xe; lia]].
    destruct Hc as (i & j & Hi & Hj & Hg).
    rewrite nrows_slice2 in Hi by (subst ye; lia).
    rewrite ncols_slice2 in Hj by (done || subst ye xe; lia).
    rewrite get_slice2 in Hg by lia.
    exists (batch_y * bs + i), (batch_x * bs + j).
    split; [subst ye; lia|]. split; [subst xe; lia|done].
  - intros [HP (i & j & Hi & Hj & Hg)]. right.
    destruct (batch_of_pixel _ bs i Hbs Hi) as [Hbi Hci].
    destruct (batch_of_pixel _ bs j Hbs Hj) as [Hbj Hcj].
    exists (i `div` bs). split; [apply range_elem; lia|].
    exists (j `div` bs). split; [apply range_elem; lia|].
    set (batch_y := i `div` bs) in *. set (batch_x := j `div` bs) in *.
    set (ye := Z.min ((batch_y + 1) * bs) (nrows src)) in *.
    set (xe := Z.min ((batch_x + 1) * bs) (ncols src)) in *.
    assert (0 ≤ batch_y * bs) by nia. assert (0 ≤ batch_x * bs) by nia.
    subst G. cbv beta. fold ye xe. rewrite ReadAsArray_Some by (subst ye xe; lia).
    eexists. split; [reflexivity|]. apply Hh. split; [|done].
    rewrite elem_of_list_to_set.
    replace (batch_y * bs + (ye - batch_y * bs)) with ye by lia.
    replace (batch_x * bs + (xe - batch_x * bs)) with xe by lia.
    apply elem_of_concat_array; [apply rect_slice2; [done|lia|subst xe; lia]|].
    exists (i - batch_y * bs), (j - batch_x * bs).
    rewrite nrows_slice2 by (subst ye; lia).
    rewrite ncols_slice2 by (done || subst ye xe; lia).
    split; [lia|]. split; [lia|].
    rewrite get_slice2 by lia. rewrite <- Hg. f_equal; lia.
Qed.

Lemma sorted_nodup_strict (l : list Z) :
  Sorted Z.le l → NoDup l → StronglySorted Z.lt l.
Proof.
  intros Hs%(Sorted_StronglySorted _) Hnd.
  induction Hs as [|x l Hs IH Hall]; [constructor|].
  apply NoDup_cons in Hnd as [Hx Hnd]. constructor; [by apply IH|].
  rewrite Forall_forall in Hall |- *. intros y Hy.
  pose proof (Hall y Hy). assert (x ≠ y) by (by intros ->). lia.
Qed.

Lemma strict_sorted_nodup (l : list Z) : StronglySorted Z.lt l → NoDup l.
Proof.
  intros Hl. induction Hl as [|x l Hl IH Hall]; constructor; [|done].
  rewrite Forall_forall in Hall. intros Hx%Hall. lia.
Qed.

Lemma strict_sorted_le (l : list Z) : StronglySorted Z.lt l → Sorted Z.le l.
Proof.
  intros Hl. apply StronglySorted_Sorted.
  induction Hl as [|x l Hl IH Hall]; constructor; [done|].
  eapply Forall_impl; [exact Hall|]. simpl. lia.
Qed.

Lemma strict_sorted_unique (l1 l2 : list Z) :
  StronglySorted Z.lt l1 → StronglySorted Z.lt l2 →
  (∀ c, c ∈ l1 ↔ c ∈ l2) → l1 = l2.
Proof.
  intros H1 H2 Heq.
  apply (Sorted_unique Z.le); [by apply strict_sorted_le..|].
  apply NoDup_Permutation; [by apply strict_sorted_nodup..|done].
Qed.

(** The list a scan returns from the codes it collected. *)
Lemma sorted_codes_spec (l0 : list Z) :
  NoDup l0 →
  StronglySorted Z.lt (merge_sort Z.le l0)
  ∧ ∀ c, c ∈ merge_sort Z.le l0 ↔ c ∈ l0.
Proof.
  intros Hnd. split.
  - apply sorted_nodup_strict; [apply Sorted_merge_sort; apply _|].
    by rewrite merge_sort_Permutation.
  - intros c. by rewrite merge_sort_Permutation.
Qed.

Lemma scan_original_classes_elem src bs :
  rect src → 0 < bs →
  StronglySorted Z.lt (scan_original_classes src bs)
  ∧ ∀ c, c ∈ scan_original_classes src bs ↔ c ≠ 0 ∧ occurs_in src c.
Proof.
  intros Hrect Hpos. unfold scan_original_classes.
  match goal with
  | |- context [elements ?X] =>
      destruct (sorted_codes_spec (filter (λ c, c ≠ 0) (elements X)))
        as [Hs He]; [apply NoDup_filter, NoDup_elements|]
  end.
  split; [exact Hs|]. intros c.
  rewrite He, list_elem_of_filter, elem_of_elements.
  rewrite (scan_fold_elem src bs (λ X, X) (λ _, True) c Hrect Hpos); [tauto|].
  intros X c'. tauto.
Qed.

Lemma scan_classes_elem src bs :
  rect src → 0 < bs →
  StronglySorted Z.lt (scan_classes src bs)
  ∧ ∀ c, c ∈ scan_classes src bs ↔ c ≠ -99 ∧ occurs_in src c.
Proof.
  intros Hrect Hpos. unfold scan_classes.
  match goal with
  | |- context [elements ?X] =>
      destruct (sorted_codes_spec (elements X)) as [Hs He];
        [apply NoDup_elements|]
  end.
  split; [exact Hs|]. intros c. rewrite He, elem_of_elements.
  apply (scan_fold_elem src bs (filter (λ c, c ≠ -99)) (λ c, c ≠ -99) c
           Hrect Hpos).
  intros X c'. rewrite elem_of_filter. tauto.
Qed.

(** X7: the scan of the original land cover returns, in strictly
    ascending order and without repetition, exactly the codes other than 0
    that occur in the raster; the result does not depend on the batch
    size. *)
Theorem scan_original_classes_spec src (batch_size batch_size' : Z) :
  rect src → 0 < batch_size → 0 < batch_size' →
  let classes := scan_original_classes src batch_size in
  StronglySorted Z.lt classes
  ∧ (∀ c, c ∈ classes ↔ c ≠ 0 ∧ occurs_in src c)
  ∧ scan_original_classes src batch_size' = classes.
Proof.
  intros Hrect Hbs Hbs' classes. subst classes.
  destruct (scan_original_classes_elem src batch_size Hrect Hbs) as [Hs He].
  destruct (scan_original_classes_elem src batch_size' Hrect Hbs') as [Hs' He'].
  split; [done|]. split; [done|].
  apply strict_sorted_unique; [done..|]. intros c. by rewrite He, He'.
Qed.

Lemma scan_original_classes_spec_witness :
  scan_original_classes [[15; 0; 1]; [20; 5; 7]] 1
  = scan_original_classes [[15; 0; 1]; [20; 5; 7]] 2.
Proof.
  refine (proj2 (proj2 (scan_original_classes_spec
                          [[15; 0; 1]; [20; 5; 7]] 2 1 _ _ _))).
  - repeat constructor.
  - lia.
  - lia.
Defined.

(** X8: the classes the abundance step finds are, in strictly ascending
    order and without repetition, exactly the values other than -99 that
    occur in the filtered raster; the result does not depend on the batch
    size. *)
Theorem abundance_scan_spec src (batch_size batch_size' : Z) :
  rect src → 0 < batch_size → 0 < batch_size' →
  let classes := scan_classes src batch_size in
  StronglySorted Z.lt classes
  ∧ (∀ c, c ∈ classes ↔ c ≠ -99 ∧ occurs_in src c)
  ∧ scan_classes src batch_size' = classes.
Proof.
  intros Hrect Hbs Hbs' classes. subst classes.
  destruct (scan_classes_elem src batch_size Hrect Hbs) as [Hs He].
  destruct (scan_classes_elem src batch_size' Hrect Hbs') as [Hs' He'].
  split; [done|]. split; [done|].
  apply strict_sorted_unique; [done..|]. intros c. by rewrite He, He'.
Qed.

Lemma abundance_scan_spec_witness :
  scan_classes [[2; -99; 0]; [3; 1; -99]] 1
  = scan_classes [[2; -99; 0]; [3; 1; -99]] 2.
Proof.
  refine (proj2 (proj2 (abundance_scan_spec
                          [[2; -99; 0]; [3; 1; -99]] 2 1 _ _ _))).
  - repeat constructor.
  - lia.
  - lia.
Defined.

End ScanFacts.

(** ** The class definitions of the label mapping *)

Section ClassDefinitions.

Lemma mapping_step_defs acc new c :
  (mapping_step acc (new, c)).2 = <[new := definition_for c]> acc.2.
Proof.
  destruct acc as [[o n] d]. unfold mapping_step, definition_for.
  by destruct (CLASS_DEFINITIONS !! c).
Qed.

(** The dictionary of definitions after the loop. *)
Lemma mapping_fold_defs acc (l : list Z) (k : Z) :
  (foldl mapping_step acc (enumerate l)).2 !! k
  = if (0 <=? k) && (k <? Z.of_nat (length l))
    then definition_for <$> l !! Z.to_nat k else acc.2 !! k.
Proof.
  induction l as [|x l IH] using rev_ind.
  - simpl. destruct ((0 <=? k) && _) eqn:E; [|done].
    rewrite andb_true_iff, Z.leb_le, Z.ltb_lt in E. simpl in E. lia.
  - rewrite mapping_fold_snoc, mapping_step_defs, length_app. simpl.
    destruct (decide (k = Z.of_nat (length l))) as [->|Hne].
    + rewrite lookup_insert_eq, Nat2Z.id.
      replace ((0 <=? Z.of_nat (length l))
               && (Z.of_nat (length l) <? Z.of_nat (length l + 1))) with true
        by (symmetry; rewrite andb_true_iff, Z.leb_le, Z.ltb_lt; lia).
      by rewrite lookup_app_r, Nat.sub_diag by lia.
    + rewrite lookup_insert_ne by done. rewrite IH.
      destruct ((0 <=? k) && (k <? Z.of_nat (length l))) eqn:E.
      * rewrite andb_true_iff, Z.leb_le, Z.ltb_lt in E.
        replace ((0 <=? k) && (k <? Z.of_nat (length l + 1))) with true
          by (symmetry; rewrite andb_true_iff, Z.leb_le, Z.ltb_lt; lia).
        by rewrite lookup_app_l by lia.
      * replace ((0 <=? k) && (k <? Z.of_nat (length l + 1))) with false; [done|].
        symmetry. rewrite andb_false_iff, Z.leb_gt, Z.ltb_ge in E |- *. lia.
Qed.

(** The backward dictionary and the definitions built from any list of
    codes. *)
Lemma created_mapping_backward (C : list Z) (k : Z) :
  let m := create_alberta_label_mapping C in
  let s := merge_sort Z.le C in
  new_to_original m !! k
  = (if (0 <=? k) && (k <? Z.of_nat (length s)) then s !! Z.to_nat k else None)
  ∧ new_class_definitions m !! k
    = (if (0 <=? k) && (k <? Z.of_nat (length s))
       then definition_for <$> s !! Z.to_nat k
       else if decide (k = -99)
            then Some {| new_name := "Background/NoData"; new_color := (0, 0, 0);
                         original_id := 0 |}
            else None).
Proof.
  intros m s. subst m. unfold create_alberta_label_mapping. fold s.
  pose proof (mapping_fold_n2o
                (<[0 := -99]> (∅ : gmap Z Z), (∅ : gmap Z Z),
                 <[-99 := {| new_name := "Background/NoData";
                             new_color := (0, 0, 0); original_id := 0 |}]>
                   (∅ : gmap Z new_class_definition)) s k) as Hn.
  pose proof (mapping_fold_defs
                (<[0 := -99]> (∅ : gmap Z Z), (∅ : gmap Z Z),
                 <[-99 := {| new_name := "Background/NoData";
                             new_color := (0, 0, 0); original_id := 0 |}]>
                   (∅ : gmap Z new_class_definition)) s k) as Hd.
  destruct (foldl _ _ _) as [[o n] d]. cbn [fst snd] in Hn, Hd.
  cbn [new_to_original new_class_definitions].
  rewrite Hn, Hd. split.
  - by rewrite lookup_empty.
  - destruct (_ && _); [done|].
    destruct (decide (k = -99)) as [->|Hne].
    + by rewrite lookup_insert_eq.
    + by rewrite lookup_insert_ne, lookup_empty.
Qed.

(** X9: the third dictionary of the label mapping, for any list of codes.
    It holds the background entry under -99 and, under every new label, the
    definition made for the original code of that label: the code as
    [original_id], with the name and colour of the class table when the
    table lists the code, and the name [Class_<code>] in black otherwise.
    Its keys are -99 and the new labels. *)
Theorem new_class_definitions_spec (C : list Z) :
  let m := create_alberta_label_mapping C in
  new_class_definitions m !! (-99)
  = Some {| new_name := "Background/NoData"; new_color := (0, 0, 0);
            original_id := 0 |}
  ∧ (∀ k c, new_to_original m !! k = Some c →
       new_class_definitions m !! k = Some (definition_for c)
       ∧ original_id (definition_for c) = c)
  ∧ (∀ k, is_Some (new_class_definitions m !! k)
          ↔ k = -99 ∨ is_Some (new_to_original m !! k))
  ∧ (∀ c d, CLASS_DEFINITIONS !! c = Some d →
       new_name (definition_for c) = name d
       ∧ new_color (definition_for c) = color d)
  ∧ (∀ c, CLASS_DEFINITIONS !! c = None →
       new_name (definition_for c) = "Class_" +:+ pretty c
       ∧ new_color (definition_for c) = (0, 0, 0)).
Proof.
  intros m.
  assert (Hb : ∀ k, _) by (exact (λ k, created_mapping_backward C k)).
  cbv zeta in Hb. fold m in Hb.
  split; [|split; [|split; [|split]]].
  - destruct (Hb (-99)) as [_ ->]. done.
  - intros k c Hk. destruct (Hb k) as [Hn Hd]. rewrite Hn in Hk. rewrite Hd.
    destruct (_ && _); [|done]. rewrite Hk. split; [done|].
    unfold definition_for. by destruct (CLASS_DEFINITIONS !! c).
  - intros k. destruct (Hb k) as [Hn Hd]. rewrite Hn, Hd.
    destruct ((0 <=? k) && _) eqn:E.
    + rewrite fmap_is_Some. split; [by right|]. intros [->|H]; [|done].
      rewrite andb_true_iff, Z.leb_le in E. lia.
    + destruct (decide (k = -99)) as [->|Hne].
      * split; [by left|done].
      * split; [by intros [? ?]|]. intros [?|[? ?]]; done.
  - intros c d Hc. unfold definition_for. by rewrite Hc.
  - intros c Hc. unfold definition_for. by rewrite Hc.
Qed.

End ClassDefinitions.

(** ** The first steps of [main] together *)

Section PipelineLabels.

Implicit Types (landcover data : array2).

Lemma same_rows_shape data acc :
  same_rows data acc → rect data → same_shape_as data acc.
Proof.
  unfold same_rows, same_shape_as. intros Hs Hr.
  assert (Hn : nrows acc = nrows data)
    by (unfold nrows; by rewrite (Forall2_length _ _ _ Hs)).
  assert (Hc : ncols acc = ncols data).
  { destruct Hs as [|r r' d a Hl Hs]; [done|]. simpl. lia. }
  split; [|done]. unfold rect. rewrite Hc.
  apply Forall_lookup. intros k r' Hk.
  destruct (Forall2_lookup_r _ _ _ _ _ Hs Hk) as (r & Hr' & Hl).
  rewrite <- Hl. by apply (rect_row data k).
Qed.

Lemma remap_shape data (mapping : gmap Z Z) :
  rect data → same_shape_as data (remap_ground_truth data mapping).
Proof.
  intros Hr. apply same_rows_shape; [|done]. unfold remap_ground_truth.
  apply (foldl_invariant _ (same_rows data)); [|apply same_rows_full_like].
  intros acc [c n] Hs. by apply same_rows_assign.
Qed.

Lemma sorted_merge_sort_id (l : list Z) :
  StronglySorted Z.lt l → merge_sort Z.le l = l.
Proof.
  intros Hl. apply (Sorted_unique Z.le).
  - apply Sorted_merge_sort. apply _.
  - by apply strict_sorted_le.
  - apply merge_sort_Permutation.
Qed.

Lemma LC_remapped_shape landcover bs :
  rect landcover → same_shape_as landcover (LC_remapped landcover bs).
Proof. intros Hr. by apply remap_shape. Qed.

(** What [LC_remapped.tif] holds at a pixel. *)
Lemma LC_remapped_cell landcover bs i j :
  rect landcover → 0 < bs →
  Z.of_nat (length (scan_original_classes landcover bs)) ≤ 32768 →
  0 ≤ i < nrows landcover → 0 ≤ j < ncols landcover →
  (get landcover i j = 0 ∧ get (LC_remapped landcover bs) i j = -99)
  ∨ (get landcover i j ≠ 0
     ∧ ∃ k : nat,
         scan_original_classes landcover bs !! k = Some (get landcover i j)
         ∧ get (LC_remapped landcover bs) i j = Z.of_nat k).
Proof.
  intros Hrect Hbs Hlen Hi Hj.
  destruct (scan_original_classes_elem landcover bs Hrect Hbs) as [Hs He].
  set (C := scan_original_classes landcover bs) in *.
  assert (Hnd : NoDup C) by (by apply strict_sorted_nodup).
  assert (H0 : 0 ∉ C) by (rewrite He; tauto).
  destruct (remap_with_created_mapping C landcover i j Hnd H0 Hlen Hrect Hi Hj)
    as [Hk Hz].
  destruct (create_mapping_fields C) as (_ & _ & Hsorted).
  rewrite Hsorted, (sorted_merge_sort_id C Hs) in Hk.
  destruct (decide (get landcover i j = 0)) as [E|E].
  - left. split; [done|]. by apply Hz.
  - right. split; [done|].
    assert (Hin : get landcover i j ∈ C).
    { apply He. split; [done|]. by exists i, j. }
    apply list_elem_of_lookup in Hin as [k Hin]. exists k. split; [done|].
    by apply Hk.
Qed.

(** X10: the first two steps of [main] together.  For a land cover with at
    most 32768 distinct codes, the raster written as [LC_remapped.tif] has
    the shape of the land cover, holds -99 exactly where the land cover
    holds 0, and holds elsewhere the rank of the pixel's code among the
    codes found by the scan: a label from 0 to N-1 that the class list
    sends back to the code.  The scan never returns 0, so the mapping sends
    0 to -99. *)
Theorem pipeline_remapped_labels landcover (batch_size i j : Z) :
  rect landcover → 0 < batch_size →
  Z.of_nat (length (scan_original_classes landcover batch_size)) ≤ 32768 →
  0 ≤ i < nrows landcover → 0 ≤ j < ncols landcover →
  let classes := scan_original_classes landcover batch_size in
  let out := LC_remapped landcover batch_size in
  same_shape_as landcover out
  ∧ original_to_new (main_label_mapping landcover batch_size) !! 0 = Some (-99)
  ∧ (get out i j = -99 ↔ get landcover i j = 0)
  ∧ (get landcover i j ≠ 0 →
     0 ≤ get out i j < Z.of_nat (length classes)
     ∧ classes !! Z.to_nat (get out i j) = Some (get landcover i j)).
Proof.
  intros Hrect Hbs Hlen Hi Hj classes out.
  destruct (scan_original_classes_elem landcover batch_size Hrect Hbs) as [Hs He].
  pose proof (LC_remapped_cell landcover batch_size i j Hrect Hbs Hlen Hi Hj)
    as Hcell.
  fold classes in Hs, He, Hcell. fold out in Hcell.
  split; [by apply LC_remapped_shape|]. split; [|split].
  - apply created_mapping_forward; [by apply strict_sorted_nodup|].
    fold classes. rewrite He. tauto.
  - destruct Hcell as [[Hz Ho]|[Hnz (k & Hk & Ho)]]; [done|].
    split; [lia|done].
  - intros Hnz. destruct Hcell as [[Hz Ho]|[_ (k & Hk & Ho)]]; [done|].
    rewrite Ho, Nat2Z.id. split; [|done].
    pose proof (lookup_lt_Some _ _ _ Hk). lia.
Qed.

Lemma pipeline_remapped_labels_witness :
  get (LC_remapped [[15; 0; 1]; [20; 5; 7]] 2) 0 1 = -99
  ↔ get [[15; 0; 1]; [20; 5; 7]] 0 1 = 0.
Proof.
  refine (proj1 (proj2 (proj2 (pipeline_remapped_labels
                                 [[15; 0; 1]; [20; 5; 7]] 2 0 1 _ _ _ _ _)))).
  - repeat constructor.
  - lia.
  - concrete_range.
  - concrete_range.
  - concrete_range.
Defined.

(** X11: steps 1 to 4 of [main] together.  Every class the abundance step
    finds in the filtered raster is a new label of the mapping: it lies in
    [0 .. N-1], [new_to_original] sends it to a code other than 0 that
    occurs in the land cover, [original_to_new] sends that code back to it,
    and [new_class_definitions] has its entry.  The lookups of the summary
    that [main] prints and of the configuration it saves therefore never
    miss. *)
Theorem pipeline_classes_resolvable landcover (min_homogeneity : float)
        (batch_size c : Z) :
  rect landcover → 0 < batch_size →
  Z.of_nat (length (scan_original_classes landcover batch_size)) ≤ 32768 →
  c ∈ main_classes landcover min_homogeneity batch_size →
  let m := main_label_mapping landcover batch_size in
  0 ≤ c < Z.of_nat (length (scan_original_classes landcover batch_size))
  ∧ ∃ original : Z,
      new_to_original m !! c = Some original
      ∧ original ≠ 0 ∧ occurs_in landcover original
      ∧ original_to_new m !! original = Some c
      ∧ new_class_definitions m !! c = Some (definition_for original).
Proof.
  intros Hrect Hbs Hlen Hc m.
  destruct (scan_original_classes_elem landcover batch_size Hrect Hbs) as [Hs He].
  set (C := scan_original_classes landcover batch_size) in *.
  assert (Hnd : NoDup C) by (by apply strict_sorted_nodup).
  assert (H0 : 0 ∉ C) by (rewrite He; tauto).
  destruct (LC_remapped_shape landcover batch_size Hrect) as (Hrr & Hrn & Hrc).
  unfold main_classes, LC_filtered in Hc.
  rewrite filter_batched_whole in Hc by done.
  apply scan_classes_elem in Hc as [Hne (i & j & Hi & Hj & Hg)];
    [|apply rect_filter|done].
  rewrite nrows_filter, Hrn in Hi. rewrite ncols_filter, Hrc in Hj.
  rewrite get_filter in Hg by lia.
  destruct (filter_pixel_cases (LC_remapped landcover batch_size)
              (nrows (LC_remapped landcover batch_size))
              (ncols (LC_remapped landcover batch_size))
              (kernel_size `div` 2) (min_required_of min_homogeneity) i j)
    as [Hv|Hv]; rewrite Hv in Hg; [|done].
  destruct (LC_remapped_cell landcover batch_size i j Hrect Hbs Hlen Hi Hj)
    as [[_ Ho]|[Hnz (k & Hk & Ho)]]; [congruence|].
  fold C in Hk. rewrite Ho in Hg. subst c.
  pose proof (lookup_lt_Some _ _ _ Hk) as Hlt.
  split; [lia|]. exists (get landcover i j).
  destruct (created_mapping_backward C (Z.of_nat k)) as [Hn Hd].
  fold m in Hn, Hd. rewrite (sorted_merge_sort_id C Hs) in Hn, Hd.
  replace ((0 <=? Z.of_nat k) && (Z.of_nat k <? Z.of_nat (length C))) with true
    in Hn, Hd by (symmetry; rewrite andb_true_iff, Z.leb_le, Z.ltb_lt; lia).
  rewrite Nat2Z.id, Hk in Hn, Hd.
  split; [done|]. split; [done|]. split; [by exists i, j|]. split; [|done].
  destruct (created_mapping_forward C Hnd H0) as (_ & Hfwd & _).
  apply Hfwd. by rewrite (sorted_merge_sort_id C Hs).
Qed.

Lemma pipeline_classes_resolvable_witness :
  0 ≤ 0 < Z.of_nat (length (scan_original_classes (full 9 9 5) 4)).
Proof.
  refine (proj1 (pipeline_classes_resolvable (full 9 9 5) 0.8%float 4 0
                   _ _ _ _)).
  - apply rect_full.
  - lia.
  - concrete_range.
  - apply (bool_decide_unpack _). vm_compute. reflexivity.
Defined.

End PipelineLabels.

(** ** The candidates of a class *)

Section CollectFacts.

Variables (ds : array2) (lc_rows lc_cols window_size stride : Z).
Hypothesis ds_rect : rect ds.

Abbreviation cell := (candidate_at ds lc_rows lc_cols window_size stride).
Abbreviation rows_cells :=
  (candidates_of_rows ds lc_rows lc_cols window_size stride).

(** A loop that appends to a list. *)
Lemma foldl_append {X A} (step : list A → X → list A) (f : X → list A)
      (xs : list X) (acc : list A) :
  (∀ acc' x, x ∈ xs → step acc' x = acc' ++ f x) →
  foldl step acc xs = acc ++ (xs ≫= f).
Proof.
  revert acc. induction xs as [|x xs IH]; intros acc Hstep.
  - simpl. by rewrite app_nil_r.
  - cbn [foldl]. rewrite IH by (intros acc' y Hy; apply Hstep; by right).
    rewrite Hstep by (by left). by rewrite bind_cons, app_assoc.
Qed.

Lemma rows_cells_split a m b :
  a ≤ m ≤ b → rows_cells a b = rows_cells a m ++ rows_cells m b.
Proof.
  intros H. unfold candidates_of_rows.
  by rewrite (range_split a m b), bind_app by done.
Qed.

(** The two loops over one chunk of rows. *)
Lemma chunk_cells (a b : Z) (all_patches : list candidate) :
  0 ≤ a < b → b ≤ nrows ds →
  let chunk := slice2 ds a b 0 (ncols ds) in
  foldl (λ acc local_i,
           foldl (λ acc' j,
                    let abundance_val := get chunk local_i j in
                    let i := a + local_i in
                    if 0 <? abundance_val then
                      let y_start := i * stride in
                      let x_start := j * stride in
                      if (y_start + window_size <=? lc_rows)
                         && (x_start + window_size <=? lc_cols)
                      then acc' ++ [(abundance_val, i, j)]
                      else acc'
                    else acc')
                 acc (range 0 (ncols chunk)))
        all_patches (range 0 (nrows chunk))
  = all_patches ++ rows_cells a b.
Proof.
  intros Ha Hb chunk. pose proof (ncols_nonneg ds).
  assert (Hn : nrows chunk = b - a) by (apply nrows_slice2; lia).
  assert (Hc : ncols chunk = ncols ds).
  { subst chunk. rewrite ncols_slice2 by (done || lia). lia. }
  rewrite Hn, Hc.
  rewrite (foldl_append _ (λ local_i, j ← range 0 (ncols ds); cell (a + local_i) j)).
  - f_equal. unfold candidates_of_rows.
    replace (range a b) with (Z.add a <$> range 0 (b - a))
      by (rewrite range_shift; f_equal; lia).
    by rewrite list_fmap_bind.
  - intros acc local_i Hi%range_elem.
    apply foldl_append. intros acc' j Hj%range_elem. cbv zeta.
    subst chunk. rewrite get_slice2 by lia. rewrite Z.add_0_l.
    unfold candidate_at.
    destruct (0 <? get ds (a + local_i) j); [|by rewrite app_nil_r].
    simpl. destruct (_ && _); [done|by rewrite app_nil_r].
Qed.

Lemma chunks_cover (chunk_size : Z) (m : nat) :
  0 < chunk_size →
  range 0 (Z.of_nat m)
    ≫= (λ k, rows_cells (k * chunk_size)
                        (Z.min (k * chunk_size + chunk_size) (nrows ds)))
  = rows_cells 0 (Z.min (Z.of_nat m * chunk_size) (nrows ds)).
Proof.
  intros Hcs. pose proof (nrows_nonneg ds).
  induction m as [|m IH].
  - simpl. rewrite Z.min_l by lia. done.
  - rewrite (range_split 0 (Z.of_nat m) (Z.of_nat (S m))) by lia.
    rewrite bind_app, IH.
    replace (Z.of_nat (S m)) with (Z.of_nat m + 1) by lia.
    rewrite (range_cons (Z.of_nat m)), (range_empty (Z.of_nat m + 1)) by lia.
    rewrite bind_cons. change ([] ≫= _) with (@nil candidate).
    rewrite app_nil_r.
    replace ((Z.of_nat m + 1) * chunk_size)
      with (Z.of_nat m * chunk_size + chunk_size) by lia.
    destruct (decide (Z.of_nat m * chunk_size ≤ nrows ds)).
    + rewrite (Z.min_l (Z.of_nat m * chunk_size)) by lia.
      symmetry. apply rows_cells_split. nia.
    + rewrite !Z.min_r by lia.
      unfold candidates_of_rows at 2.
      rewrite (range_empty (Z.of_nat m * chunk_size) (nrows ds)) by lia.
      change ([] ≫= _) with (@nil candidate). by rewrite app_nil_r.
Qed.

Lemma collect_patches_eq :
  collect_patches ds lc_rows lc_cols window_size stride
  = row_major_candidates ds lc_rows lc_cols window_size stride.
Proof.
  unfold collect_patches, row_major_candidates.
  pose proof (nrows_nonneg ds) as Hr. pose proof (ncols_nonneg ds) as Hc.
  rewrite foldl_fmap.
  rewrite (foldl_append _ (λ k, rows_cells (k * 500)
                                           (Z.min (k * 500 + 500) (nrows ds)))).
  - rewrite app_nil_l.
    assert (Hk : 0 ≤ ceil_div (nrows ds) 500).
    { pose proof (ceil_div_covers (nrows ds) 500 ltac:(lia)).
      destruct (decide (0 ≤ ceil_div (nrows ds) 500)) as [|Hneg]; [done|].
      unfold ceil_div in *.
      pose proof (Z.div_le_upper_bound (- nrows ds) 500 0 ltac:(lia) ltac:(lia)).
      lia. }
    rewrite <- (Z2Nat.id (ceil_div (nrows ds) 500)) by done.
    rewrite chunks_cover by lia. rewrite Z2Nat.id by done.
    rewrite Z.min_r; [done|]. apply ceil_div_covers. lia.
  - intros acc k Hk%range_elem.
    pose proof (ceil_div_tight (nrows ds) 500 k ltac:(lia) (proj2 Hk)).
    rewrite ReadAsArray_Some by lia.
    rewrite Z.add_0_l.
    replace (k * 500 + (Z.min (k * 500 + 500) (nrows ds) - k * 500))
      with (Z.min (k * 500 + 500) (nrows ds)) by lia.
    apply chunk_cells; lia.
Qed.

Lemma row_major_elem (v i j : Z) :
  (v, i, j) ∈ row_major_candidates ds lc_rows lc_cols window_size stride
  ↔ 0 ≤ i < nrows ds ∧ 0 ≤ j < ncols ds ∧ v = get ds i j ∧ 0 < v
    ∧ i * stride + window_size ≤ lc_rows ∧ j * stride + window_size ≤ lc_cols.
Proof.
  unfold row_major_candidates, candidates_of_rows, candidate_at.
  rewrite list_elem_of_bind. split.
  - intros (i' & (j' & Hcell & Hj%range_elem)%list_elem_of_bind & Hi%range_elem).
    destruct (_ && _) eqn:E; [|by inversion Hcell].
    apply list_elem_of_singleton in Hcell. injection Hcell as -> -> ->.
    rewrite !andb_true_iff, Z.ltb_lt, !Z.leb_le in E. lia.
  - intros (Hi & Hj & -> & Hv & Hy & Hx). exists i.
    split; [|apply range_elem; lia]. apply list_elem_of_bind. exists j.
    split; [|apply range_elem; lia].
    replace (_ && _) with true
      by (symmetry; rewrite !andb_true_iff, Z.ltb_lt, !Z.leb_le; lia).
    by left.
Qed.

Lemma row_major_coords_nodup :
  NoDup (coords_of <$> row_major_candidates ds lc_rows lc_cols window_size stride).
Proof.
  apply NoDup_fmap_2_strong.
  - intros [[v i] j] [[v' i'] j'] H1%row_major_elem H2%row_major_elem.
    unfold coords_of. simpl. intros [= <- <-].
    destruct H1 as (_ & _ & -> & _), H2 as (_ & _ & -> & _). done.
  - unfold row_major_candidates, candidates_of_rows, candidate_at.
    apply NoDup_bind; [| |apply NoDup_seqZ].
    + intros i1 i2 [[v i] j] _ _
             (j1 & H1 & _)%list_elem_of_bind (j2 & H2 & _)%list_elem_of_bind.
      destruct (_ && _); [|by inversion H1].
      destruct (_ && _); [|by inversion H2].
      apply list_elem_of_singleton in H1, H2. congruence.
    + intros i _. apply NoDup_bind; [| |apply NoDup_seqZ].
      * intros j1 j2 [[v i'] j] _ _ H1 H2.
        destruct (_ && _); [|by inversion H1].
        destruct (_ && _); [|by inversion H2].
        apply list_elem_of_singleton in H1, H2. congruence.
      * intros j _. destruct (_ && _); [|constructor].
        apply NoDup_singleton.
Qed.

(** X12: the candidates collected from an abundance map in chunks of 500
    rows are those of the map read in one piece, row by row: the cells
    with a positive count whose window lies inside the land cover, each
    with its count and its position, in row-major order and no location
    twice. *)
Theorem collect_patches_row_major :
  collect_patches ds lc_rows lc_cols window_size stride
  = row_major_candidates ds lc_rows lc_cols window_size stride
  ∧ NoDup (coords_of <$> collect_patches ds lc_rows lc_cols window_size stride)
  ∧ ∀ v i j : Z,
      (v, i, j) ∈ collect_patches ds lc_rows lc_cols window_size stride
      ↔ 0 ≤ i < nrows ds ∧ 0 ≤ j < ncols ds ∧ v = get ds i j ∧ 0 < v
        ∧ i * stride + window_size ≤ lc_rows
        ∧ j * stride + window_size ≤ lc_cols.
Proof.
  rewrite collect_patches_eq. split; [done|]. split.
  - apply row_major_coords_nodup.
  - apply row_major_elem.
Qed.

End CollectFacts.

Lemma collect_patches_row_major_witness :
  collect_patches [[0; 5]; [0; 0]; [9; 0]] 1000 1000 224 204
  = row_major_candidates [[0; 5]; [0; 0]; [9; 0]] 1000 1000 224 204.
Proof.
  refine (proj1 (collect_patches_row_major
                   [[0; 5]; [0; 0]; [9; 0]] 1000 1000 224 204 _)).
  repeat constructor.
Defined.

(** ** The selection and its three lists *)

Section SelectionFacts.

Variable shuffle : Z → list candidate → list candidate.
Hypothesis shuffle_perm : ∀ c l, shuffle c l ≡ₚ l.

Implicit Types (l : list candidate) (x p q : candidate).

Lemma insert_desc_perm x l : insert_desc x l ≡ₚ x :: l.
Proof.
  induction l as [|y l IH]; simpl; [done|].
  destruct (_ <? _); [done|]. rewrite IH. apply Permutation_swap.
Qed.

Lemma sort_desc_perm l : sort_desc l ≡ₚ l.
Proof.
  unfold sort_desc.
  assert (H : ∀ acc, foldl (λ acc x, insert_desc x acc) acc l ≡ₚ acc ++ l).
  { induction l as [|x l IH]; intros acc; simpl; [by rewrite app_nil_r|].
    rewrite IH, insert_desc_perm. by rewrite <- Permutation_middle. }
  by rewrite H.
Qed.

Lemma insert_desc_sorted x l :
  StronglySorted abundance_ge l → StronglySorted abundance_ge (insert_desc x l).
Proof.
  induction 1 as [|y l Hs IH Hall]; simpl; [repeat constructor|].
  rewrite Forall_forall in Hall. unfold abundance_ge in Hall.
  destruct (_ <? _) eqn:E.
  - apply Z.ltb_lt in E. constructor; [by constructor; [|apply Forall_forall]|].
    apply Forall_forall. intros z [->|Hz]%elem_of_cons; unfold abundance_ge.
    + lia.
    + specialize (Hall z Hz). lia.
  - apply Z.ltb_ge in E. constructor; [done|].
    apply Forall_forall. intros z. rewrite insert_desc_perm.
    intros [->|Hz]%elem_of_cons; unfold abundance_ge; [lia|by apply Hall].
Qed.

Lemma sort_desc_sorted l : StronglySorted abundance_ge (sort_desc l).
Proof.
  unfold sort_desc.
  apply (foldl_invariant _ (StronglySorted abundance_ge)); [|constructor].
  intros acc x Hacc. by apply insert_desc_sorted.
Qed.

(** The selection is the head of the sorted list, reordered. *)
Lemma selected_for_take class_id l mppc :
  0 ≤ mppc →
  selected_for shuffle class_id l mppc ≡ₚ take (Z.to_nat mppc) (sort_desc l).
Proof.
  intros Hm. unfold selected_for. rewrite shuffle_perm.
  rewrite py_slice_prefix by lia.
  destruct (decide (Z.of_nat (length (sort_desc l)) ≤ mppc)).
  - rewrite Z.min_l by lia. rewrite !take_ge by lia. done.
  - rewrite Z.min_r by lia. done.
Qed.

(** X13: the patches selected for a class are the
    [min(available, min_patches_per_class)] candidates of highest
    abundance: the candidates are the selected ones and a rest, and no
    patch of the rest has a higher abundance than a selected one.  The
    shuffle only reorders the selection. *)
Theorem selection_takes_highest_abundance
        (class_id : Z) (all_patches : list candidate)
        (min_patches_per_class : Z) :
  0 ≤ min_patches_per_class →
  let selected :=
    selected_for shuffle class_id all_patches min_patches_per_class in
  ∃ rest : list candidate,
    all_patches ≡ₚ selected ++ rest
    ∧ Z.of_nat (length selected)
      = Z.min (Z.of_nat (length all_patches)) min_patches_per_class
    ∧ ∀ p q, p ∈ selected → q ∈ rest → abundance_of q ≤ abundance_of p.
Proof.
  intros Hm selected.
  pose proof (selected_for_take class_id all_patches _ Hm) as Hsel.
  fold selected in Hsel.
  exists (drop (Z.to_nat min_patches_per_class) (sort_desc all_patches)).
  split; [|split].
  - by rewrite Hsel, take_drop, sort_desc_perm.
  - by apply length_selected_for.
  - intros p q Hp Hq. rewrite Hsel in Hp.
    pose proof (sort_desc_sorted all_patches) as Hs.
    rewrite <- (take_drop (Z.to_nat min_patches_per_class)) in Hs.
    apply (StronglySorted_app_1_elem_of _ _ _ p q Hs Hp Hq).
Qed.

Lemma selected_coords class_id l mppc :
  0 ≤ mppc → NoDup (coords_of <$> l) →
  NoDup (coords_of <$> selected_for shuffle class_id l mppc)
  ∧ ∀ c, c ∈ coords_of <$> selected_for shuffle class_id l mppc →
         c ∈ coords_of <$> l.
Proof.
  intros Hm Hnd. rewrite (selected_for_take class_id l mppc Hm).
  assert (Hsub : coords_of <$> take (Z.to_nat mppc) (sort_desc l)
                 `sublist_of` coords_of <$> sort_desc l)
    by (apply fmap_sublist, sublist_take).
  assert (Hnd' : NoDup (coords_of <$> sort_desc l))
    by (by rewrite sort_desc_perm).
  split; [by eapply sublist_NoDup|].
  intros c Hc. rewrite (selected_for_take class_id l mppc Hm) in Hc.
  pose proof (elem_of_sublist _ _ _ Hc Hsub) as Hc'.
  by rewrite sort_desc_perm in Hc'.
Qed.

(** X14: the train, val and test lists of a class, taken together, hold
    no location twice, so no patch of a class is in two of its splits; and
    every location in them is a cell of the abundance map of the class
    with a positive count whose window lies inside the land cover. *)
Theorem splits_disjoint_inside_raster
        (abundance_files : gmap Z array2) (classes : list Z)
        (lc_rows lc_cols window_size stride min_patches_per_class class_id : Z)
        (ds : array2) :
  class_id ∈ classes → abundance_files !! class_id = Some ds → rect ds →
  0 ≤ min_patches_per_class ≤ 1000 →
  ∃ s : class_split,
    select_and_split_patches_stratified shuffle abundance_files classes lc_rows
      lc_cols window_size stride min_patches_per_class 0.7%float 0.15%float
      !! class_id = Some s
    ∧ NoDup (train_patches s ++ val_patches s ++ test_patches s)
    ∧ ∀ i j, (i, j) ∈ train_patches s ++ val_patches s ++ test_patches s →
        0 ≤ i < nrows ds ∧ 0 ≤ j < ncols ds ∧ 0 < get ds i j
        ∧ i * stride + window_size ≤ lc_rows
        ∧ j * stride + window_size ≤ lc_cols.
Proof.
  intros Hin Hds Hrect Hm.
  set (all_patches :=
         candidates_of abundance_files lc_rows lc_cols window_size stride class_id).
  exists (split_class shuffle class_id all_patches min_patches_per_class
                      0.7%float 0.15%float).
  split; [by apply all_splits_entry|].
  destruct (split_class_partition shuffle shuffle_perm class_id all_patches
              min_patches_per_class Hm) as (_ & Hp & _).
  rewrite Hp.
  assert (Hall : all_patches
                 = row_major_candidates ds lc_rows lc_cols window_size stride).
  { subst all_patches. unfold candidates_of. rewrite Hds.
    by apply collect_patches_eq. }
  destruct (selected_coords class_id all_patches min_patches_per_class)
    as [Hnd Hsub]; [lia|rewrite Hall; by apply row_major_coords_nodup|].
  split; [done|]. intros i j Hij%Hsub.
  apply list_elem_of_fmap in Hij as ([[v i'] j'] & [= <- <-] & Hv).
  rewrite Hall in Hv. apply row_major_elem in Hv. lia.
Qed.

Lemma sizes_positive_upto (n : Z) : 3 ≤ n ≤ 1000 → sizes_positive n = true.
Proof.
  intros Hn.
  assert (H : forallb sizes_positive (seqZ 3 998) = true)
    by (vm_compute; reflexivity).
  rewrite forallb_forall in H. apply H.
  apply list_elem_of_In, elem_of_seqZ. lia.
Qed.

(** X15: with the default ratios, a class with at least 3 selected patches
    (and at most 1000) gets at least one patch in each of train, val and
    test; a class with a single selected patch gets it in test and nothing
    in train and val. *)
Theorem splits_nonempty_from_three
        (class_id : Z) (all_patches : list candidate)
        (min_patches_per_class : Z) :
  0 ≤ min_patches_per_class ≤ 1000 →
  let n := Z.min (Z.of_nat (length all_patches)) min_patches_per_class in
  let s := split_class shuffle class_id all_patches min_patches_per_class
                       0.7%float 0.15%float in
  (3 ≤ n →
   train_patches s ≠ [] ∧ val_patches s ≠ [] ∧ test_patches s ≠ [])
  ∧ (n = 1 →
     train_patches s = [] ∧ val_patches s = []
     ∧ length (test_patches s) = 1%nat).
Proof.
  intros Hm n s.
  destruct (split_class_partition shuffle shuffle_perm class_id all_patches
              min_patches_per_class Hm) as (Hn & _ & _ & Hc & _).
  fold s in Hc. rewrite Hn in Hc. fold n in Hc. split.
  - intros H3. specialize (Hc ltac:(lia)).
    pose proof (sizes_positive_upto n ltac:(lia)) as Hpos.
    unfold sizes_positive in Hpos. rewrite Hc in Hpos.
    rewrite !andb_true_iff, !Z.leb_le in Hpos.
    repeat split; intros E; rewrite E in Hpos; simpl in Hpos; lia.
  - intros H1. specialize (Hc ltac:(lia)). rewrite H1 in Hc.
    change (split_counts 1 0.7%float 0.15%float) with (0, 0, 1) in Hc.
    injection Hc as Ha Hb Ht.
    repeat split; [by destruct (train_patches s)|by destruct (val_patches s)|lia].
Qed.

End SelectionFacts.

Lemma selection_takes_highest_abundance_witness :
  ∃ rest : list candidate,
    [(1, 0, 0); (5, 0, 1); (3, 0, 2)]
    ≡ₚ selected_for (λ _ l, reverse l) 3 [(1, 0, 0); (5, 0, 1); (3, 0, 2)] 2
       ++ rest
    ∧ Z.of_nat (length (selected_for (λ _ l, reverse l) 3
                          [(1, 0, 0); (5, 0, 1); (3, 0, 2)] 2))
      = Z.min (Z.of_nat (length [(1, 0, 0); (5, 0, 1); (3, 0, 2)])) 2
    ∧ ∀ p q, p ∈ selected_for (λ _ l, reverse l) 3
                   [(1, 0, 0); (5, 0, 1); (3, 0, 2)] 2 →
             q ∈ rest → abundance_of q ≤ abundance_of p.
Proof.
  refine (selection_takes_highest_abundance
            (λ _ l, reverse l) (λ _ l, reverse_Permutation l) 3
            [(1, 0, 0); (5, 0, 1); (3, 0, 2)] 2 _).
  lia.
Defined.

Lemma splits_disjoint_inside_raster_witness :
  ∃ s : class_split,
    select_and_split_patches_stratified
      (λ _ l, reverse l) {[3 := [[0; 5]; [0; 0]; [9; 0]]]} [3] 1000 1000 224 204
      100 0.7%float 0.15%float !! 3 = Some s
    ∧ NoDup (train_patches s ++ val_patches s ++ test_patches s)
    ∧ ∀ i j, (i, j) ∈ train_patches s ++ val_patches s ++ test_patches s →
        0 ≤ i < nrows [[0; 5]; [0; 0]; [9; 0]]
        ∧ 0 ≤ j < ncols [[0; 5]; [0; 0]; [9; 0]]
        ∧ 0 < get [[0; 5]; [0; 0]; [9; 0]] i j
        ∧ i * 204 + 224 ≤ 1000 ∧ j * 204 + 224 ≤ 1000.
Proof.
  refine (splits_disjoint_inside_raster
            (λ _ l, reverse l) (λ _ l, reverse_Permutation l)
            {[3 := [[0; 5]; [0; 0]; [9; 0]]]} [3] 1000 1000 224 204 100 3
            [[0; 5]; [0; 0]; [9; 0]] _ _ _ _).
  - by left.
  - vm_compute. reflexivity.
  - repeat constructor.
  - lia.
Defined.

Lemma splits_nonempty_from_three_witness :
  train_patches (split_class (λ _ l, reverse l) 3
                   [(1, 0, 0); (5, 0, 1); (3, 0, 2)] 100 0.7%float 0.15%float)
  ≠ [].
Proof.
  refine (proj1 (proj1 (splits_nonempty_from_three
                          (λ _ l, reverse l) (λ _ l, reverse_Permutation l) 3
                          [(1, 0, 0); (5, 0, 1); (3, 0, 2)] 100 _) _)).
  - lia.
  - concrete_range.
Defined.

(** ** Patch extraction: which files exist *)

Section PatchKeys.

Context {S V : Type}.
Variable proj : S → gmap (Z * Z) V.
Variable f : S → Z → Z * (Z * Z) → S.
Variable patch : Z → Z → option V.

Hypothesis f_spec : ∀ acc c idx i j,
  proj (f acc c (idx, (i, j)))
  = match patch i j with
    | Some v => <[(c, idx) := v]> (proj acc)
    | None => proj acc
    end.

(** The keys after the loop over the locations of one class. *)
Lemma class_loop_keys (c : Z) (coords : list (Z * Z)) (acc : S) (key : Z * Z) :
  is_Some (proj (foldl (λ acc' entry, f acc' c entry) acc (enumerate coords))
             !! key)
  ↔ is_Some (proj acc !! key)
    ∨ ∃ (k : nat) (i j : Z),
        coords !! k = Some (i, j) ∧ key = (c, Z.of_nat k) ∧ is_Some (patch i j).
Proof.
  induction coords as [|[i0 j0] l IH] using rev_ind.
  - simpl. split; [by left|]. intros [H|(k & i & j & Hk & _)]; [done|].
    by rewrite lookup_nil in Hk.
  - rewrite enumerate_snoc, foldl_snoc, f_spec.
    assert (Hold : (∃ (k : nat) (i j : Z),
                      (l ++ [(i0, j0)]) !! k = Some (i, j)
                      ∧ key = (c, Z.of_nat k) ∧ is_Some (patch i j))
                   ↔ (∃ (k : nat) (i j : Z),
                        l !! k = Some (i, j) ∧ key = (c, Z.of_nat k)
                        ∧ is_Some (patch i j))
                     ∨ (key = (c, Z.of_nat (length l)) ∧ is_Some (patch i0 j0))).
    { split.
      - intros (k & i & j & Hk & Hkey & Hp).
        destruct (decide (k < length l)%nat) as [Hlt|Hge].
        + rewrite lookup_app_l in Hk by done. left. by exists k, i, j.
        + rewrite lookup_app_r in Hk by lia.
          destruct (k - length l)%nat as [|n] eqn:E; simpl in Hk; [|done].
          injection Hk as <- <-. right. split; [|done].
          rewrite Hkey. do 2 f_equal. lia.
      - intros [(k & i & j & Hk & Hkey & Hp)|[Hkey Hp]].
        + exists k, i, j. split; [|done].
          rewrite lookup_app_l; [done|]. by eapply lookup_lt_Some.
        + exists (length l), i0, j0. split; [|done].
          by rewrite lookup_app_r, Nat.sub_diag by lia. }
    rewrite Hold. clear Hold.
    destruct (patch i0 j0) as [v|] eqn:Ep.
    + rewrite lookup_insert_is_Some, IH.
      destruct (decide ((c, Z.of_nat (length l)) = key)) as [<-|Hne].
      * split; [intros _; right; right; by split|by left].
      * split.
        -- intros [?|[_ [H|H]]]; [done|by left|by right; left].
        -- intros [H|[H|[-> _]]]; [| |done].
           ++ right. split; [done|by left].
           ++ right. split; [done|by right].
    + rewrite IH. split; [intros [H|H]; [by left|by right; left]|].
      intros [H|[H|[_ [? ?]]]]; [by left|by right|done].
Qed.

Lemma all_classes_keys (items : list (Z * list (Z * Z))) (acc : S)
      (key : Z * Z) :
  is_Some (proj (foldl (λ acc' (item : Z * list (Z * Z)),
                          let '(class_id, coords') := item in
                          foldl (λ acc'' entry, f acc'' class_id entry) acc'
                                (enumerate coords'))
                       acc items) !! key)
  ↔ is_Some (proj acc !! key)
    ∨ ∃ (c : Z) (coords : list (Z * Z)) (k : nat) (i j : Z),
        (c, coords) ∈ items ∧ coords !! k = Some (i, j)
        ∧ key = (c, Z.of_nat k) ∧ is_Some (patch i j).
Proof.
  revert acc. induction items as [|[c0 l0] items IH]; intros acc.
  - simpl. split; [by left|].
    intros [H|(c & coords & k & i & j & Hin & _)]; [done|by inversion Hin].
  - cbn [foldl]. rewrite IH, class_loop_keys. split.
    + intros [[H|(k & i & j & Hk & Hkey & Hp)]
             |(c & coords & k & i & j & Hin & Hk & Hkey & Hp)].
      * by left.
      * right. exists c0, l0, k, i, j. split; [by left|done].
      * right. exists c, coords, k, i, j. split; [by right|done].
    + intros [H|(c & coords & k & i & j & [[= -> ->]|Hin]%elem_of_cons
                  & Hk & Hkey & Hp)].
      * by left; left.
      * left. right. by exists k, i, j.
      * right. by exists c, coords, k, i, j.
Qed.

(** Every file is the output of the patch function at some location. *)
Lemma all_classes_values (P : V → Prop) (items : list (Z * list (Z * Z)))
      (acc : S) :
  (∀ i j v, patch i j = Some v → P v) →
  map_Forall (λ _ v, P v) (proj acc) →
  map_Forall (λ _ v, P v)
    (proj (foldl (λ acc' (item : Z * list (Z * Z)),
                    let '(class_id, coords') := item in
                    foldl (λ acc'' entry, f acc'' class_id entry) acc'
                          (enumerate coords'))
                 acc items)).
Proof.
  intros HP. apply (foldl_invariant _ (λ a, map_Forall (λ _ v, P v) (proj a))).
  intros a [c coords] Ha.
  apply (foldl_invariant _ (λ a, map_Forall (λ _ v, P v) (proj a))); [|done].
  intros a' [idx [i j]] Ha'. cbv beta. rewrite f_spec.
  destruct (patch i j) as [v|] eqn:E; [|done].
  apply map_Forall_insert_2; [by eapply HP|done].
Qed.

End PatchKeys.

Section PatchCount.

Context {V : Type}.
Variable patch : Z → Z → option V.

(** The count and the files after the loop over the locations of one
    class none of whose files is there yet. *)
Lemma class_loop_count (c : Z) (coords : list (Z * Z))
      (acc : Z * gmap (Z * Z) V) (seen : Z → Prop) :
  acc.1 = Z.of_nat (size acc.2) →
  (∀ key, is_Some (acc.2 !! key) → seen key.1) → ¬ seen c →
  let r := foldl (λ (acc' : Z * gmap (Z * Z) V) (entry : Z * (Z * Z)),
                    let '(total_extracted, files) := acc' in
                    let '(patch_idx, (i, j)) := entry in
                    match patch i j with
                    | Some v =>
                        (total_extracted + 1, <[(c, patch_idx) := v]> files)
                    | None => acc'
                    end)
                 acc (enumerate coords) in
  r.1 = Z.of_nat (size r.2)
  ∧ ∀ key, is_Some (r.2 !! key) →
      seen key.1 ∨ (key.1 = c ∧ 0 ≤ key.2 < Z.of_nat (length coords)).
Proof.
  intros Hsize Hseen Hc.
  induction coords as [|[i0 j0] l IH] using rev_ind.
  - simpl. split; [done|]. intros key Hk. left. by apply Hseen.
  - cbv zeta in IH |- *. rewrite enumerate_snoc, foldl_snoc.
    destruct (foldl _ acc (enumerate l)) as [t files].
    cbn [fst snd] in IH. destruct IH as [IHs IHk].
    rewrite length_app. simpl.
    destruct (patch i0 j0) as [v|]; cbn [fst snd].
    + split.
      * rewrite map_size_insert_None; [lia|].
        apply eq_None_not_Some. intros H.
        destruct (IHk _ H) as [H'|[_ H']]; [done|]. simpl in H'. lia.
      * intros key [<-|[_ H]]%lookup_insert_is_Some.
        -- right. simpl. lia.
        -- destruct (IHk key H) as [?|[? ?]]; [by left|right; lia].
    + split; [done|]. intros key H.
      destruct (IHk key H) as [?|[? ?]]; [by left|right; lia].
Qed.

Lemma all_classes_count (items : list (Z * list (Z * Z)))
      (acc : Z * gmap (Z * Z) V) (seen : Z → Prop) :
  NoDup items.*1 → (∀ c, c ∈ items.*1 → ¬ seen c) →
  acc.1 = Z.of_nat (size acc.2) →
  (∀ key, is_Some (acc.2 !! key) → seen key.1) →
  let r := foldl (λ acc' (item : Z * list (Z * Z)),
                    let '(class_id, coords) := item in
                    foldl (λ (acc'' : Z * gmap (Z * Z) V) (entry : Z * (Z * Z)),
                             let '(total_extracted, files) := acc'' in
                             let '(patch_idx, (i, j)) := entry in
                             match patch i j with
                             | Some v =>
                                 (total_extracted + 1,
                                  <[(class_id, patch_idx) := v]> files)
                             | None => acc''
                             end)
                          acc' (enumerate coords))
                 acc items in
  r.1 = Z.of_nat (size r.2).
Proof.
  revert acc seen. induction items as [|[c0 l0] items IH];
    intros acc seen Hnd Hfresh Hsize Hseen; [done|].
  simpl in Hnd. apply NoDup_cons in Hnd as [Hc0 Hnd]. cbn [foldl].
  destruct (class_loop_count c0 l0 acc seen Hsize Hseen) as [Hs Hk].
  { apply Hfresh. by left. }
  apply (IH _ (λ c, seen c ∨ c = c0)); [done| |done|].
  - intros c Hc [Hs'|Heq]; [by apply (Hfresh c); [right|]|].
    subst c. done.
  - intros key H. destruct (Hk key H) as [?|[? _]]; [by left|by right].
Qed.

End PatchCount.

Section ExtractionInvariants.

Implicit Types (sensor lcf lcu : dataset) (band a : array2).

Lemma nrows_clip_uint8 a : nrows (clip_uint8 a) = nrows a.
Proof. unfold nrows, clip_uint8. by rewrite length_fmap. Qed.

Lemma ncols_clip_uint8 a : ncols (clip_uint8 a) = ncols a.
Proof. destruct a; [done|]. simpl. by rewrite length_fmap. Qed.

Lemma clip_uint8_range a :
  Forall (Forall (λ v, 0 ≤ v ≤ 255)) (clip_uint8 a).
Proof.
  unfold clip_uint8. apply Forall_fmap, Forall_forall. intros r _. simpl.
  apply Forall_fmap, Forall_forall. intros v _. simpl. lia.
Qed.

(** What a written image patch looks like. *)
Lemma sensor_patch_file sensor num_bands window_size stride i j (img : geotiff) :
  sensor_patch sensor num_bands window_size stride i j = Some img →
  1 ≤ num_bands ≤ RasterCount sensor
  ∧ Z.of_nat (length (tif_bands img)) = num_bands
  ∧ Forall (λ band, nrows band = window_size ∧ ncols band = window_size
                    ∧ Forall (Forall (λ v, 0 ≤ v ≤ 255)) band)
           (tif_bands img).
Proof.
  unfold sensor_patch.
  destruct (RasterCount sensor <? num_bands) eqn:En; [done|].
  apply Z.ltb_ge in En.
  destruct (mapM _ _) as [bands_data|] eqn:E; [|done].
  cbn [mbind option_bind]. apply mapM_Some in E.
  pose proof (Forall2_length _ _ _ E) as Hlen.
  rewrite length_take in Hlen. unfold RasterCount in En.
  destruct bands_data as [|b bs] eqn:Eb; [done|]. rewrite <- Eb in *.
  intros [= <-]. cbn [tif_bands].
  assert (Hpos : (0 < length bands_data)%nat) by (rewrite Eb; simpl; lia).
  split; [unfold RasterCount; lia|]. split; [rewrite length_fmap; lia|].
  apply Forall_fmap, Forall_forall. intros p Hp. simpl.
  apply list_elem_of_lookup in Hp as [k Hk].
  destruct (Forall2_lookup_r _ _ _ _ _ E Hk) as (band & _ & Hread).
  destruct (ReadAsArray band _ _ _ _) as [p'|]; [|done].
  cbn [mbind option_bind] in Hread.
  destruct (has_shape p' window_size window_size) eqn:Es; [|done].
  injection Hread as ->. unfold has_shape in Es.
  rewrite andb_true_iff, !Z.eqb_eq in Es.
  rewrite nrows_clip_uint8, ncols_clip_uint8.
  split; [tauto|]. split; [tauto|]. apply clip_uint8_range.
Qed.

(** X16: every image patch written for a sensor has exactly [num_bands]
    bands, [num_bands] being at least 1 and at most the band count of the
    sensor raster; every band has [window_size] rows and [window_size]
    columns, and every value lies in [0, 255]. *)
Theorem image_patches_are_uint8_windows
        sensor (patch_locations : gmap Z (list (Z * Z)))
        (window_size stride num_bands : Z) (key : Z * Z) (img : geotiff) :
  (extract_patches_for_sensor sensor patch_locations window_size stride
                              num_bands).2 !! key = Some img →
  1 ≤ num_bands ≤ RasterCount sensor
  ∧ Z.of_nat (length (tif_bands img)) = num_bands
  ∧ Forall (λ band, nrows band = window_size ∧ ncols band = window_size
                    ∧ Forall (Forall (λ v, 0 ≤ v ≤ 255)) band)
           (tif_bands img).
Proof.
  intros Hk.
  assert (Hall : map_Forall
            (λ _ (img : geotiff),
               1 ≤ num_bands ≤ RasterCount sensor
               ∧ Z.of_nat (length (tif_bands img)) = num_bands
               ∧ Forall (λ band, nrows band = window_size
                                 ∧ ncols band = window_size
                                 ∧ Forall (Forall (λ v, 0 ≤ v ≤ 255)) band)
                        (tif_bands img))
            (extract_patches_for_sensor sensor patch_locations window_size
                                        stride num_bands).2).
  { unfold extract_patches_for_sensor.
    apply (all_classes_values
             snd
             (λ (acc' : Z * gmap (Z * Z) geotiff) (class_id : Z)
                (entry : Z * (Z * Z)),
                let '(total_extracted, files) := acc' in
                let '(patch_idx, (i, j)) := entry in
                match sensor_patch sensor num_bands window_size stride i j with
                | Some tif =>
                    (total_extracted + 1, <[(class_id, patch_idx) := tif]> files)
                | None => acc'
                end)
             (sensor_patch sensor num_bands window_size stride)).
    - intros [t fl] c' idx i' j'; simpl. by destruct (sensor_patch _ _ _ _ _ _).
    - intros i j v. apply sensor_patch_file.
    - apply map_Forall_empty. }
  exact (Hall key img Hk).
Qed.

Lemma image_patches_are_uint8_windows_witness :
  Z.of_nat (length (tif_bands
                      {| tif_bands := [[[40]]; [[80]]];
                         tif_gt := patch_gt (ds_gt aligned_sensor_example) 1 1;
                         tif_projection := "EPSG:3979" |})) = 2.
Proof.
  refine (proj1 (proj2 (image_patches_are_uint8_windows
                          aligned_sensor_example {[0 := [(1, 1)]]} 1 1 2 (0, 0)
                          {| tif_bands := [[[40]]; [[80]]];
                             tif_gt := patch_gt (ds_gt aligned_sensor_example) 1 1;
                             tif_projection := "EPSG:3979" |} _))).
  vm_compute. reflexivity.
Defined.

(** X17: the count [extract_patches_for_sensor] returns is the number of
    image files it wrote: no two locations share a file name.  A file
    [class_<c>_patch_<k>.tif] exists exactly when the k-th location of
    class c could be read, so a location that cannot be read leaves a gap
    in the numbering instead of shifting the later patches. *)
Theorem extracted_count_is_file_count
        sensor (patch_locations : gmap Z (list (Z * Z)))
        (window_size stride num_bands : Z) :
  let r := extract_patches_for_sensor sensor patch_locations window_size stride
                                      num_bands in
  r.1 = Z.of_nat (size r.2)
  ∧ ∀ key, is_Some (r.2 !! key)
      ↔ ∃ (c : Z) (coords : list (Z * Z)) (k : nat) (i j : Z),
          patch_locations !! c = Some coords ∧ coords !! k = Some (i, j)
          ∧ key = (c, Z.of_nat k)
          ∧ is_Some (sensor_patch sensor num_bands window_size stride i j).
Proof.
  intros r. subst r. unfold extract_patches_for_sensor. split.
  - apply (all_classes_count (sensor_patch sensor num_bands window_size stride)
             (map_to_list patch_locations) (0, ∅) (λ _, False)).
    + apply NoDup_fst_map_to_list.
    + tauto.
    + done.
    + intros key [? H]. cbn [snd] in H. by rewrite lookup_empty in H.
  - intros key.
    rewrite (all_classes_keys
               snd
               (λ (acc' : Z * gmap (Z * Z) geotiff) (class_id : Z)
                  (entry : Z * (Z * Z)),
                  let '(total_extracted, files) := acc' in
                  let '(patch_idx, (i, j)) := entry in
                  match sensor_patch sensor num_bands window_size stride i j with
                  | Some tif =>
                      (total_extracted + 1, <[(class_id, patch_idx) := tif]> files)
                  | None => acc'
                  end)
               (sensor_patch sensor num_bands window_size stride)).
    2:{ intros [t fl] c' idx i' j'; simpl. by destruct (sensor_patch _ _ _ _ _ _). }
    cbn [snd]. rewrite lookup_empty. split.
    + intros [[? ?]|(c & coords & k & i & j & Hin%elem_of_map_to_list & H)]; [done|].
      by exists c, coords, k, i, j.
    + intros (c & coords & k & i & j & Hin & H). right.
      exists c, coords, k, i, j. by rewrite elem_of_map_to_list.
Qed.

End ExtractionInvariants.

Section IdenticalLocations.

Implicit Types (sensor lcf lcu : dataset) (band : array2).





(** The keys of the two label directories. *)
Lemma label_keys lcf lcu (locations : gmap Z (list (Z * Z)))
      window_size stride (key : Z * Z) :
  let files := extract_label_patches lcf lcu locations window_size stride in
  let present :=
    ∃ (c : Z) (coords : list (Z * Z)) (k : nat) (i j : Z),
      locations !! c = Some coords ∧ coords !! k = Some (i, j)
      ∧ key = (c, Z.of_nat k)
      ∧ is_Some (label_patch (default [] (ds_bands lcf !! 0%nat))
                             (default [] (ds_bands lcu !! 0%nat))
                             (ds_gt lcf) (ds_projection lcf)
                             window_size stride i j) in
  (is_Some (files.1 !! key) ↔ present) ∧ (is_Some (files.2 !! key) ↔ present).
Proof.
  intros files present. subst files present. unfold extract_label_patches.
  set (F := λ (acc' : gmap (Z * Z) geotiff * gmap (Z * Z) geotiff)
              (class_id : Z) (entry : Z * (Z * Z)),
              let '(filtered, unfiltered) := acc' in
              let '(patch_idx, (i, j)) := entry in
              match label_patch (default [] (ds_bands lcf !! 0%nat))
                      (default [] (ds_bands lcu !! 0%nat))
                      (ds_gt lcf) (ds_projection lcf) window_size stride i j with
              | Some (f, u) =>
                  (<[(class_id, patch_idx) := f]> filtered,
                   <[(class_id, patch_idx) := u]> unfiltered)
              | None => acc'
              end).
  split.
  - etrans.
    { exact (all_classes_keys
               fst F
               (λ i j, fst <$> label_patch (default [] (ds_bands lcf !! 0%nat))
                         (default [] (ds_bands lcu !! 0%nat))
                         (ds_gt lcf) (ds_projection lcf) window_size stride i j)
               ltac:(intros [a b] c' idx i' j'; subst F; cbn beta iota;
                     by destruct (label_patch _ _ _ _ _ _ i' j') as [[? ?]|])
               (map_to_list locations) (∅, ∅) key). }
    cbn [fst]. rewrite lookup_empty. split.
    + intros [[? ?]|(c & coords & k & i & j & Hin%elem_of_map_to_list
                     & Hk & Hkey & Hp%fmap_is_Some)]; [done|].
      by exists c, coords, k, i, j.
    + intros (c & coords & k & i & j & Hin & Hk & Hkey & Hp). right.
      exists c, coords, k, i, j.
      by rewrite elem_of_map_to_list, fmap_is_Some.
  - etrans.
    { exact (all_classes_keys
               snd F
               (λ i j, snd <$> label_patch (default [] (ds_bands lcf !! 0%nat))
                         (default [] (ds_bands lcu !! 0%nat))
                         (ds_gt lcf) (ds_projection lcf) window_size stride i j)
               ltac:(intros [a b] c' idx i' j'; subst F; cbn beta iota;
                     by destruct (label_patch _ _ _ _ _ _ i' j') as [[? ?]|])
               (map_to_list locations) (∅, ∅) key). }
    cbn [snd]. rewrite lookup_empty. split.
    + intros [[? ?]|(c & coords & k & i & j & Hin%elem_of_map_to_list
                     & Hk & Hkey & Hp%fmap_is_Some)]; [done|].
      by exists c, coords, k, i, j.
    + intros (c & coords & k & i & j & Hin & Hk & Hkey & Hp). right.
      exists c, coords, k, i, j.
      by rewrite elem_of_map_to_list, fmap_is_Some.
Qed.


(** X18: the label patches come in pairs: a file name exists under
    [labels/filtered] exactly when it exists under [labels/unfiltered],
    and then it is that of a patch location whose window lies inside the
    filtered land cover. *)
Theorem label_patches_come_in_pairs
        lcf lcu (patch_locations : gmap Z (list (Z * Z)))
        (window_size stride : Z) (key : Z * Z) :
  let files := extract_label_patches lcf lcu patch_locations window_size stride in
  (is_Some (files.1 !! key) ↔ is_Some (files.2 !! key))
  ∧ (is_Some (files.1 !! key)
     → ∃ (c : Z) (coords : list (Z * Z)) (k : nat) (i j : Z),
         patch_locations !! c = Some coords ∧ coords !! k = Some (i, j)
         ∧ key = (c, Z.of_nat k)
         ∧ 0 ≤ j * stride ∧ 0 ≤ i * stride
         ∧ j * stride + window_size ≤ ncols (default [] (ds_bands lcf !! 0%nat))
         ∧ i * stride + window_size ≤ nrows (default [] (ds_bands lcf !! 0%nat))).
Proof.
  intros files.
  destruct (label_keys lcf lcu patch_locations window_size stride key)
    as [H1 H2].
  fold files in H1, H2. split; [by rewrite H1, H2|].
  intros (c & coords & k & i & j & Hc & Hk & Hkey & Hp)%H1.
  exists c, coords, k, i, j. split; [done|]. split; [done|]. split; [done|].
  unfold label_patch, ReadAsArray in Hp.
  destruct (_ && _) eqn:E; [|by destruct Hp].
  rewrite !andb_true_iff, !Z.leb_le in E. lia.
Qed.



End IdenticalLocations.

(** ** Band stacking: success, and the alignment check *)

Section StackSuccess.

Variable s : sensor.
Variable files : fs.

Abbreviation band_path := (λ band : string,
                             path_join (input_dir s) (band_file_name s band)).

Lemma all_bands_found (bands : list string) :
  Forall (λ b, band_path b ∈ files) bands →
  filter (λ b, band_path b ∈ files) bands = bands
  ∧ filter (λ b, band_path b ∉ files) bands = [].
Proof.
  induction 1 as [|b bands Hb Hall [IH1 IH2]]; [done|].
  rewrite filter_cons_True by done.
  rewrite (filter_cons_False (λ b, band_path b ∉ files)) by (by intros ?).
  by rewrite IH1, IH2.
Qed.

Lemma some_band_missing (bands : list string) :
  ¬ Forall (λ b, band_path b ∈ files) bands →
  filter (λ b, band_path b ∉ files) bands ≠ [].
Proof.
  intros Hn E. apply Hn. apply Forall_forall. intros b Hb.
  destruct (decide (band_path b ∈ files)) as [|Hout]; [done|].
  assert (Hin : b ∈ @nil string)
    by (rewrite <- E; by apply list_elem_of_filter).
  by inversion Hin.
Qed.

Lemma stack_bands_success (g : gdal) :
  expected_bands s = length (band_names s) →
  let band_paths := band_path <$> band_names s in
  let vrt_file := path_join (output_dir s) "temp_stack.vrt" in
  (stack_bands g s files).1.1 = true
  ↔ Forall (λ b, band_path b ∈ files) (band_names s)
    ∧ ∃ (files1 files2 : fs) (lines : list string),
        BuildVRT g files vrt_file band_paths = (files1, Done ())
        ∧ Translate g files1 (output_file s) vrt_file = (files2, Done ())
        ∧ report g (files2 ∖ {[vrt_file]}) (output_file s) = Done lines
        ∧ (stack_bands g s files).1.2 = files2 ∖ {[vrt_file]}.
Proof.
  intros Hexp band_paths vrt_file. unfold stack_bands.
  rewrite collect_band_files_spec.
  destruct (decide (Forall (λ b, band_path b ∈ files) (band_names s)))
    as [Hall|Hmiss].
  - destruct (all_bands_found _ Hall) as [-> ->].
    rewrite length_fmap, Hexp, Nat.eqb_refl. cbn [negb].
    fold band_paths vrt_file.
    destruct (BuildVRT g files vrt_file band_paths) as [files1 [[]| |msg1]];
      cbn [fst snd].
    2,3: split; [done|]; intros (_ & ? & ? & ? & Hb & _); by inversion Hb.
    destruct (Translate g files1 (output_file s) vrt_file)
      as [files2 [[]| |msg2]] eqn:Et; cbn [fst snd].
    2,3: split; [done|]; intros (_ & ? & ? & ? & Hb & Ht & _);
      inversion Hb; subst; rewrite Et in Ht; by inversion Ht.
    destruct (report g (files2 ∖ {[vrt_file]}) (output_file s))
      as [lines| |msg3] eqn:Er; cbn [fst snd].
    + split; [|done]. intros _. split; [done|]. by exists files1, files2, lines.
    + split; [done|]. intros (_ & ? & ? & ? & Hb & Ht & Hr & _).
      inversion Hb; subst. rewrite Et in Ht. inversion Ht; subst.
      by rewrite Er in Hr.
    + split; [done|]. intros (_ & ? & ? & ? & Hb & Ht & Hr & _).
      inversion Hb; subst. rewrite Et in Ht. inversion Ht; subst.
      by rewrite Er in Hr.
  - pose proof (some_band_missing _ Hmiss) as Hne.
    destruct (filter (λ b, band_path b ∉ files) (band_names s)); [done|].
    cbn [fst snd]. split; [done|]. by intros [? _].
Qed.

End StackSuccess.

Section StackSuccessClaim.

(** X20: the stacking function of either sensor returns [True] exactly
    when the clipped file of every band exists, the VRT is built from the
    band files in the order of the band list, the VRT is translated to the
    stacked file, and the stacked file can be read back.  The file system
    is then the one the translation left without the temporary VRT.  The
    check of the number of bands found never fails once no band is
    missing. *)
Theorem stacking_succeeds_iff (g : gdal) (files : fs) :
  let band_paths (s : sensor) :=
    (λ band, path_join (input_dir s) (band_file_name s band)) <$> band_names s in
  let vrt_file (s : sensor) := path_join (output_dir s) "temp_stack.vrt" in
  let succeeds (s : sensor) :=
    (∀ p, p ∈ band_paths s → p ∈ files)
    ∧ ∃ (files1 files2 : fs) (lines : list string),
        BuildVRT g files (vrt_file s) (band_paths s) = (files1, Done ())
        ∧ Translate g files1 (output_file s) (vrt_file s) = (files2, Done ())
        ∧ report g (files2 ∖ {[vrt_file s]}) (output_file s) = Done lines
        ∧ (stack_bands g s files).1.2 = files2 ∖ {[vrt_file s]}
        ∧ vrt_file s ∉ (stack_bands g s files).1.2 in
  ((stack_landsat_bands g files).1.1 = true ↔ succeeds landsat8)
  ∧ ((stack_sentinel2_bands g files).1.1 = true ↔ succeeds sentinel2).
Proof.
  intros band_paths vrt_file succeeds.
  assert (H : ∀ s, expected_bands s = length (band_names s) →
                (stack_bands g s files).1.1 = true ↔ succeeds s).
  { intros s Hs. rewrite (stack_bands_success s files g Hs).
    subst succeeds band_paths vrt_file. cbv beta.
    rewrite Forall_forall. split.
    - intros [Hall (f1 & f2 & lines & H1 & H2 & H3 & H4)]. split.
      + intros p (b & -> & Hb)%list_elem_of_fmap. by apply Hall.
      + exists f1, f2, lines. repeat split; try done. rewrite H4.
        apply not_elem_of_difference. right. by apply elem_of_singleton.
    - intros [Hall (f1 & f2 & lines & H1 & H2 & H3 & H4 & _)]. split.
      + intros b Hb. apply Hall. apply list_elem_of_fmap. by exists b.
      + by exists f1, f2, lines. }
  split; apply H; reflexivity.
Qed.

End StackSuccessClaim.

Section Alignment.

Variable open_sizes : string → outcome (Z * Z).
Variable s : sensor.
Variable files : fs.
Variable size : Z * Z.

Abbreviation band_path := (λ band : string,
                               path_join (input_dir s) (band_file_name s band)).

Lemma dict_set_sizes (d : list (string * (Z * Z))) k :
  Forall (λ item, item.2 = size) d → 
  Forall (λ item, item.2 = size) (dict_set d k size) ∧ dict_set d k size ≠ [].
Proof.
  induction 1 as [|[k' v'] d Hv Hd [IH1 IH2]]; simpl.
  - split; [by repeat constructor|done].
  - destruct (decide (k' = k)); split; try done; by constructor.
Qed.

(** The dictionary of the bands found, when every band that is there opens
    with the same size. *)
Lemma band_info_uniform (bands : list string) :
  (∀ b, b ∈ bands → band_path b ∈ files →
        open_sizes (band_path b) = Done size) →
  ∃ info,
    foldl (λ (acc : outcome (list (string * (Z * Z)))) (band : string),
             match acc with
             | Done info =>
                 let input_file :=
                   path_join (input_dir s) (band_file_name s band) in
                 if decide (input_file ∈ files) then
                   match open_sizes input_file with
                   | Done (width, height) =>
                       Done (dict_set info band (width, height))
                   | Null => Done info
                   | Raise msg => Raise msg
                   end
                 else Done info
             | _ => acc
             end)
          (Done []) bands = Done info
    ∧ Forall (λ item, item.2 = size) info
    ∧ ((∃ b, b ∈ bands ∧ band_path b ∈ files) → info ≠ []).
Proof.
  induction bands as [|b bands IH] using rev_ind; intros Hopen.
  - exists []. split; [done|]. split; [constructor|].
    intros (b & Hb & _). by inversion Hb.
  - destruct IH as (info & Hfold & Hsz & Hne).
    { intros b' Hb'. apply Hopen. apply elem_of_app. by left. }
    rewrite foldl_snoc, Hfold. cbv zeta.
    destruct (decide (band_path b ∈ files)) as [Hin|Hout].
    + rewrite (Hopen b) by (done || apply elem_of_app; right; by left).
      destruct size as [w h] eqn:Es. rewrite <- Es in *.
      destruct (dict_set_sizes info b Hsz) as [H1 H2].
      exists (dict_set info b size). by rewrite Es in *.
    + exists info. split; [done|]. split; [done|].
      intros (b' & [Hb'|Hb']%elem_of_app & Hf); [apply Hne; by exists b'|].
      apply list_elem_of_singleton in Hb'. by subst b'.
Qed.

Lemma consistent_uniform (first_band : string) (items : list (string * (Z * Z))) :
  Forall (λ item, item.2 = size) items →
  foldl (λ (consistent : bool) (item : string * (Z * Z)),
           let '(band, info) := item in
           if decide (band = first_band) then consistent
           else
             let consistent :=
               if negb (info.1 =? size.1) then false else consistent in
             if negb (info.2 =? size.2) then false else consistent)
        true items = true.
Proof.
  induction 1 as [|[band info] items Hi Hs IH]; [done|].
  cbn [foldl]. simpl in Hi. subst info.
  rewrite !Z.eqb_refl. cbn [negb]. by destruct (decide _).
Qed.

Lemma verify_uniform :
  (∀ b, b ∈ band_names s → band_path b ∈ files →
        open_sizes (band_path b) = Done size) →
  (∃ b, b ∈ band_names s ∧ band_path b ∈ files) →
  verify_band_alignment open_sizes s files = Done true.
Proof.
  intros Hopen Hsome. unfold verify_band_alignment.
  destruct (band_info_uniform (band_names s) Hopen) as (info & Hfold & Hsz & Hne).
  cbv zeta in Hfold |- *. rewrite Hfold.
  specialize (Hne Hsome). destruct info as [|[fb fi] rest]; [done|].
  f_equal. pose proof Hsz as Hsz'. apply Forall_cons in Hsz' as [Hfi _].
  simpl in Hfi. subst fi. by apply consistent_uniform.
Qed.

Lemma verify_nothing_found :
  (∀ b, b ∈ band_names s → band_path b ∉ files) →
  verify_band_alignment open_sizes s files = Done false.
Proof.
  intros Hnone. unfold verify_band_alignment.
  assert (H : ∀ bands, (∀ b, b ∈ bands → band_path b ∉ files) →
            foldl (λ (acc : outcome (list (string * (Z * Z)))) (band : string),
                     match acc with
                     | Done info =>
                         let input_file :=
                           path_join (input_dir s) (band_file_name s band) in
                         if decide (input_file ∈ files) then
                           match open_sizes input_file with
                           | Done (width, height) =>
                               Done (dict_set info band (width, height))
                           | Null => Done info
                           | Raise msg => Raise msg
                           end
                         else Done info
                     | _ => acc
                     end)
                  (Done []) bands = Done []).
  { induction bands as [|b bands IH] using rev_ind; intros Hb; [done|].
    rewrite foldl_snoc, IH by (intros b' Hb'; apply Hb, elem_of_app; by left).
    cbv zeta. rewrite decide_False; [done|].
    apply Hb, elem_of_app. right. by left. }
  specialize (H (band_names s) Hnone). cbv zeta in H |- *. by rewrite H.
Qed.

End Alignment.

Section AlignmentClaim.

(** X21: the alignment check passes over missing bands.  When the file of
    some band is missing, the file of some other band is there, and every
    band file that is there opens with the same width and height, the
    check returns [True], although the stacking function run on the same
    files returns [False] and writes nothing: the script then stacks
    without asking. *)
Theorem verification_skips_missing_bands
        (g : gdal) (open_sizes : string → outcome (Z * Z)) (s : sensor)
        (files : fs) (size : Z * Z) (missing found : string) :
  missing ∈ band_names s →
  path_join (input_dir s) (band_file_name s missing) ∉ files →
  found ∈ band_names s →
  path_join (input_dir s) (band_file_name s found) ∈ files →
  (∀ b, b ∈ band_names s →
        path_join (input_dir s) (band_file_name s b) ∈ files →
        open_sizes (path_join (input_dir s) (band_file_name s b)) = Done size) →
  verify_band_alignment open_sizes s files = Done true
  ∧ (stack_bands g s files).1.1 = false
  ∧ (stack_bands g s files).1.2 = files.
Proof.
  intros Hm Hmf Hf Hff Hopen. split.
  - apply (verify_uniform open_sizes s files size Hopen). by exists found.
  - destruct (stack_bands_aborts g s files missing Hm Hmf)
      as (_ & (log & -> & _) & _). done.
Qed.

Lemma verification_skips_missing_bands_witness :
  verify_band_alignment
    (λ _, Done (100, 200)) landsat8
    {[path_join (input_dir landsat8) (band_file_name landsat8 "SR_B2")]}
  = Done true.
Proof.
  refine (proj1 (verification_skips_missing_bands
                   {| BuildVRT := λ f v _, (f ∪ {[v]}, Done ());
                      Translate := λ f o _, (f ∪ {[o]}, Done ());
                      report := λ _ _, Done [] |}
                   (λ _, Done (100, 200)) landsat8
                   {[path_join (input_dir landsat8)
                               (band_file_name landsat8 "SR_B2")]}
                   (100, 200) "SR_B7" "SR_B2" _ _ _ _ _)).
  - apply (bool_decide_unpack _). vm_compute. reflexivity.
  - apply (bool_decide_unpack _). vm_compute. reflexivity.
  - apply (bool_decide_unpack _). vm_compute. reflexivity.
  - apply (bool_decide_unpack _). vm_compute. reflexivity.
  - intros b _ _. reflexivity.
Defined.

End AlignmentClaim.

Section AlignmentSpec.

Variable open_sizes : string → outcome (Z * Z).
Variable s : sensor.
Variable files : fs.
Variable sz : string → Z * Z.

Lemma dict_set_fresh {V} (d : list (string * V)) k v :
  k ∉ d.*1 → dict_set d k v = d ++ [(k, v)].
Proof.
  induction d as [|[k' v'] d IH]; intros Hk; [done|]. simpl.
  rewrite fmap_cons, not_elem_of_cons in Hk. destruct Hk as [Hne Hk].
  rewrite decide_False by done. by rewrite IH.
Qed.

(** The dictionary of the bands found, for distinct band names. *)
Lemma band_info_found (bands : list string) :
  NoDup bands →
  (∀ b, b ∈ bands → path_join (input_dir s) (band_file_name s b) ∈ files →
        open_sizes (path_join (input_dir s) (band_file_name s b)) = Done (sz b)) →
  foldl (λ (acc : outcome (list (string * (Z * Z)))) (band : string),
           match acc with
           | Done info =>
               if decide (path_join (input_dir s) (band_file_name s band) ∈ files)
               then
                 match open_sizes (path_join (input_dir s) (band_file_name s band))
                 with
                 | Done (width, height) =>
                     Done (dict_set info band (width, height))
                 | Null => Done info
                 | Raise msg => Raise msg
                 end
               else Done info
           | _ => acc
           end)
        (Done []) bands
  = Done ((λ b, (b, sz b))
            <$> filter (λ b, path_join (input_dir s) (band_file_name s b) ∈ files)
                       bands).
Proof.
  induction bands as [|b bands IH] using rev_ind; intros Hnd Hopen; [done|].
  apply NoDup_app in Hnd as (Hnd & Hdisj & _).
  rewrite foldl_snoc, IH; [|done|intros b' Hb'; apply Hopen, elem_of_app; by left].
  rewrite filter_app, fmap_app.
  destruct (decide (path_join (input_dir s) (band_file_name s b) ∈ files))
    as [Hin|Hout].
  - rewrite (Hopen b) by (done || apply elem_of_app; right; by left).
    rewrite filter_cons_True by done. rewrite filter_nil.
    destruct (sz b) as [w h] eqn:Es. rewrite dict_set_fresh.
    + by rewrite fmap_cons, Es.
    + rewrite <- list_fmap_compose. intros (b' & Heq & Hb')%list_elem_of_fmap.
      simpl in Heq. subst b'. apply list_elem_of_filter in Hb' as [_ Hb'].
      apply (Hdisj b Hb'). by left.
  - rewrite filter_cons_False by done. rewrite filter_nil.
    by rewrite app_nil_r.
Qed.

(** The loop that compares every band with the first one. *)
Lemma consistent_fold (first_band : string) (first_info : Z * Z)
      (items : list (string * (Z * Z))) (acc : bool) :
  foldl (λ (consistent : bool) (item : string * (Z * Z)),
           let '(band, info) := item in
           if decide (band = first_band) then consistent
           else
             let consistent :=
               if negb (info.1 =? first_info.1) then false else consistent in
             if negb (info.2 =? first_info.2) then false else consistent)
        acc items = true
  ↔ acc = true
    ∧ Forall (λ item, item.1 = first_band ∨ item.2 = first_info) items.
Proof.
  revert acc. induction items as [|[band [w h]] items IH]; intros acc.
  - simpl. split; [by split|tauto].
  - cbn [foldl]. rewrite IH, Forall_cons. cbn [fst snd].
    destruct first_info as [w0 h0]. cbn [fst snd].
    destruct (decide (band = first_band)) as [->|Hne]; [tauto|].
    destruct (w =? w0) eqn:Ew, (h =? h0) eqn:Eh; cbn [negb].
    + apply Z.eqb_eq in Ew, Eh. subst. tauto.
    + apply Z.eqb_neq in Eh. split; [by intros [? _]|].
      intros (_ & [?|?] & _); [done|congruence].
    + apply Z.eqb_neq in Ew. split; [by intros [? _]|].
      intros (_ & [?|?] & _); [done|congruence].
    + apply Z.eqb_neq in Ew. split; [by intros [? _]|].
      intros (_ & [?|?] & _); [done|congruence].
Qed.

(** X22: the value of the alignment check, for distinct band names whose
    files, when they are there, open with a width and a height.  The check
    returns a verdict, and the verdict is [True] exactly when at least one
    band file is there and every band file that is there has the width and
    the height of the first one in band order.  Bands without a file are
    passed over, and nothing else of the rasters is compared. *)
Theorem verify_band_alignment_spec :
  NoDup (band_names s) →
  (∀ b, b ∈ band_names s →
        path_join (input_dir s) (band_file_name s b) ∈ files →
        open_sizes (path_join (input_dir s) (band_file_name s b)) = Done (sz b)) →
  let found :=
    filter (λ b, path_join (input_dir s) (band_file_name s b) ∈ files)
           (band_names s) in
  ∃ consistent : bool,
    verify_band_alignment open_sizes s files = Done consistent
    ∧ (consistent = true
       ↔ ∃ first_band, head found = Some first_band
                       ∧ ∀ b, b ∈ found → sz b = sz first_band).
Proof.
  intros Hnd Hopen found. unfold verify_band_alignment. cbv zeta.
  rewrite (band_info_found (band_names s) Hnd Hopen). fold found.
  destruct found as [|b0 rest] eqn:Ef.
  - exists false. split; [done|]. split; [done|]. by intros (? & [=] & _).
  - rewrite fmap_cons. eexists. split; [reflexivity|].
    rewrite (consistent_fold b0 (sz b0) ((b0, sz b0) :: ((λ b, (b, sz b)) <$> rest))).
    split.
    + intros [_ Hall]. exists b0. split; [done|]. intros b Hb.
      rewrite Forall_forall in Hall.
      destruct (Hall (b, sz b)) as [H|H]; [|by simpl in H; subst|done].
      change ((b, sz b) ∈ (λ b, (b, sz b)) <$> b0 :: rest).
      apply list_elem_of_fmap. by exists b.
    + intros (fb & [= <-] & Hall). split; [done|].
      apply Forall_forall. intros [b i] Hb.
      change ((b, i) ∈ (λ b, (b, sz b)) <$> b0 :: rest) in Hb.
      apply list_elem_of_fmap in Hb as (b' & [= -> ->] & Hb'). right. simpl.
      by apply Hall.
Qed.

End AlignmentSpec.

Lemma verify_band_alignment_spec_witness :
  ∃ consistent : bool,
    verify_band_alignment
      (λ _, Done (100, 200)) landsat8
      {[path_join (input_dir landsat8) (band_file_name landsat8 "SR_B2")]}
    = Done consistent
    ∧ (consistent = true
       ↔ ∃ first_band,
           head (filter (λ b, path_join (input_dir landsat8)
                                        (band_file_name landsat8 b)
                              ∈ ({[path_join (input_dir landsat8)
                                     (band_file_name landsat8 "SR_B2")]} : fs))
                        (band_names landsat8)) = Some first_band
           ∧ ∀ b, b ∈ filter (λ b, path_join (input_dir landsat8)
                                             (band_file_name landsat8 b)
                                   ∈ ({[path_join (input_dir landsat8)
                                          (band_file_name landsat8 "SR_B2")]} : fs))
                             (band_names landsat8) →
                  (100, 200) = (100, 200)).
Proof.
  refine (verify_band_alignment_spec
            (λ _, Done (100, 200)) landsat8
            {[path_join (input_dir landsat8) (band_file_name landsat8 "SR_B2")]}
            (λ _, (100, 200)) _ _).
  - apply (bool_decide_unpack _). vm_compute. reflexivity.
  - intros b _ _. reflexivity.
Defined.


(** ** Abundance maps never overcount *)

Section RangeCuts.

Context {A : Type}.





End RangeCuts.

Section CountEq.

Implicit Types (a src : array2).





End CountEq.

Section AddBlock.

Implicit Types (full_abundance block : array2).



End AddBlock.

Section AbundanceBound.

Variables (src : array2) (class_id window_size stride batch_size : Z).
Variables (out_rows out_cols : Z).
Hypothesis src_rect : rect src.
Hypothesis batch_pos : 0 < batch_size.
Hypothesis window_nonneg : 0 ≤ window_size.
Hypothesis stride_pos : 0 < stride.

Implicit Types (full : array2) (i j : Z).





End AbundanceBound.

Section AbundanceBoundClaim.



End AbundanceBoundClaim.

(** ** Worked examples *)

Section Examples.

(** The homogeneity of a 5x5 uniform array: no window reaches 65 cells, so
    the batched filter with batches of side 2 returns background
    everywhere. *)
Example filter_small :
  apply_strict_majority_filter_batched (full 5 5 3) 0.8%float 2
  = full 5 5 (-99).
Proof. vm_compute. reflexivity. Qed.

(** Classes 15, 1, 20 and 5 (20 is not in the class table). *)
Example mapping_small :
  let m := create_alberta_label_mapping [15; 1; 20; 5] in
  alberta_classes_sorted m = [1; 5; 15; 20]
  ∧ original_to_new m = {[0 := -99; 1 := 0; 5 := 1; 15 := 2; 20 := 3]}
  ∧ new_to_original m = {[0 := 1; 1 := 5; 2 := 15; 3 := 20]}
  ∧ new_name <$> new_class_definitions m !! 2 = Some "Cropland"
  ∧ new_name <$> new_class_definitions m !! 3 = Some "Class_20".
Proof. vm_compute. repeat split; reflexivity. Qed.

Example remap_small :
  remap_ground_truth [[15; 0; 1]; [20; 5; 7]]
    (original_to_new (create_alberta_label_mapping [15; 1; 20; 5]))
  = [[2; -99; 0]; [3; 1; -99]].
Proof. vm_compute. reflexivity. Qed.

(** The products are binary64 products: [90 * 0.7] is just below 63. *)
Example split_counts_90 :
  split_counts 90 0.7%float 0.15%float = (62, 13, 15).
Proof. vm_compute. reflexivity. Qed.

Example split_counts_small :
  split_counts 1 0.7%float 0.15%float = (0, 0, 1)
  ∧ split_counts 3 0.7%float 0.15%float = (1, 1, 1)
  ∧ split_counts 5 0.7%float 0.15%float = (2, 1, 2).
Proof. vm_compute. repeat split; reflexivity. Qed.

(** The sort is stable and puts the larger abundance first. *)
Example sort_desc_small :
  sort_desc [(1, 0, 0); (5, 0, 1); (3, 0, 2); (5, 0, 3); (1, 0, 4)]
  = [(5, 0, 1); (5, 0, 3); (3, 0, 2); (1, 0, 0); (1, 0, 4)].
Proof. vm_compute. reflexivity. Qed.

(** With the files of the last two Landsat-8 bands missing. *)
Example stack_two_missing :
  let files : fs :=
    list_to_set ((λ b, path_join (input_dir landsat8)
                                 (band_file_name landsat8 b))
                   <$> take 4 landsat_bands) in
  let g := {| BuildVRT := λ f v _, (f ∪ {[v]}, Done ());
              Translate := λ f o _, (f ∪ {[o]}, Done ());
              report := λ _ _, Done [] |} in
  missing_in landsat8 files = ["SR_B6"; "SR_B7"]
  ∧ (stack_landsat_bands g files).1.1 = false
  ∧ drop 14 (stack_landsat_bands g files).2
    = [ nl +:+ "ERROR: Missing 2 band(s): ['SR_B6', 'SR_B7']";
        "Please make sure all bands are clipped before stacking." ].
Proof. vm_compute. repeat split; reflexivity. Qed.

End Examples.
